(** * Application-summary PDF generator: layout, embedding and API routes

    A shallow embedding of the PDF generator ([wrapText], [addSection],
    [embedUploadedPDF], [generatePDF], [generateSimplePDF]) and of the two
    API routes ([POST] of the submit route, [GET] of the download route),
    followed by the properties proved about them.

    Conventions of the embedding:
    - a JavaScript string is the list of its UTF-16 code units;
    - a JavaScript number is a rational ([Q]); the code only adds,
      subtracts, doubles and compares numbers;
    - a call into a library or into the operating system (pdf-lib, fs,
      prisma) is a field of a record of outcomes; a call that throws is an
      outcome [inl e];
    - code that mutates the generation context and may throw runs in a
      state-and-exception monad in which the state survives a throw, as the
      mutations of a JavaScript object do. *)

From Stdlib Require Import String Ascii.
From Stdlib Require DecimalString.
From Stdlib Require Import List NArith ZArith QArith Bool Lia Lqa.
Import ListNotations.

Set Implicit Arguments.

(** ** JavaScript strings *)

Module Js.

Definition CodeUnit := N.
Definition JsString := list CodeUnit.

(** String literals of the source, as code units. *)
Definition js (s : string) : JsString :=
  map N_of_ascii (list_ascii_of_string s).

Definition TAB : CodeUnit := 9%N.
Definition LF : CodeUnit := 10%N.
Definition CR : CodeUnit := 13%N.
Definition SP : CodeUnit := 32%N.

(** A string is truthy when it is not empty. *)
Definition truthy (s : JsString) : bool :=
  match s with [] => false | _ :: _ => true end.

(** The character class [[\x00-\x08\x0B\x0C\x0E-\x1F\x7F-\xFF]] used by
    the three [replace] calls of the generator. *)
Definition isStripped (c : CodeUnit) : bool :=
  ((c <=? 8) || (c =? 11) || (c =? 12)
   || ((14 <=? c) && (c <=? 31)) || ((127 <=? c) && (c <=? 255)))%N.

(** [s.replace(/[\x00-\x08\x0B\x0C\x0E-\x1F\x7F-\xFF]/g, "")] *)
Definition stripUnsupported (s : JsString) : JsString :=
  filter (fun c => negb (isStripped c)) s.

(** WhiteSpace and LineTerminator code units, the ones [trim] removes. *)
Definition isWhiteSpace (c : CodeUnit) : bool :=
  ((c =? 9) || (c =? 10) || (c =? 11) || (c =? 12) || (c =? 13)
   || (c =? 32) || (c =? 160) || (c =? 5760)
   || ((8192 <=? c) && (c <=? 8202))
   || (c =? 8232) || (c =? 8233) || (c =? 8239) || (c =? 8287)
   || (c =? 12288) || (c =? 65279))%N.

(** [!s.trim()]: nothing is left once the white space is trimmed. *)
Definition isBlank (s : JsString) : bool := forallb isWhiteSpace s.

Definition consHead (c : CodeUnit) (l : list JsString) : list JsString :=
  match l with
  | [] => [[c]]
  | h :: t => (c :: h) :: t
  end.

(** [s.split(sep)] for a separator of one code unit. *)
Fixpoint split (sep : CodeUnit) (s : JsString) : list JsString :=
  match s with
  | [] => [[]]
  | c :: rest =>
      if (c =? sep)%N then [] :: split sep rest
      else consHead c (split sep rest)
  end.

(** [s.split(/\r?\n/)]: a line feed, with the carriage return before it
    when there is one, separates two pieces. *)
Fixpoint splitNewlines (s : JsString) : list JsString :=
  match s with
  | [] => [[]]
  | c :: rest =>
      if (c =? LF)%N then [] :: splitNewlines rest
      else
        match rest with
        | d :: rest' =>
            if ((c =? CR) && (d =? LF))%N then [] :: splitNewlines rest'
            else consHead c (splitNewlines rest)
        | [] => [[c]]
        end
  end.

(** [pieces.join(sep)] *)
Fixpoint join (sep : JsString) (pieces : list JsString) : JsString :=
  match pieces with
  | [] => []
  | [p] => p
  | p :: ps => p ++ sep ++ join sep ps
  end.

End Js.
Import Js.

(** ** Numbers *)

(** [a > b] on numbers. *)
Definition Qgtb (a b : Q) : bool := negb (Qle_bool a b).
(** [a < b] on numbers. *)
Definition Qltb (a b : Q) : bool := negb (Qle_bool b a).

(** ** constants.ts *)

Module PDF_CONFIG.
Definition PAGE_WIDTH : Q := 59528 # 100.
Definition PAGE_HEIGHT : Q := 84189 # 100.
Definition MARGIN : Q := 50.
Definition TITLE_SIZE : Q := 24.
Definition HEADING_SIZE : Q := 16.
Definition TEXT_SIZE : Q := 12.
Definition LINE_HEIGHT : Q := 18.
End PDF_CONFIG.

Module ERROR_MESSAGES.
Definition PDF_GENERATION_FAILED : JsString := js "Failed to generate PDF".
Definition INVALID_FILE_TYPE : JsString := js "Only PDF files are allowed".
End ERROR_MESSAGES.

(** ** Thrown values *)

(** What a library or system call can throw: an [Error] object with its
    message, or a value that is not an [Error]. *)
Inductive Foreign : Type :=
| JsError (message : JsString)
| NonError.

(** What the code of the application can observe in a [catch]: an
    [ApplicationError] (file-utils; built as
    [new ApplicationError(message, statusCode)]), or something thrown by a
    library. *)
Inductive Thrown : Type :=
| ApplicationError (message : JsString) (statusCode : Z)
| Lib (e : Foreign).

(** [error instanceof Error ? error.message : fallback] *)
Definition messageOr (fallback : JsString) (e : Thrown) : JsString :=
  match e with
  | ApplicationError m _ => m
  | Lib (JsError m) => m
  | Lib NonError => fallback
  end.

(** ** The pdf-lib objects the generator uses *)

Inductive StandardFonts : Type := Helvetica | HelveticaBold.

(** An embedded font. [widthOfTextAtSize] is [None] when the call throws
    (the text cannot be encoded); [encodingError] is the message of the
    error [page.drawText] throws when it is given the text with this font:
    [drawText] first replaces tabs and splits the text at line breaks, so
    it is a character left after that which the font cannot encode. *)
Record PDFFont : Type := {
  fontName : StandardFonts;
  widthOfTextAtSize : JsString -> Q -> option Q;
  encodingError : JsString -> option JsString
}.

Record DrawTextOp : Type := {
  opText : JsString;
  opX : Q;
  opY : Q;
  opSize : Q;
  opFont : StandardFonts
}.

(** A page: its size, the content it was copied with (empty for a page
    made by [addPage([w, h])]) and the texts drawn on it, oldest first. *)
Record PDFPage : Type := {
  width : Q;
  height : Q;
  imported : list N;
  drawn : list DrawTextOp
}.

Definition blankPage (w h : Q) : PDFPage :=
  {| width := w; height := h; imported := []; drawn := [] |}.

Definition PDFDocument := list PDFPage.

(** [page.drawText] on the page at index [i] of the document. *)
Fixpoint drawOn (i : nat) (op : DrawTextOp) (d : PDFDocument) {struct d}
    : PDFDocument :=
  match d, i with
  | [], _ => []
  | p :: ps, O =>
      {| width := width p; height := height p; imported := imported p;
         drawn := drawn p ++ [op] |} :: ps
  | p :: ps, S i' => p :: drawOn i' op ps
  end.

(** ** The generation context *)

(** [page] is the index in [doc] of the page object [context.page] refers
    to. *)
Record PDFGenerationContext : Type := {
  doc : PDFDocument;
  page : nat;
  bold : PDFFont;
  regular : PDFFont;
  currentY : Q;
  pageWidth : Q;
  pageHeight : Q;
  margin : Q
}.

Definition setCurrentY (c : PDFGenerationContext) (v : Q) : PDFGenerationContext :=
  {| doc := doc c; page := page c; bold := bold c; regular := regular c;
     currentY := v; pageWidth := pageWidth c; pageHeight := pageHeight c;
     margin := margin c |}.

Definition setDoc (c : PDFGenerationContext) (d : PDFDocument) : PDFGenerationContext :=
  {| doc := d; page := page c; bold := bold c; regular := regular c;
     currentY := currentY c; pageWidth := pageWidth c;
     pageHeight := pageHeight c; margin := margin c |}.

Definition setPage (c : PDFGenerationContext) (i : nat) : PDFGenerationContext :=
  {| doc := doc c; page := i; bold := bold c; regular := regular c;
     currentY := currentY c; pageWidth := pageWidth c;
     pageHeight := pageHeight c; margin := margin c |}.

(** ** State and exceptions *)

Module Gen.

(** A computation on a state [S]: it returns or throws, and leaves a
    state either way. *)
Definition M (S A : Type) : Type := S -> (Thrown + A) * S.

Definition ret {S A} (a : A) : M S A := fun s => (inr a, s).

Definition bind {S A B} (m : M S A) (k : A -> M S B) : M S B :=
  fun s =>
    match m s with
    | (inr a, s') => k a s'
    | (inl e, s') => (inl e, s')
    end.

Definition throw {S A} (e : Thrown) : M S A := fun s => (inl e, s).

Definition get {S} : M S S := fun s => (inr s, s).

Definition modify {S} (f : S -> S) : M S unit := fun s => (inr tt, f s).

(** [try { m } catch (e) { handler e }] *)
Definition tryCatch {S A} (m : M S A) (handler : Thrown -> M S A) : M S A :=
  fun s =>
    match m s with
    | (inl e, s') => handler e s'
    | r => r
    end.

(** [for (const x of xs) { body x }] *)
Fixpoint forEach {S A} (xs : list A) (body : A -> M S unit) : M S unit :=
  match xs with
  | [] => ret tt
  | x :: rest => bind (body x) (fun _ => forEach rest body)
  end.

(** [await call] for a call that resolves to a value or rejects. *)
Definition await {S A} (outcome : Foreign + A) : M S A :=
  fun s =>
    match outcome with
    | inl e => (inl (Lib e), s)
    | inr a => (inr a, s)
    end.

(** [await call] for a call that resolves to nothing or rejects. *)
Definition awaitVoid {S} (outcome : option Foreign) : M S unit :=
  fun s =>
    match outcome with
    | Some e => (inl (Lib e), s)
    | None => (inr tt, s)
    end.

End Gen.
Import Gen.

(** The computations of the generator run on the generation context. *)
Definition GenM : Type -> Type := M PDFGenerationContext.

Notation "x <- m ;; k" := (bind m (fun x => k))
  (at level 61, m at next level, right associativity).
Notation "m ;;; k" := (bind m (fun _ => k))
  (at level 61, right associativity).

(** ** pdf-generator.ts: text layout *)

(** [wrapText]: the body of the loop over the words of a paragraph, on
    the pair of [lines] and [currentLine]. *)
Definition wrapWord (font : PDFFont) (maxWidth : Q)
    (st : list JsString * JsString) (word : JsString)
    : list JsString * JsString :=
  let (lines, currentLine) := st in
  let cleanWord := stripUnsupported word in
  let testLine :=
    if truthy currentLine then currentLine ++ [SP] ++ cleanWord
    else cleanWord in
  match widthOfTextAtSize font testLine PDF_CONFIG.TEXT_SIZE with
  | Some textWidth =>
      if Qgtb textWidth maxWidth && truthy currentLine
      then (lines ++ [currentLine], cleanWord)
      else (lines, testLine)
  | None => (lines, currentLine)
  end.

(** [wrapText]: the body of the loop over the paragraphs, as the lines
    it pushes on [allLines]. *)
Definition wrapParagraph (font : PDFFont) (maxWidth : Q)
    (paragraph : JsString) : list JsString :=
  if isBlank paragraph then [[]]
  else
    let (lines, currentLine) :=
      fold_left (wrapWord font maxWidth) (split SP paragraph) ([], []) in
    if truthy currentLine then lines ++ [currentLine] else lines.

Definition wrapText (text : JsString) (context : PDFGenerationContext)
    : list JsString :=
  let paragraphs := splitNewlines text in
  let maxWidth := pageWidth context - 2 * margin context in
  flat_map (wrapParagraph (regular context) maxWidth) paragraphs.

(** [page.drawText(text, {x, y, size, font})] on [context.page]: throws
    the error of [encodingError] when there is one. *)
Definition drawText (text : JsString) (x y size : Q) (font : PDFFont) : GenM unit :=
  fun c =>
    match encodingError font text with
    | Some msg => (inl (Lib (JsError msg)), c)
    | None =>
        (inr tt,
         setDoc c (drawOn (page c)
                     {| opText := text; opX := x; opY := y; opSize := size;
                        opFont := fontName font |} (doc c)))
    end.

(** [context.page = context.doc.addPage([context.pageWidth,
    context.pageHeight]); context.currentY = context.pageHeight -
    context.margin;] *)
Definition startNewPage : GenM unit :=
  modify (fun c =>
    setCurrentY
      (setPage (setDoc c (doc c ++ [blankPage (pageWidth c) (pageHeight c)]))
               (length (doc c)))
      (pageHeight c - margin c)).

Definition addTitle (title : JsString) : GenM unit :=
  let cleanTitle := stripUnsupported title in
  c <- get ;;
  drawText cleanTitle (margin c) (currentY c) PDF_CONFIG.TITLE_SIZE (bold c) ;;;
  modify (fun c => setCurrentY c (currentY c - (PDF_CONFIG.TITLE_SIZE + 20))).

(** [addSection]: the body of the loop over the wrapped lines. *)
Definition addLine (line : JsString) : GenM unit :=
  c <- get ;;
  (if Qltb (currentY c) (margin c + 20) then startNewPage else ret tt) ;;;
  (if negb (isBlank line)
   then tryCatch
          (c <- get ;;
           drawText line (margin c) (currentY c) PDF_CONFIG.TEXT_SIZE (regular c))
          (fun _ => ret tt)
   else ret tt) ;;;
  modify (fun c => setCurrentY c (currentY c - PDF_CONFIG.LINE_HEIGHT)).

(** [addSection]: the page check, the sanitised heading and the move of
    the cursor below it. *)
Definition addHeading (heading : JsString) : GenM unit :=
  c <- get ;;
  (if Qltb (currentY c) (margin c + 100) then startNewPage else ret tt) ;;;
  let cleanHeading := stripUnsupported heading in
  c <- get ;;
  drawText cleanHeading (margin c) (currentY c) PDF_CONFIG.HEADING_SIZE (bold c) ;;;
  modify (fun c => setCurrentY c (currentY c - (PDF_CONFIG.HEADING_SIZE + 10))).

Definition addSection (heading content : JsString) : GenM unit :=
  addHeading heading ;;;
  let cleanContent := stripUnsupported content in
  c <- get ;;
  let lines := wrapText cleanContent c in
  forEach lines addLine ;;;
  modify (fun c => setCurrentY c (currentY c - 20)).

(** The texts drawn on the pages of a document. *)
Definition allOps (d : PDFDocument) : list DrawTextOp := flat_map drawn d.

(** Two contexts with the same fonts, page size and margin. *)
Definition sameLayout (c c' : PDFGenerationContext) : Prop :=
  bold c' = bold c /\ regular c' = regular c
  /\ pageWidth c' = pageWidth c /\ pageHeight c' = pageHeight c
  /\ margin c' = margin c.

(** The page of the context leaves room for a heading below the top
    margin. *)
Definition roomForHeading (c : PDFGenerationContext) : Prop :=
  margin c + 100 <= pageHeight c - margin c.

(** Every text drawn while [m] runs satisfies [P], which may depend on
    the margin. *)
Definition drawsOnly {A : Type} (P : Q -> DrawTextOp -> Prop) (m : GenM A) : Prop :=
  forall c, roomForHeading c ->
    sameLayout c (snd (m c))
    /\ forall op, In op (allOps (doc (snd (m c)))) ->
         In op (allOps (doc c)) \/ P (margin c) op.

(** A heading of [addSection], at or above [margin + 100]. *)
Definition headingAbove (margin : Q) (op : DrawTextOp) : Prop :=
  opSize op = PDF_CONFIG.HEADING_SIZE /\ margin + 100 <= opY op.

(** A line of [addSection], at or above [margin + 20]. *)
Definition lineAbove (margin : Q) (op : DrawTextOp) : Prop :=
  opSize op = PDF_CONFIG.TEXT_SIZE /\ margin + 20 <= opY op.

(** The page [addHeading] starts when the cursor is too low: blank, with
    the heading at the top margin when the bold font can encode it. *)
Definition headingPage (heading : JsString) (c : PDFGenerationContext) : PDFPage :=
  {| width := pageWidth c; height := pageHeight c; imported := [];
     drawn :=
       match encodingError (bold c) (stripUnsupported heading) with
       | None =>
           [{| opText := stripUnsupported heading; opX := margin c;
               opY := pageHeight c - margin c;
               opSize := PDF_CONFIG.HEADING_SIZE;
               opFont := fontName (bold c) |}]
       | Some _ => []
       end |}.

(** The page [addLine] starts when the cursor is too low: blank, with
    the line at the top margin when it is drawn. *)
Definition linePage (line : JsString) (c : PDFGenerationContext) : PDFPage :=
  {| width := pageWidth c; height := pageHeight c; imported := [];
     drawn :=
       if isBlank line then []
       else
         match encodingError (regular c) line with
         | None =>
             [{| opText := line; opX := margin c;
                 opY := pageHeight c - margin c;
                 opSize := PDF_CONFIG.TEXT_SIZE;
                 opFont := fontName (regular c) |}]
         | Some _ => []
         end |}.

(** ** Submissions (types/index.ts) *)

(** A date is its time value. *)
Definition JsDate := N.

Record UserSubmission : Type := {
  id : JsString;
  firstName : JsString;
  lastName : JsString;
  email : JsString;
  phone : option JsString;
  jobDescription : JsString;
  uploadedFilePath : option JsString;
  uploadedFileName : option JsString;
  generatedPdfPath : option JsString;
  status : JsString;
  createdAt : JsDate;
  updatedAt : JsDate
}.

Inductive SubmissionStatus : Type := PENDING | PROCESSING | COMPLETED | FAILED.

(** The string of each member of the enum. *)
Definition statusValue (s : SubmissionStatus) : JsString :=
  match s with
  | PENDING => js "pending"
  | PROCESSING => js "processing"
  | COMPLETED => js "completed"
  | FAILED => js "failed"
  end.

(** A nullable string is truthy when it is neither [null] nor empty. *)
Definition optTruthy (o : option JsString) : bool :=
  match o with
  | Some s => truthy s
  | None => false
  end.

(** [o || fallback] *)
Definition orElse (o : option JsString) (fallback : JsString) : JsString :=
  match o with
  | Some s => if truthy s then s else fallback
  | None => fallback
  end.

(** [`${n}`] for a count. *)
Definition showNat (n : nat) : JsString :=
  js (DecimalString.NilEmpty.string_of_uint (Nat.to_uint n)).

Definition QUOTE : CodeUnit := 34%N.

(** ** The outcomes of the library and system calls of the generator *)

(** A call that can reject has an outcome [inl e] (or [Some e] when it
    resolves to nothing). The two reads that verify the saved file happen
    after the write and have outcomes of their own. *)
Record World : Type := {
  pdf_create : option Foreign;
  pdf_embedFont : StandardFonts -> Foreign + PDFFont;
  pdf_defaultPageSize : Q * Q;
  pdf_load : list N -> Foreign + PDFDocument;
  pdf_copyPages : PDFDocument -> list nat -> option Foreign;
  pdf_save : PDFDocument -> Foreign + list N;
  fs_access : JsString -> option Foreign;
  fs_readFile : JsString -> Foreign + list N;
  fs_mkdir : JsString -> option Foreign;
  fs_writeFile : JsString -> list N -> option Foreign;
  fs_accessWritten : JsString -> option Foreign;
  fs_readWritten : JsString -> Foreign + list N;
  path_join : list JsString -> JsString;
  path_basename : JsString -> JsString;
  process_cwd : JsString;
  toLocaleDateString_enUS : JsDate -> JsString;
  toLocaleDateString : JsDate -> JsString
}.

(** The pages [copyPages] returns when it succeeds: copies of the pages
    of the source at the given indices. *)
Definition pagesAt (source : PDFDocument) (indices : list nat) : list PDFPage :=
  flat_map (fun i => match nth_error source i with
                     | Some p => [p]
                     | None => []
                     end) indices.

(** ** pdf-generator.ts: the document *)

Definition generateApplicantInfo (w : World) (submission : UserSubmission)
    : JsString :=
  let info :=
    [ js "Name: " ++ firstName submission ++ [SP] ++ lastName submission;
      js "Email: " ++ email submission;
      js "Phone: " ++ orElse (phone submission) (js "Not provided");
      js "Application Date: "
        ++ toLocaleDateString_enUS w (createdAt submission);
      js "Status: " ++ status submission ] in
  join [LF] info.

Definition generateDocumentInfo (submission : UserSubmission) : JsString :=
  match uploadedFileName submission with
  | Some name =>
      if truthy name
      then js "Uploaded File: " ++ name ++ [LF]
             ++ js "File processed and attached to this PDF."
      else js "No document uploaded"
  | None => js "No document uploaded"
  end.

(** [copiedPages.forEach(copiedPage => context.doc.addPage(copiedPage))] *)
Definition addCopiedPages (copiedPages : list PDFPage) : GenM unit :=
  forEach copiedPages
    (fun copiedPage => modify (fun c => setDoc c (doc c ++ [copiedPage]))).

Definition embedUploadedPDF (w : World) (filePath : JsString) : GenM unit :=
  tryCatch
    (awaitVoid (fs_access w filePath) ;;;
     uploadedPdfBytes <- await (fs_readFile w filePath) ;;
     if (length uploadedPdfBytes =? 0)%nat
     then
       addSection (js "Attached Document")
         (js "Document file was empty and could not be processed.")
     else
       match pdf_load w uploadedPdfBytes with
       | inl loadError =>
           addSection (js "Attached Document")
             (js "Document " ++ [QUOTE] ++ path_basename w filePath ++ [QUOTE]
              ++ js " was uploaded but could not be processed. The file may be corrupted or encrypted.")
       | inr uploadedPdf =>
           let pageCount := length uploadedPdf in
           if (pageCount =? 0)%nat
           then
             addSection (js "Attached Document")
               (js "Document file contains no pages and could not be processed.")
           else
             tryCatch
               (let pageIndices := seq 0 pageCount in
                awaitVoid (pdf_copyPages w uploadedPdf pageIndices) ;;;
                let copiedPages := pagesAt uploadedPdf pageIndices in
                addSection (js "Attached Resume/Document")
                  (js "The following " ++ showNat pageCount
                   ++ js " page(s) contain the uploaded document:") ;;;
                addCopiedPages copiedPages)
               (fun copyError =>
                  addSection (js "Attached Document")
                    (js "Document " ++ [QUOTE] ++ path_basename w filePath
                     ++ [QUOTE]
                     ++ js " was uploaded but pages could not be copied. The file may have restrictions or be corrupted."))
       end)
    (fun error =>
       addSection (js "Attached Document")
         (js "Document was uploaded but could not be embedded in this PDF. Error: "
          ++ messageOr (js "Unknown error") error)).

(** ** Results of code that has no state of its own *)

Definition Result (A : Type) : Type := (Thrown + A)%type.

Definition andThen {A B} (r : Result A) (k : A -> Result B) : Result B :=
  match r with
  | inl e => inl e
  | inr a => k a
  end.

Definition awaited {A} (outcome : Foreign + A) : Result A :=
  match outcome with
  | inl e => inl (Lib e)
  | inr a => inr a
  end.

Definition awaitedVoid (outcome : option Foreign) : Result unit :=
  match outcome with
  | Some e => inl (Lib e)
  | None => inr tt
  end.

Notation "x <~ r ;; k" := (andThen r (fun x => k))
  (at level 61, r at next level, right associativity).

(** ** pdf-generator.ts: [generatePDF] *)

(** The document of [generatePDF], from [PDFDocument.create] to the
    embedding of the uploaded file. *)
Definition renderDocument (w : World) (submission : UserSubmission)
    : Result PDFDocument :=
  _ <~ awaitedVoid (pdf_create w) ;;
  let page := blankPage PDF_CONFIG.PAGE_WIDTH PDF_CONFIG.PAGE_HEIGHT in
  let pdfDoc := [page] in
  let pageWidth := width page in
  let pageHeight := height page in
  helveticaBold <~ awaited (pdf_embedFont w HelveticaBold) ;;
  helvetica <~ awaited (pdf_embedFont w Helvetica) ;;
  let context :=
    {| doc := pdfDoc; page := 0;
       bold := helveticaBold; regular := helvetica;
       currentY := pageHeight - PDF_CONFIG.MARGIN;
       pageWidth := pageWidth; pageHeight := pageHeight;
       margin := PDF_CONFIG.MARGIN |} in
  let content : GenM unit :=
    addTitle (js "Application Summary") ;;;
    addSection (js "Applicant Information")
      (generateApplicantInfo w submission) ;;;
    addSection (js "Current Job Description") (jobDescription submission) ;;;
    addSection (js "Uploaded Document") (generateDocumentInfo submission) ;;;
    match uploadedFilePath submission with
    | Some filePath =>
        if truthy filePath then embedUploadedPDF w filePath else ret tt
    | None => ret tt
    end in
  match content context with
  | (inl e, _) => inl e
  | (inr _, context') => inr (doc context')
  end.

(** The [try] block of [generatePDF]. *)
Definition tryGeneratePDF (w : World) (submission : UserSubmission)
    : Result JsString :=
  pdfDoc <~ renderDocument w submission ;;
  pdfBytes <~ awaited (pdf_save w pdfDoc) ;;
  if (length pdfBytes =? 0)%nat
  then inl (ApplicationError (js "Generated PDF is empty") 500)
  else
    let generatedDir :=
      path_join w [process_cwd w; js "uploads"; js "generated"] in
    _ <~ awaitedVoid (fs_mkdir w generatedDir) ;;
    let pdfFileName := js "application-" ++ id submission ++ js ".pdf" in
    let pdfPath := path_join w [generatedDir; pdfFileName] in
    _ <~ awaitedVoid (fs_writeFile w pdfPath pdfBytes) ;;
    let verification : Result unit :=
      _ <~ awaitedVoid (fs_accessWritten w pdfPath) ;;
      stats <~ awaited (fs_readWritten w pdfPath) ;;
      if (length stats =? 0)%nat
      then inl (ApplicationError (js "Saved PDF file is empty") 500)
      else inr tt in
    match verification with
    | inl verificationError =>
        inl (ApplicationError (js "PDF file verification failed") 500)
    | inr _ => inr pdfPath
    end.

Definition generatePDF (w : World) (submission : UserSubmission)
    : Result JsString :=
  match tryGeneratePDF w submission with
  | inr pdfPath => inr pdfPath
  | inl (ApplicationError message statusCode) =>
      inl (ApplicationError message statusCode)
  | inl (Lib (JsError message)) =>
      inl (ApplicationError (js "PDF generation failed: " ++ message) 500)
  | inl (Lib NonError) =>
      inl (ApplicationError ERROR_MESSAGES.PDF_GENERATION_FAILED 500)
  end.

(** ** simple-pdf-generator.ts: [generateSimplePDF] *)

(** [page.drawText] on a page held in a local variable. *)
Definition drawTextOn (pg : PDFPage) (text : JsString) (x y size : Q)
    (font : PDFFont) : Result PDFPage :=
  match encodingError font text with
  | Some msg => inl (Lib (JsError msg))
  | None =>
      inr {| width := width pg; height := height pg; imported := imported pg;
             drawn := drawn pg
                      ++ [{| opText := text; opX := x; opY := y;
                             opSize := size; opFont := fontName font |}] |}
  end.

(** The loop over [info]: the page and [yPosition] after it. *)
Fixpoint drawInfo (info : list JsString) (helvetica : PDFFont)
    (pg : PDFPage) (yPosition : Q) : Result (PDFPage * Q) :=
  match info with
  | [] => inr (pg, yPosition)
  | line :: rest =>
      pg' <~ drawTextOn pg line 50 yPosition 12 helvetica ;;
      drawInfo rest helvetica pg' (yPosition - 20)
  end.

Definition tryGenerateSimplePDF (w : World) (submission : UserSubmission)
    : Result JsString :=
  _ <~ awaitedVoid (pdf_create w) ;;
  let (width, height) := pdf_defaultPageSize w in
  let page := blankPage width height in
  helveticaBold <~ awaited (pdf_embedFont w HelveticaBold) ;;
  helvetica <~ awaited (pdf_embedFont w Helvetica) ;;
  page <~ drawTextOn page (js "Application Summary") 50 (height - 50) 24
            helveticaBold ;;
  let info :=
    [ js "Name: " ++ firstName submission ++ [SP] ++ lastName submission;
      js "Email: " ++ email submission;
      js "Phone: " ++ orElse (phone submission) (js "Not provided");
      js "Application Date: " ++ toLocaleDateString w (createdAt submission) ] in
  let yPosition := height - 100 in
  drawnInfo <~ drawInfo info helvetica page yPosition ;;
  let (page, yPosition) := (drawnInfo : PDFPage * Q) in
  let yPosition := yPosition - 20 in
  page <~ drawTextOn page (js "Job Description:") 50 yPosition 16
            helveticaBold ;;
  let yPosition := yPosition - 30 in
  page <~ drawTextOn page (jobDescription submission) 50 yPosition 12
            helvetica ;;
  pdfBytes <~ awaited (pdf_save w [page]) ;;
  if (length pdfBytes =? 0)%nat
  then inl (ApplicationError (js "Generated PDF is empty") 500)
  else
    let generatedDir :=
      path_join w [process_cwd w; js "uploads"; js "generated"] in
    _ <~ awaitedVoid (fs_mkdir w generatedDir) ;;
    let pdfFileName := js "application-" ++ id submission ++ js ".pdf" in
    let pdfPath := path_join w [generatedDir; pdfFileName] in
    _ <~ awaitedVoid (fs_writeFile w pdfPath pdfBytes) ;;
    inr pdfPath.

Definition generateSimplePDF (w : World) (submission : UserSubmission)
    : Result JsString :=
  match tryGenerateSimplePDF w submission with
  | inr pdfPath => inr pdfPath
  | inl (ApplicationError message statusCode) =>
      inl (ApplicationError message statusCode)
  | inl (Lib (JsError message)) =>
      inl (ApplicationError (js "Simple PDF generation failed: " ++ message) 500)
  | inl (Lib NonError) =>
      inl (ApplicationError (js "Simple PDF generation failed") 500)
  end.

(** ** The routes: requests, responses and the database *)

(** [a === b] on strings. *)
Fixpoint strEq (a b : JsString) : bool :=
  match a, b with
  | [], [] => true
  | x :: a', y :: b' => (x =? y)%N && strEq a' b'
  | _, _ => false
  end.

Record File : Type := {
  file_name : JsString;
  file_type : JsString;
  file_size : N;
  file_bytes : list N
}.

(** The fields [formData.get] finds in the request. *)
Record FormData : Type := {
  fd_firstName : option JsString;
  fd_lastName : option JsString;
  fd_email : option JsString;
  fd_phone : option JsString;
  fd_jobDescription : option JsString;
  fd_file : option File
}.

(** The object [formFields] handed to the schema. *)
Record FormFields : Type := {
  ff_firstName : option JsString;
  ff_lastName : option JsString;
  ff_email : option JsString;
  ff_phone : option JsString;
  ff_jobDescription : option JsString
}.

(** [ApplicationFormData], the output of the schema. *)
Record ApplicationFormData : Type := {
  af_firstName : JsString;
  af_lastName : JsString;
  af_email : JsString;
  af_phone : option JsString;
  af_jobDescription : JsString
}.

Record FileValidation : Type := {
  isValid : bool;
  error : option JsString
}.

Inductive ResponseBody : Type :=
| SubmitJson (success : bool) (submissionId pdfUrl error : option JsString)
| ErrorJson (error : JsString)
| Buffer (bytes : list N).

Record NextResponse : Type := {
  resStatus : Z;
  resHeaders : list (JsString * JsString);
  resBody : ResponseBody
}.

(** A write of the routes to the [userSubmission] table. *)
Inductive DbWrite : Type :=
| DbCreate (row : UserSubmission)
| DbUpdate (rowId : JsString) (newStatus : JsString)
           (newGeneratedPdfPath : option JsString).

(** The outcomes of the calls of the routes: the request, the schema and
    the helpers of file-utils, prisma, and the world of the generator. *)
Record RouteWorld : Type := {
  gen : World;
  req_formData : Foreign + FormData;
  schema_parse : FormFields -> Foreign + ApplicationFormData;
  validateFile : File -> FileValidation;
  file_arrayBuffer : File -> Foreign + list N;
  generateSafeFileName : JsString -> JsString;
  handleApiError : Thrown -> JsString * Z;
  db_create : Foreign + (JsString * JsDate);
  db_update : JsString -> option Foreign;
  db_findUnique : JsString -> Foreign + option UserSubmission;
  toUTCString : JsDate -> JsString
}.

(** ** api/submit/route.ts: [POST] *)

(** The [try] block of [POST], on the log of the writes to the table. *)
Definition tryPOST (w : RouteWorld) : M (list DbWrite) ResponseBody :=
  formData <- await (req_formData w) ;;
  let formFields :=
    {| ff_firstName := fd_firstName formData;
       ff_lastName := fd_lastName formData;
       ff_email := fd_email formData;
       ff_phone := fd_phone formData;
       ff_jobDescription := fd_jobDescription formData |} in
  validatedData <- await (schema_parse w formFields) ;;
  match fd_file formData with
  | None => throw (ApplicationError (js "No file uploaded") 400)
  | Some file =>
      let fileValidation := validateFile w file in
      if negb (isValid fileValidation)
      then throw (ApplicationError
                    (orElse (error fileValidation)
                       ERROR_MESSAGES.INVALID_FILE_TYPE) 400)
      else
        let uploadsDir := path_join (gen w) [process_cwd (gen w); js "uploads"] in
        awaitVoid (fs_mkdir (gen w) uploadsDir) ;;;
        buffer <- await (file_arrayBuffer w file) ;;
        let fileName := generateSafeFileName w (file_name file) in
        let filePath := path_join (gen w) [uploadsDir; fileName] in
        awaitVoid (fs_writeFile (gen w) filePath buffer) ;;;
        created <- await (db_create w) ;;
        let submission :=
          {| id := fst created;
             firstName := af_firstName validatedData;
             lastName := af_lastName validatedData;
             email := af_email validatedData;
             phone := af_phone validatedData;
             jobDescription := af_jobDescription validatedData;
             uploadedFilePath := Some filePath;
             uploadedFileName := Some (file_name file);
             generatedPdfPath := None;
             status := statusValue PROCESSING;
             createdAt := snd created;
             updatedAt := snd created |} in
        modify (fun log => log ++ [DbCreate submission]) ;;;
        match generatePDF (gen w) submission with
        | inl pdfError =>
            awaitVoid (db_update w (id submission)) ;;;
            modify (fun log =>
              log ++ [DbUpdate (id submission) (statusValue FAILED) None]) ;;;
            throw (ApplicationError
                     (js "PDF generation failed: "
                      ++ messageOr (js "Unknown error") pdfError) 500)
        | inr pdfPath =>
            awaitVoid (db_update w (id submission)) ;;;
            modify (fun log =>
              log ++ [DbUpdate (id submission) (statusValue COMPLETED)
                        (Some pdfPath)]) ;;;
            ret (SubmitJson true (Some (id submission))
                   (Some (js "/api/pdf/" ++ id submission)) None)
        end
  end.

Definition POST (w : RouteWorld) : list DbWrite -> NextResponse * list DbWrite :=
  fun log =>
    match tryPOST w log with
    | (inr body, log') =>
        ({| resStatus := 200; resHeaders := []; resBody := body |}, log')
    | (inl error, log') =>
        let (message, statusCode) := handleApiError w error in
        ({| resStatus := statusCode; resHeaders := [];
            resBody := SubmitJson false None None (Some message) |}, log')
    end.

(** ** api/pdf/[id]/route.ts: [GET] *)

(** [s.replace(/[^a-zA-Z0-9]/g, "_")] *)
Definition safeName (s : JsString) : JsString :=
  map (fun c =>
         if (((48 <=? c) && (c <=? 57)) || ((65 <=? c) && (c <=? 90))
             || ((97 <=? c) && (c <=? 122)))%N
         then c else 95%N) s.

(** The [try] block of [GET]. *)
Definition tryGET (w : RouteWorld) (id : JsString) : Result NextResponse :=
  if negb (truthy id) || (length id <? 10)%nat
  then inl (ApplicationError (js "Invalid submission ID") 400)
  else
    found <~ awaited (db_findUnique w id) ;;
    match found with
    | None => inl (ApplicationError (js "Submission not found") 404)
    | Some submission =>
        if strEq (status submission) (statusValue PROCESSING)
        then inl (ApplicationError
                    (js "PDF is still being generated. Please try again in a moment.")
                    202)
        else if strEq (status submission) (statusValue FAILED)
        then inl (ApplicationError
                    (js "PDF generation failed. Please contact support.") 500)
        else if negb (optTruthy (generatedPdfPath submission))
        then inl (ApplicationError (js "PDF not available") 404)
        else
          let pdfPath := orElse (generatedPdfPath submission) [] in
          match fs_access (gen w) pdfPath with
          | Some fileError =>
              inl (ApplicationError (js "PDF file not found on server") 404)
          | None =>
              pdfBuffer <~ awaited (fs_readFile (gen w) pdfPath) ;;
              if (length pdfBuffer =? 0)%nat
              then inl (ApplicationError (js "PDF file is empty") 500)
              else
                let safeFileName :=
                  js "application-" ++ safeName (firstName submission)
                  ++ js "-" ++ safeName (lastName submission) ++ js ".pdf" in
                inr {| resStatus := 200;
                       resHeaders :=
                         [ (js "Content-Type", js "application/pdf");
                           (js "Content-Disposition",
                            js "attachment; filename=" ++ [QUOTE]
                            ++ safeFileName ++ [QUOTE]);
                           (js "Content-Length", showNat (length pdfBuffer));
                           (js "Cache-Control", js "public, max-age=3600");
                           (js "Last-Modified",
                            toUTCString w (createdAt submission)) ];
                       resBody := Buffer pdfBuffer |}
          end
    end.

Definition GET (w : RouteWorld) (id : JsString) : NextResponse :=
  match tryGET w id with
  | inr response => response
  | inl error =>
      let (message, statusCode) := handleApiError w error in
      {| resStatus := statusCode; resHeaders := [];
         resBody := ErrorJson message |}
  end.

(** ** Predicates on thrown values *)

(** The result is not a thrown [ApplicationError]. *)
Definition notApplicationError {A : Type} (r : Result A) : Prop :=
  match r with
  | inl (ApplicationError _ _) => False
  | _ => True
  end.

(** Whatever [m] throws comes from a library. *)
Definition throwsOnlyLib {S A : Type} (m : M S A) : Prop :=
  forall s, notApplicationError (fst (m s)).

(** A thrown [ApplicationError] carries the status code 500. *)
Definition only500 {A : Type} (r : Result A) : Prop :=
  match r with
  | inl (ApplicationError _ statusCode) => statusCode = 500%Z
  | _ => True
  end.

(** The pages of the uploaded file when every step of the embedding
    succeeds: the file can be accessed and read, is not empty, loads as a
    PDF with at least one page, and its pages can be copied. *)
Definition uploadedPages (w : World) (filePath : JsString) : option PDFDocument :=
  match fs_access w filePath, fs_readFile w filePath with
  | None, inr bytes =>
      if (length bytes =? 0)%nat then None
      else
        match pdf_load w bytes with
        | inr uploadedPdf =>
            if (length uploadedPdf =? 0)%nat then None
            else
              match pdf_copyPages w uploadedPdf (seq 0 (length uploadedPdf)) with
              | None => Some uploadedPdf
              | Some _ => None
              end
        | inl _ => None
        end
  | _, _ => None
  end.

(** ** The status machine of the specification *)

(** pending -> processing -> completed | failed *)
Inductive transition : JsString -> JsString -> Prop :=
| transition_start :
    transition (statusValue PENDING) (statusValue PROCESSING)
| transition_completed :
    transition (statusValue PROCESSING) (statusValue COMPLETED)
| transition_failed :
    transition (statusValue PROCESSING) (statusValue FAILED).

(** Each status is followed by one the machine allows. *)
Fixpoint chained (history : list JsString) : Prop :=
  match history with
  | a :: rest =>
      match rest with
      | b :: _ => transition a b /\ chained rest
      | [] => True
      end
  | [] => True
  end.

(** A history of the statuses of a record: it starts in a status that is
    not final and follows the transitions. *)
Definition followsMachine (history : list JsString) : Prop :=
  match history with
  | [] => True
  | s :: _ => s = statusValue PENDING \/ s = statusValue PROCESSING
  end
  /\ chained history.

(** The status a write gives the record. *)
Definition writtenStatus (wr : DbWrite) : JsString :=
  match wr with
  | DbCreate row => status row
  | DbUpdate _ newStatus _ => newStatus
  end.

(** ** When the download route has a PDF to serve *)

(** The id passes the format check of [GET]. *)
Definition validId (id : JsString) : Prop :=
  truthy id = true /\ (10 <= length id)%nat.

(** The submission exists, its status is neither [processing] nor
    [failed], a generated PDF path is recorded, and the file at that path
    exists and holds [bytes], which is not empty. *)
Definition pdfRecorded (w : RouteWorld) (id : JsString) (bytes : list N) : Prop :=
  exists submission pdfPath,
    db_findUnique w id = inr (Some submission)
    /\ status submission <> statusValue PROCESSING
    /\ status submission <> statusValue FAILED
    /\ generatedPdfPath submission = Some pdfPath
    /\ truthy pdfPath = true
    /\ fs_access (gen w) pdfPath = None
    /\ fs_readFile (gen w) pdfPath = inr bytes
    /\ bytes <> [].

(** The response carries the PDF. *)
Definition servesPdf (response : NextResponse) (bytes : list N) : Prop :=
  resBody response = Buffer bytes
  /\ resStatus response = 200%Z
  /\ In (js "Content-Type", js "application/pdf") (resHeaders response).

(** The response is an error: a JSON body with a message, and a status
    code that is 202 or outside 200..299. *)
Definition isErrorResponse (response : NextResponse) : Prop :=
  (exists message, resBody response = ErrorJson message)
  /\ (resStatus response = 202%Z
      \/ ~ (200 <= resStatus response < 300)%Z).

(** What [GET] throws inside its [try]: an [ApplicationError] with one of
    the codes of the route, or an error of prisma or of the file system. *)
Definition routeError (e : Thrown) : Prop :=
  match e with
  | ApplicationError _ code =>
      code = 400%Z \/ code = 404%Z \/ code = 202%Z \/ code = 500%Z
  | Lib _ => True
  end.

(** ** Two calls of the renderer *)

(** The text content of a document, page by page: the content a page was
    copied with and the texts drawn on it. *)
Definition textContent (d : PDFDocument) : list (list N * list JsString) :=
  map (fun pg => (imported pg, map opText (drawn pg))) d.

(** Two worlds in which the renderer reads the same things for a
    submission: the same fonts, the same formatted date, and the same
    uploaded file, as far as the renderer gets with it: accessed with the
    same outcome; if it can be accessed, read with the same outcome; if it
    can be read, loaded with the same outcome; if it loads, copied with the
    same outcome. They may differ in everything else: what [save] returns,
    the directory, the writes. *)
Definition sameInputs (w1 w2 : World) (submission : UserSubmission) : Prop :=
  pdf_embedFont w1 HelveticaBold = pdf_embedFont w2 HelveticaBold
  /\ pdf_embedFont w1 Helvetica = pdf_embedFont w2 Helvetica
  /\ toLocaleDateString_enUS w1 (createdAt submission)
     = toLocaleDateString_enUS w2 (createdAt submission)
  /\ forall filePath,
       uploadedFilePath submission = Some filePath ->
       fs_access w1 filePath = fs_access w2 filePath
       /\ path_basename w1 filePath = path_basename w2 filePath
       /\ (fs_access w1 filePath = None ->
           fs_readFile w1 filePath = fs_readFile w2 filePath
           /\ forall bytes,
                fs_readFile w1 filePath = inr bytes ->
                pdf_load w1 bytes = pdf_load w2 bytes
                /\ forall uploadedPdf,
                     pdf_load w1 bytes = inr uploadedPdf ->
                     pdf_copyPages w1 uploadedPdf
                       (seq 0 (length uploadedPdf))
                     = pdf_copyPages w2 uploadedPdf
                         (seq 0 (length uploadedPdf))).

(** ** Relations on word lists used by the statements *)

(** [Subseq l1 l2]: [l1] is [l2] with some elements left out. *)
Inductive Subseq {A : Type} : list A -> list A -> Prop :=
| Subseq_nil : Subseq [] []
| Subseq_keep (x : A) (l1 l2 : list A) :
    Subseq l1 l2 -> Subseq (x :: l1) (x :: l2)
| Subseq_skip (x : A) (l1 l2 : list A) :
    Subseq l1 l2 -> Subseq l1 (x :: l2).

(** [Infix g l]: [g] is a block of adjacent elements of [l]. *)
Definition Infix {A : Type} (g l : list A) : Prop :=
  exists pre post, l = pre ++ g ++ post.

(** The width of a line is known and within [maxWidth]. *)
Definition fitsWidth (font : PDFFont) (maxWidth : Q) (line : JsString) : Prop :=
  exists w, widthOfTextAtSize font line PDF_CONFIG.TEXT_SIZE = Some w
            /\ w <= maxWidth.

(** A line is within the width, or it has no space in it: it is one
    word. *)
Definition fitsOrSingleWord (font : PDFFont) (maxWidth : Q) (line : JsString) : Prop :=
  fitsWidth font maxWidth line \/ ~ In SP line.

(** The font measures every string written with the code units of [s]
    and the space. *)
Definition measuresOver (font : PDFFont) (s : JsString) : Prop :=
  forall t, incl t (SP :: s) ->
    widthOfTextAtSize font t PDF_CONFIG.TEXT_SIZE <> None.

(** The lines of each paragraph joined with single spaces, and the
    paragraphs joined with line feeds. *)
Definition rejoin (font : PDFFont) (maxWidth : Q) (text : JsString) : JsString :=
  join [LF]
    (map (fun p => join [SP] (wrapParagraph font maxWidth p))
         (splitNewlines text)).

(** A paragraph that is empty, or that is not blank and whose words all
    keep a character when stripped: the words are separated by single
    spaces, with no space in front or at the end. *)
Definition plainParagraph (p : JsString) : bool :=
  match p with
  | [] => true
  | _ :: _ =>
      negb (isBlank p)
      && forallb (fun w => truthy (stripUnsupported w)) (split SP p)
  end.

(** All the blocks of adjacent elements of a list. *)
Fixpoint inits {A : Type} (l : list A) : list (list A) :=
  match l with
  | [] => [[]]
  | x :: r => [] :: map (cons x) (inits r)
  end.

Fixpoint tails {A : Type} (l : list A) : list (list A) :=
  match l with
  | [] => [[]]
  | _ :: r => l :: tails r
  end.

Definition infixes {A : Type} (l : list A) : list (list A) :=
  flat_map inits (tails l).

(** The invariant of the loop over the words of a paragraph: [gs] are
    the groups of words of the lines pushed so far, [g] the words of
    [currentLine], [done] the stripped words seen so far. *)
Definition WrapInv (font : PDFFont) (done : list JsString)
    (st : list JsString * JsString)
    (gs : list (list JsString)) (g : list JsString) : Prop :=
  fst st = map (join [SP]) gs
  /\ snd st = join [SP] g
  /\ (truthy (snd st) = false -> g = [])
  /\ Subseq (concat gs ++ g) done
  /\ (measuresOver font (concat done) ->
      Forall (fun g' => Infix g' done) gs /\ (exists pre, done = pre ++ g))
  /\ (measuresOver font (concat done) ->
      Forall (fun w => truthy w = true) done ->
      concat gs ++ g = done /\ Forall (fun g' => g' <> []) gs).

(** A carriage return directly before a line feed occurs in the text. *)
Fixpoint hasCRLF (s : JsString) : bool :=
  match s with
  | [] => false
  | c :: rest =>
      match rest with
      | d :: _ => ((c =? CR) && (d =? LF))%N || hasCRLF rest
      | [] => false
      end
  end.

(** ** What a section adds to the document *)

(** [context.page] is the last page of [context.doc]: the page that
    [addPage] returned last, as it is all along [generatePDF]. *)
Definition onLastPage (c : PDFGenerationContext) : Prop :=
  S (page c) = length (doc c).

(** The size and the copied content of each page of a document. *)
Definition framesOf (d : PDFDocument) : list (Q * Q * list N) :=
  map (fun pg => (width pg, height pg, imported pg)) d.

(** The texts of a document in reading order, page after page. *)
Definition textsOf (d : PDFDocument) : list JsString := map opText (allOps d).

(** [drawText] accepts the line in this font. *)
Definition drawable (font : PDFFont) (line : JsString) : bool :=
  match encodingError font line with
  | None => true
  | Some _ => false
  end.

(** The line is one a reader finds in the document: not blank, and
    accepted by [drawText]. *)
Definition drawnLine (font : PDFFont) (line : JsString) : bool :=
  negb (isBlank line) && drawable font line.

(** The texts of a section as a reader finds them: the sanitised heading,
    then the wrapped lines of the sanitised content that are drawn. *)
Definition sectionTexts (heading content : JsString)
    (c : PDFGenerationContext) : list JsString :=
  stripUnsupported heading
  :: filter (drawnLine (regular c)) (wrapText (stripUnsupported content) c).

(** [d'] is the document of [c] with [written] after the texts it had, in
    reading order, and with nothing but blank pages of the size of the
    context added behind its pages. *)
Definition sectionAdded (c : PDFGenerationContext) (written : list JsString)
    (d' : PDFDocument) : Prop :=
  (exists k,
      framesOf d'
      = framesOf (doc c) ++ repeat (pageWidth c, pageHeight c, []) k)
  /\ textsOf d' = textsOf (doc c) ++ written.

(** From [c] to [c'] the texts [written] were added, the layout kept, and
    the current page is the last one again. *)
Definition writes (written : list JsString) (c c' : PDFGenerationContext)
    : Prop :=
  sameLayout c c' /\ onLastPage c' /\ sectionAdded c written (doc c').

(** The context after the page check of [addHeading] and [addLine]. *)
Definition afterPageCheck (room : Q) (c : PDFGenerationContext)
    : PDFGenerationContext :=
  if Qltb (currentY c) (margin c + room) then snd (startNewPage c) else c.



(** The text with every carriage return and line feed pair written as a
    line feed alone. *)
Fixpoint unixNewlines (s : JsString) : JsString :=
  match s with
  | [] => []
  | c :: rest =>
      match rest with
      | d :: _ =>
          if ((c =? CR) && (d =? LF))%N then unixNewlines rest
          else c :: unixNewlines rest
      | [] => [c]
      end
  end.

(** ** A font to run the generator on *)

Module Sample.

(** Advance widths of the Helvetica glyphs for the code units 32 to 126,
    in thousandths of the font size. *)
Definition helveticaAdvances : list Z :=
  [278; 278; 355; 556; 556; 889; 667; 191; 333; 333; 389; 584; 278; 333;
   278; 278; 556; 556; 556; 556; 556; 556; 556; 556; 556; 556; 278; 278;
   584; 584; 584; 556; 1015; 667; 667; 722; 722; 667; 611; 778; 722; 278;
   500; 667; 556; 833; 722; 778; 667; 778; 722; 667; 611; 722; 667; 944;
   667; 667; 611; 278; 278; 278; 469; 556; 333; 556; 556; 500; 556; 556;
   278; 556; 556; 222; 222; 500; 222; 833; 556; 556; 556; 556; 333; 500;
   278; 556; 500; 722; 500; 500; 500; 334; 260; 334; 584]%Z.

Definition advance (c : CodeUnit) : option Z :=
  if ((32 <=? c) && (c <=? 126))%N
  then nth_error helveticaAdvances (N.to_nat (c - 32))
  else None.

Fixpoint totalAdvance (s : JsString) : option Z :=
  match s with
  | [] => Some 0%Z
  | c :: rest =>
      match advance c, totalAdvance rest with
      | Some a, Some b => Some (a + b)%Z
      | _, _ => None
      end
  end.

(** The code units [page.drawText] does not hand to the font: it replaces
    the tab, U+0085, U+2028 and U+2029 by spaces, removes the backspace and
    the vertical tab, and splits the text at line feeds, form feeds and
    carriage returns. *)
Definition drawTextCleans (c : CodeUnit) : bool :=
  (((8 <=? c) && (c <=? 13)) || (c =? 133) || (c =? 8232) || (c =? 8233))%N.

(** A font with the advance widths of Helvetica on printable ASCII and
    no kerning. Measuring rejects every other code unit, as the WinAnsi
    encoding rejects the tab; drawing rejects every other code unit that
    [drawText] hands to the font. The instances below use it for both
    faces (the generator never measures a text in the bold face) and on
    texts of printable ASCII, tabs, line breaks and code units that WinAnsi
    lacks. *)
Definition font (name : StandardFonts) : PDFFont :=
  {| fontName := name;
     widthOfTextAtSize := fun s size =>
       match totalAdvance s with
       | Some units => Some ((units # 1000) * size)
       | None => None
       end;
     encodingError := fun s =>
       match totalAdvance (filter (fun c => negb (drawTextCleans c)) s) with
       | Some _ => None
       | None => Some (js "WinAnsi cannot encode the text")
       end |}.

(** The context [generatePDF] starts from: one A4 page, the cursor at
    the top margin. *)
Definition context : PDFGenerationContext :=
  {| doc := [blankPage PDF_CONFIG.PAGE_WIDTH PDF_CONFIG.PAGE_HEIGHT];
     page := 0;
     bold := font HelveticaBold;
     regular := font Helvetica;
     currentY := PDF_CONFIG.PAGE_HEIGHT - PDF_CONFIG.MARGIN;
     pageWidth := PDF_CONFIG.PAGE_WIDTH;
     pageHeight := PDF_CONFIG.PAGE_HEIGHT;
     margin := PDF_CONFIG.MARGIN |}.

(** A context whose cursor is at 60, below [margin + 20]. *)
Definition lowContext : PDFGenerationContext :=
  {| doc := [blankPage PDF_CONFIG.PAGE_WIDTH PDF_CONFIG.PAGE_HEIGHT];
     page := 0;
     bold := font HelveticaBold;
     regular := font Helvetica;
     currentY := 60;
     pageWidth := PDF_CONFIG.PAGE_WIDTH;
     pageHeight := PDF_CONFIG.PAGE_HEIGHT;
     margin := PDF_CONFIG.MARGIN |}.

(** A word of sixty [m]. *)
Definition longWord : JsString := repeat 109%N 60.

(** Two paragraphs of plain words. *)
Definition plainText : JsString :=
  js "Name: Ada Lovelace" ++ [LF] ++ js "Email: ada@example.org".

(** The same two paragraphs as a browser submits them, the line break
    written as a carriage return and a line feed. *)
Definition browserText : JsString :=
  js "Name: Ada Lovelace" ++ [CR; LF] ++ js "Email: ada@example.org".

(** A line whose second word has a tab in it. *)
Definition tabbedText : JsString :=
  js "Languages: Rocq," ++ [TAB] ++ js "OCaml and Lean".

End Sample.

(** ** A world to run the generator in *)

Module SampleWorld.

Definition uploadPath : JsString := js "/srv/app/uploads/cv.pdf".

(** The two pages of the uploaded document. *)
Definition uploaded : PDFDocument :=
  [ {| width := 612; height := 792; imported := [1; 2; 3]%N; drawn := [] |};
    {| width := 612; height := 792; imported := [4; 5]%N; drawn := [] |} ].

(** Every call succeeds; the uploaded file is a PDF of two pages. *)
Definition world : World :=
  {| pdf_create := None;
     pdf_embedFont := fun name => inr (Sample.font name);
     pdf_defaultPageSize := (PDF_CONFIG.PAGE_WIDTH, PDF_CONFIG.PAGE_HEIGHT);
     pdf_load := fun _ => inr uploaded;
     pdf_copyPages := fun _ _ => None;
     pdf_save := fun d => inr [37; 80; 68; 70; 1]%N;
     fs_access := fun _ => None;
     fs_readFile := fun _ => inr [37; 80; 68; 70]%N;
     fs_mkdir := fun _ => None;
     fs_writeFile := fun _ _ => None;
     fs_accessWritten := fun _ => None;
     fs_readWritten := fun _ => inr [37; 80; 68; 70; 1]%N;
     path_join := join (js "/");
     path_basename := fun p => last (split 47%N p) [];
     process_cwd := js "/srv/app";
     toLocaleDateString_enUS := fun _ => js "November 2, 2026 at 09:30 AM";
     toLocaleDateString := fun _ => js "11/2/2026" |}.

(** The same world at a later time: the saved bytes differ. *)
Definition laterWorld : World :=
  {| pdf_create := None;
     pdf_embedFont := fun name => inr (Sample.font name);
     pdf_defaultPageSize := (PDF_CONFIG.PAGE_WIDTH, PDF_CONFIG.PAGE_HEIGHT);
     pdf_load := fun _ => inr uploaded;
     pdf_copyPages := fun _ _ => None;
     pdf_save := fun d => inr [37; 80; 68; 70; 2]%N;
     fs_access := fun _ => None;
     fs_readFile := fun _ => inr [37; 80; 68; 70]%N;
     fs_mkdir := fun _ => None;
     fs_writeFile := fun _ _ => None;
     fs_accessWritten := fun _ => None;
     fs_readWritten := fun _ => inr [37; 80; 68; 70; 2]%N;
     path_join := join (js "/");
     path_basename := fun p => last (split 47%N p) [];
     process_cwd := js "/srv/app";
     toLocaleDateString_enUS := fun _ => js "November 2, 2026 at 09:30 AM";
     toLocaleDateString := fun _ => js "11/2/2026" |}.

(** The same world once the uploaded file has been removed. *)
Definition fileRemoved : World :=
  {| pdf_create := None;
     pdf_embedFont := fun name => inr (Sample.font name);
     pdf_defaultPageSize := (PDF_CONFIG.PAGE_WIDTH, PDF_CONFIG.PAGE_HEIGHT);
     pdf_load := fun _ => inr uploaded;
     pdf_copyPages := fun _ _ => None;
     pdf_save := fun d => inr [37; 80; 68; 70; 1]%N;
     fs_access := fun _ =>
       Some (JsError (js "ENOENT: no such file or directory"));
     fs_readFile := fun _ =>
       inl (JsError (js "ENOENT: no such file or directory"));
     fs_mkdir := fun _ => None;
     fs_writeFile := fun _ _ => None;
     fs_accessWritten := fun _ => None;
     fs_readWritten := fun _ => inr [37; 80; 68; 70; 1]%N;
     path_join := join (js "/");
     path_basename := fun p => last (split 47%N p) [];
     process_cwd := js "/srv/app";
     toLocaleDateString_enUS := fun _ => js "November 2, 2026 at 09:30 AM";
     toLocaleDateString := fun _ => js "11/2/2026" |}.

(** The same world, but [save] rejects. *)
Definition saveFails : World :=
  {| pdf_create := None;
     pdf_embedFont := fun name => inr (Sample.font name);
     pdf_defaultPageSize := (PDF_CONFIG.PAGE_WIDTH, PDF_CONFIG.PAGE_HEIGHT);
     pdf_load := fun _ => inr uploaded;
     pdf_copyPages := fun _ _ => None;
     pdf_save := fun d => inl (JsError (js "out of memory"));
     fs_access := fun _ => None;
     fs_readFile := fun _ => inr [37; 80; 68; 70]%N;
     fs_mkdir := fun _ => None;
     fs_writeFile := fun _ _ => None;
     fs_accessWritten := fun _ => None;
     fs_readWritten := fun _ => inr [37; 80; 68; 70; 1]%N;
     path_join := join (js "/");
     path_basename := fun p => last (split 47%N p) [];
     process_cwd := js "/srv/app";
     toLocaleDateString_enUS := fun _ => js "November 2, 2026 at 09:30 AM";
     toLocaleDateString := fun _ => js "11/2/2026" |}.

Definition submission : UserSubmission :=
  {| id := js "cmgh2k9x40000abcd";
     firstName := js "Ada";
     lastName := js "Lovelace";
     email := js "ada@example.org";
     phone := None;
     jobDescription := js "Writes programs for the analytical engine.";
     uploadedFilePath := Some uploadPath;
     uploadedFileName := Some (js "cv.pdf");
     generatedPdfPath := None;
     status := statusValue PROCESSING;
     createdAt := 1793525400000%N;
     updatedAt := 1793525400000%N |}.

End SampleWorld.

(** ** A world to run the routes in *)

Module SampleRoutes.

Definition pdfPath : JsString :=
  js "/srv/app/uploads/generated/application.pdf".

(** A completed submission whose id has three characters. *)
Definition shortIdSubmission : UserSubmission :=
  {| id := js "abc";
     firstName := js "Ada";
     lastName := js "Lovelace";
     email := js "ada@example.org";
     phone := None;
     jobDescription := js "Writes programs for the analytical engine.";
     uploadedFilePath := Some SampleWorld.uploadPath;
     uploadedFileName := Some (js "cv.pdf");
     generatedPdfPath := Some pdfPath;
     status := statusValue COMPLETED;
     createdAt := 1793525400000%N;
     updatedAt := 1793525400000%N |}.

(** A completed submission with an id of seventeen characters. *)
Definition completedSubmission : UserSubmission :=
  {| id := js "cmgh2k9x40000abcd";
     firstName := js "Ada";
     lastName := js "Lovelace";
     email := js "ada@example.org";
     phone := None;
     jobDescription := js "Writes programs for the analytical engine.";
     uploadedFilePath := Some SampleWorld.uploadPath;
     uploadedFileName := Some (js "cv.pdf");
     generatedPdfPath := Some pdfPath;
     status := statusValue COMPLETED;
     createdAt := 1793525400000%N;
     updatedAt := 1793525400000%N |}.

(** The table holds the two submissions; [handleApiError] hands back the
    message and code of an [ApplicationError] and answers 500 to anything
    else. *)
Definition world : RouteWorld :=
  {| gen := SampleWorld.world;
     req_formData :=
       inr {| fd_firstName := Some (js "Ada");
              fd_lastName := Some (js "Lovelace");
              fd_email := Some (js "ada@example.org");
              fd_phone := None;
              fd_jobDescription :=
                Some (js "Writes programs for the analytical engine.");
              fd_file :=
                Some {| file_name := js "cv.pdf";
                        file_type := js "application/pdf";
                        file_size := 4%N;
                        file_bytes := [37; 80; 68; 70]%N |} |};
     schema_parse := fun fields =>
       inr {| af_firstName := orElse (ff_firstName fields) [];
              af_lastName := orElse (ff_lastName fields) [];
              af_email := orElse (ff_email fields) [];
              af_phone := ff_phone fields;
              af_jobDescription := orElse (ff_jobDescription fields) [] |};
     validateFile := fun _ => {| isValid := true; error := None |};
     file_arrayBuffer := fun file => inr (file_bytes file);
     generateSafeFileName := fun name => js "1793525400000-" ++ name;
     handleApiError := fun e =>
       match e with
       | ApplicationError message statusCode => (message, statusCode)
       | Lib _ => (js "Internal server error", 500%Z)
       end;
     db_create := inr (js "cmgh2k9x40000abcd", 1793525400000%N);
     db_update := fun _ => None;
     db_findUnique := fun id =>
       if strEq id (js "abc") then inr (Some shortIdSubmission)
       else if strEq id (js "cmgh2k9x40000abcd")
            then inr (Some completedSubmission)
            else inr None;
     toUTCString := fun _ => js "Mon, 02 Nov 2026 09:30:00 GMT" |}.

End SampleRoutes.

(** ** How the document grows *)

(** [p'] is [p] with more texts drawn on it. *)
Definition pageExtends (p p' : PDFPage) : Prop :=
  width p' = width p /\ height p' = height p /\ imported p' = imported p
  /\ exists more, drawn p' = drawn p ++ more.

(** [d'] has the pages of [d], in the same places, each with the texts
    it had and possibly more after them, and possibly more pages at the
    end. *)
Fixpoint docExtends (d d' : PDFDocument) : Prop :=
  match d, d' with
  | [], _ => True
  | p :: ps, p' :: ps' => pageExtends p p' /\ docExtends ps ps'
  | _ :: _, [] => False
  end.

(** [context.page] is a page of [context.doc]. *)
Definition pageInDoc (c : PDFGenerationContext) : Prop :=
  (page c < length (doc c))%nat.

(** Whether it returns or throws, [m] leaves a document that extends the
    one it started with, and a current page that is in the document. *)
Definition appendsOnly {A : Type} (m : GenM A) : Prop :=
  forall c,
    docExtends (doc c) (doc (snd (m c)))
    /\ (pageInDoc c -> pageInDoc (snd (m c))).

(** ** The shape of a wrapped line *)

(** The line is not empty and does not begin with a space. *)
Definition startsWithWord (line : JsString) : Prop :=
  exists u rest, line = u :: rest /\ u <> SP.

(** The number of lines the loop over the words holds: the lines pushed
    and [currentLine] when it is not empty. *)
Definition heldLines (st : list JsString * JsString) : nat :=
  length (fst st) + (if truthy (snd st) then 1 else 0).

(** [R] holds between every element of the list and the next one. *)
Fixpoint eachNext {A : Type} (R : A -> A -> Prop) (l : list A) : Prop :=
  match l with
  | a :: rest =>
      match rest with
      | b :: _ => R a b /\ eachNext R rest
      | [] => True
      end
  | [] => True
  end.

(** [w] is the first word of the line: not empty, without a space, and
    followed in the line by a space or by nothing. *)
Definition firstWordOf (line w : JsString) : Prop :=
  ~ In SP w /\ w <> []
  /\ (line = w \/ exists rest, line = w ++ SP :: rest).

(** The first word of [next] measured too wide at the end of [line]. *)
Definition didNotFit (font : PDFFont) (maxWidth : Q) (line next : JsString)
    : Prop :=
  exists w textWidth,
    firstWordOf next w
    /\ widthOfTextAtSize font (line ++ [SP] ++ w) PDF_CONFIG.TEXT_SIZE
       = Some textWidth
    /\ maxWidth < textWidth.

(** A narrow page: the text area is 50 points wide. *)
Definition narrowContext : PDFGenerationContext :=
  {| doc := []; page := 0;
     bold := Sample.font HelveticaBold; regular := Sample.font Helvetica;
     currentY := 700; pageWidth := 150; pageHeight := 800; margin := 50 |}.

(** ** What a section draws *)

(** The cursor is at or below the top margin. *)
Definition belowTop (c : PDFGenerationContext) : Prop :=
  currentY c <= pageHeight c - margin c.

(** The heading of a section as [addSection] draws it. *)
Definition headingOp (heading : JsString) (c : PDFGenerationContext)
    (op : DrawTextOp) : Prop :=
  opText op = stripUnsupported heading
  /\ opX op = margin c
  /\ opSize op = PDF_CONFIG.HEADING_SIZE
  /\ opFont op = fontName (bold c)
  /\ opY op <= pageHeight c - margin c.

(** A line of a section as [addSection] draws it. *)
Definition lineOp (c : PDFGenerationContext) (op : DrawTextOp) : Prop :=
  opX op = margin c
  /\ opSize op = PDF_CONFIG.TEXT_SIZE
  /\ opFont op = fontName (regular c)
  /\ opY op <= pageHeight c - margin c
  /\ isBlank (opText op) = false
  /\ forall u, In u (opText op) -> u <> LF /\ isStripped u = false.

(** Started at or below the top margin, [m] ends there, keeps the layout,
    and every text it draws satisfies [P]. *)
Definition drawsLike {A : Type}
    (P : PDFGenerationContext -> DrawTextOp -> Prop) (m : GenM A) : Prop :=
  forall c, belowTop c ->
    belowTop (snd (m c))
    /\ sameLayout c (snd (m c))
    /\ forall op, In op (allOps (doc (snd (m c)))) ->
         In op (allOps (doc c)) \/ P c op.

(** [P] depends on the layout of the context only. *)
Definition layoutOnly (P : PDFGenerationContext -> DrawTextOp -> Prop) : Prop :=
  forall c c' op, sameLayout c c' -> P c' op -> P c op.

(** ** The document [generatePDF] renders *)

(** [m] leaves the fonts, the page size and the margin as they were. *)
Definition keepsLayout {A : Type} (m : GenM A) : Prop :=
  forall c, sameLayout c (snd (m c)).

(** The title as [addTitle] draws it on the first page. *)
Definition titleOp (helveticaBold : PDFFont) : DrawTextOp :=
  {| opText := js "Application Summary";
     opX := PDF_CONFIG.MARGIN;
     opY := PDF_CONFIG.PAGE_HEIGHT - PDF_CONFIG.MARGIN;
     opSize := PDF_CONFIG.TITLE_SIZE;
     opFont := fontName helveticaBold |}.

(** The context [generatePDF] builds once the fonts are embedded. *)
Definition initialContext (helveticaBold helvetica : PDFFont)
    : PDFGenerationContext :=
  {| doc := [blankPage PDF_CONFIG.PAGE_WIDTH PDF_CONFIG.PAGE_HEIGHT];
     page := 0;
     bold := helveticaBold; regular := helvetica;
     currentY := PDF_CONFIG.PAGE_HEIGHT - PDF_CONFIG.MARGIN;
     pageWidth := PDF_CONFIG.PAGE_WIDTH;
     pageHeight := PDF_CONFIG.PAGE_HEIGHT;
     margin := PDF_CONFIG.MARGIN |}.

(** The sections [generatePDF] adds after the title. *)
Definition renderSections (w : World) (submission : UserSubmission)
    : GenM unit :=
  addSection (js "Applicant Information")
    (generateApplicantInfo w submission) ;;;
  addSection (js "Current Job Description") (jobDescription submission) ;;;
  addSection (js "Uploaded Document") (generateDocumentInfo submission) ;;;
  match uploadedFilePath submission with
  | Some filePath =>
      if truthy filePath then embedUploadedPDF w filePath else ret tt
  | None => ret tt
  end.

(** The bold font encodes the title and the headings that [generatePDF]
    writes itself. *)
Definition encodesHeadings (helveticaBold : PDFFont) : Prop :=
  Forall (fun text => encodingError helveticaBold (js text) = None)
    [ "Application Summary"%string; "Applicant Information"%string;
      "Current Job Description"%string; "Uploaded Document"%string;
      "Attached Document"%string; "Attached Resume/Document"%string ].

(** ** A submission the simple generator cannot draw *)

(** The job description holds two Chinese characters, U+4E2D and U+6587,
    which WinAnsi lacks. *)
Definition chineseSubmission : UserSubmission :=
  {| id := js "cmgh2k9x40000abcd";
     firstName := js "Ada";
     lastName := js "Lovelace";
     email := js "ada@example.org";
     phone := None;
     jobDescription := js "Speaks " ++ [20013; 25991]%N ++ js " and English.";
     uploadedFilePath := None;
     uploadedFileName := None;
     generatedPdfPath := None;
     status := statusValue PROCESSING;
     createdAt := 1793525400000%N;
     updatedAt := 1793525400000%N |}.

(** ** Responses and headers of the routes *)

(** The JSON error response of [POST] for what [handleApiError] returns. *)
Definition submitError (handled : JsString * Z) : NextResponse :=
  {| resStatus := snd handled; resHeaders := [];
     resBody := SubmitJson false None None (Some (fst handled)) |}.

(** The JSON error response of [GET] with a message and a status. *)
Definition downloadError (message : JsString) (statusCode : Z) : NextResponse :=
  {| resStatus := statusCode; resHeaders := [];
     resBody := ErrorJson message |}.

(** A letter, a digit, an underscore, a hyphen or a dot. *)
Definition fileNameUnit (u : CodeUnit) : bool :=
  (((48 <=? u) && (u <=? 57)) || ((65 <=? u) && (u <=? 90))
   || ((97 <=? u) && (u <=? 122)) || (u =? 95) || (u =? 45) || (u =? 46))%N.

(** The value of a header of the response, if it has one. *)
Fixpoint header (name : JsString) (headers : list (JsString * JsString))
    : option JsString :=
  match headers with
  | [] => None
  | (n, v) :: rest => if strEq n name then Some v else header name rest
  end.

(** A field that holds neither a line feed nor a carriage return. *)
Definition oneLine (s : JsString) : Prop := ~ In LF s /\ ~ In CR s.

(** A submission that gives a phone number. *)
Definition phonedSubmission : UserSubmission :=
  {| id := js "cmgh2k9x40000abcd";
     firstName := js "Ada";
     lastName := js "Lovelace";
     email := js "ada@example.org";
     phone := Some (js "+44 20 7946 0000");
     jobDescription := js "Writes programs for the analytical engine.";
     uploadedFilePath := Some SampleWorld.uploadPath;
     uploadedFileName := Some (js "cv.pdf");
     generatedPdfPath := None;
     status := statusValue PROCESSING;
     createdAt := 1793525400000%N;
     updatedAt := 1793525400000%N |}.

(** The record the sample request creates, and the writes after it. *)
Definition sampleWrites : list DbWrite := snd (POST SampleRoutes.world []).

Definition sampleRow : UserSubmission :=
  match sampleWrites with
  | DbCreate row :: _ => row
  | _ => SampleWorld.submission
  end.

(* ------------------------------------------------------------------ *)
(** * Properties *)


(** ** Numbers *)

Lemma Qgtb_false_le (a b : Q) : Qgtb a b = false -> a <= b.
Proof.
  unfold Qgtb. intros H. apply negb_false_iff in H. now apply Qle_bool_iff.
Qed.

Lemma Qltb_false_le (a b : Q) : Qltb a b = false -> b <= a.
Proof. exact (Qgtb_false_le b a). Qed.

(** ** Splitting and joining *)

Lemma split_not_nil (sep : CodeUnit) (s : JsString) : split sep s <> [].
Proof.
  destruct s as [|c rest]; simpl; [discriminate|].
  destruct (c =? sep)%N; [discriminate|].
  destruct (split sep rest); discriminate.
Qed.

Lemma split_no_sep (sep : CodeUnit) (s : JsString) :
  Forall (fun w => ~ In sep w) (split sep s).
Proof.
  induction s as [|c rest IH]; simpl.
  - constructor; [intros []|constructor].
  - destruct (c =? sep)%N eqn:E.
    + constructor; [intros []|exact IH].
    + apply N.eqb_neq in E.
      destruct (split sep rest) as [|h t]; simpl.
      * constructor; [|constructor]. intros [H|[]]; congruence.
      * inversion IH; subst. constructor; [|assumption].
        intros [H|H]; [congruence|contradiction].
Qed.

Lemma stripUnsupported_In (c : CodeUnit) (s : JsString) :
  In c (stripUnsupported s) -> In c s.
Proof. unfold stripUnsupported. intros H. now apply filter_In in H. Qed.

(** ** Line widths *)

Section WrapWidth.

Variables (font : PDFFont) (maxWidth : Q).

Lemma wrapWord_width (lines : list JsString) (currentLine word : JsString) :
  Forall (fitsOrSingleWord font maxWidth) lines ->
  fitsOrSingleWord font maxWidth currentLine ->
  ~ In SP word ->
  Forall (fitsOrSingleWord font maxWidth)
         (fst (wrapWord font maxWidth (lines, currentLine) word))
  /\ fitsOrSingleWord font maxWidth
       (snd (wrapWord font maxWidth (lines, currentLine) word)).
Proof.
  intros Hl Hc Hw.
  assert (Hcw : ~ In SP (stripUnsupported word))
    by (intros H; apply Hw; eapply stripUnsupported_In; eassumption).
  unfold wrapWord.
  destruct (widthOfTextAtSize font _ _) as [textWidth|] eqn:Ew; simpl.
  2: now split.
  destruct (Qgtb textWidth maxWidth) eqn:Eg; simpl.
  - destruct (truthy currentLine) eqn:Et; simpl.
    + split; [|now right].
      apply Forall_app. split; [assumption|]. now constructor.
    + split; [assumption|]. now right.
  - split; [assumption|]. left. exists textWidth. split; [assumption|].
    now apply Qgtb_false_le.
Qed.

Lemma wrapWords_width (words : list JsString) :
  forall st,
    Forall (fun w => ~ In SP w) words ->
    Forall (fitsOrSingleWord font maxWidth) (fst st) ->
    fitsOrSingleWord font maxWidth (snd st) ->
    Forall (fitsOrSingleWord font maxWidth)
           (fst (fold_left (wrapWord font maxWidth) words st))
    /\ fitsOrSingleWord font maxWidth
         (snd (fold_left (wrapWord font maxWidth) words st)).
Proof.
  induction words as [|w ws IH]; intros [lines cur] Hws Hl Hc; simpl in *.
  - now split.
  - inversion Hws; subst.
    destruct (wrapWord_width w Hl Hc) as [Hl' Hc']; [assumption|].
    apply IH; assumption.
Qed.

Lemma wrapParagraph_width (paragraph : JsString) :
  Forall (fitsOrSingleWord font maxWidth) (wrapParagraph font maxWidth paragraph).
Proof.
  unfold wrapParagraph. destruct (isBlank paragraph).
  - constructor; [|constructor]. right. intros [].
  - destruct (@wrapWords_width (split SP paragraph) ([], [])) as [Hl Hc].
    + apply split_no_sep.
    + constructor.
    + right. intros [].
    + destruct (fold_left _ _ _) as [lines cur]; simpl in *.
      destruct (truthy cur); [|assumption].
      apply Forall_app. split; [assumption|]. now constructor.
Qed.

End WrapWidth.

(** C1, as amended. Every line returned by [wrapText] either has a
    rendered width, measured by [widthOfTextAtSize] with the regular font at
    [TEXT_SIZE], that does not exceed [maxWidth = pageWidth - 2 * margin],
    or contains no space: it is a single word, which is kept whole even
    when it is wider than the page. *)
Theorem wrapText_line_fits_or_single_word
    (text : JsString) (context : PDFGenerationContext) (line : JsString) :
  In line (wrapText text context) ->
  fitsOrSingleWord (regular context)
    (pageWidth context - 2 * margin context) line.
Proof.
  unfold wrapText. intros H. apply in_flat_map in H.
  destruct H as [p [_ Hp]].
  pose proof (wrapParagraph_width (regular context)
                (pageWidth context - 2 * margin context) p) as HF.
  rewrite Forall_forall in HF. now apply HF.
Qed.

Lemma wrapText_line_fits_or_single_word_witness :
  fitsOrSingleWord (regular Sample.context)
    (pageWidth Sample.context - 2 * margin Sample.context)
    (js "Senior engineer").
Proof.
  apply (@wrapText_line_fits_or_single_word
           (js "Senior engineer") Sample.context).
  vm_compute. left. reflexivity.
Defined.

Lemma split_without_sep (sep : CodeUnit) (s : JsString) :
  ~ In sep s -> split sep s = [s].
Proof.
  induction s as [|c rest IH]; intros H; [reflexivity|]. simpl.
  destruct (c =? sep)%N eqn:E.
  - apply N.eqb_eq in E. exfalso. apply H. now left.
  - rewrite IH; [reflexivity|]. intros Hin. apply H. now right.
Qed.

Lemma splitNewlines_without_LF (s : JsString) :
  ~ In LF s -> splitNewlines s = [s].
Proof.
  induction s as [|c rest IH]; intros H; [reflexivity|]. simpl.
  destruct (c =? LF)%N eqn:E.
  - apply N.eqb_eq in E. exfalso. apply H. now left.
  - destruct rest as [|d rest']; [reflexivity|].
    destruct (d =? LF)%N eqn:Ed.
    + apply N.eqb_eq in Ed. exfalso. apply H. right. now left.
    + rewrite andb_false_r. rewrite IH; [reflexivity|].
      intros Hin. apply H. now right.
Qed.

(** With any font: a text that is one word comes back as one line, that
    word, whatever its width. *)
Lemma wrapText_keeps_single_word
    (context : PDFGenerationContext) (word : JsString) (w : Q) :
  ~ In SP word -> ~ In LF word -> isBlank word = false ->
  truthy (stripUnsupported word) = true ->
  widthOfTextAtSize (regular context) (stripUnsupported word)
    PDF_CONFIG.TEXT_SIZE = Some w ->
  wrapText word context = [stripUnsupported word].
Proof.
  intros Hsp Hlf Hb Ht Hw. unfold wrapText.
  rewrite splitNewlines_without_LF by assumption. simpl.
  unfold wrapParagraph. rewrite Hb, split_without_sep by assumption.
  simpl. rewrite Hw, andb_false_r, Ht. reflexivity.
Qed.

(** C1 as stated fails: a word wider than the text area comes back as a
    line of its own, wider than [maxWidth]. *)
Lemma wrapText_overlong_line :
  ~ (forall line, In line (wrapText Sample.longWord Sample.context) ->
       fitsWidth (regular Sample.context)
         (pageWidth Sample.context - 2 * margin Sample.context) line).
Proof.
  intros H. destruct (H Sample.longWord) as [w [Hw Hle]].
  - vm_compute. left. reflexivity.
  - vm_compute in Hw. injection Hw as <-. vm_compute in Hle. now apply Hle.
Qed.

(** ** Word lists *)

Lemma Subseq_nil_l {A : Type} (l : list A) : Subseq [] l.
Proof. induction l; constructor; assumption. Qed.

Lemma Subseq_refl {A : Type} (l : list A) : Subseq l l.
Proof. induction l; constructor; assumption. Qed.

Lemma Subseq_app {A : Type} (a b c d : list A) :
  Subseq a b -> Subseq c d -> Subseq (a ++ c) (b ++ d).
Proof.
  intros Hab Hcd. induction Hab; simpl; try constructor; assumption.
Qed.

Lemma Subseq_snoc_skip {A : Type} (l d : list A) (x : A) :
  Subseq l d -> Subseq l (d ++ [x]).
Proof.
  intros H. rewrite <- (app_nil_r l).
  apply Subseq_app; [assumption|apply Subseq_nil_l].
Qed.

Lemma Subseq_snoc_keep {A : Type} (l d : list A) (x : A) :
  Subseq l d -> Subseq (l ++ [x]) (d ++ [x]).
Proof. intros H. apply Subseq_app; [assumption|apply Subseq_refl]. Qed.

Lemma Subseq_incl_concat {A : Type} (l1 l2 : list (list A)) :
  Subseq l1 l2 -> incl (concat l1) (concat l2).
Proof.
  induction 1; simpl.
  - apply incl_refl.
  - apply incl_app; [apply incl_appl, incl_refl|now apply incl_appr].
  - now apply incl_appr.
Qed.

Lemma Subseq_not_nil {A : Type} (l d : list A) :
  Subseq l d -> l <> [] -> d <> [].
Proof. intros H Hl. destruct H; congruence. Qed.

Lemma Infix_snoc {A : Type} (g d : list A) (x : A) :
  Infix g d -> Infix g (d ++ [x]).
Proof.
  intros [pre [post ->]]. exists pre, (post ++ [x]).
  now rewrite <- !app_assoc.
Qed.

Lemma Infix_suffix {A : Type} (pre g : list A) : Infix g (pre ++ g).
Proof. exists pre, []. now rewrite app_nil_r. Qed.

Lemma inits_In {A : Type} (g post : list A) : In g (inits (g ++ post)).
Proof.
  induction g as [|x g IH]; simpl.
  - destruct post; simpl; now left.
  - right. now apply in_map.
Qed.

Lemma tails_In {A : Type} (pre l : list A) : In l (tails (pre ++ l)).
Proof.
  induction pre as [|x pre IH]; simpl.
  - destruct l; simpl; now left.
  - now right.
Qed.

Lemma Infix_infixes {A : Type} (g l : list A) : Infix g l -> In g (infixes l).
Proof.
  intros [pre [post ->]]. unfold infixes. apply in_flat_map.
  exists (g ++ post). split; [apply tails_In|apply inits_In].
Qed.

Lemma join_snoc (sep : JsString) (g : list JsString) (w : JsString) :
  g <> [] -> join sep (g ++ [w]) = join sep g ++ sep ++ w.
Proof.
  induction g as [|a g IH]; intros Hg; [congruence|].
  destruct g as [|b g]; [reflexivity|].
  change (a ++ sep ++ join sep ((b :: g) ++ [w])
          = (a ++ sep ++ join sep (b :: g)) ++ sep ++ w).
  rewrite IH by discriminate. now rewrite <- !app_assoc.
Qed.

Lemma join_cons (sep : JsString) (a : JsString) (g : list JsString) :
  g <> [] -> join sep (a :: g) = a ++ sep ++ join sep g.
Proof. destruct g; [congruence|reflexivity]. Qed.

Lemma join_incl (g : list JsString) : incl (join [SP] g) (SP :: concat g).
Proof.
  induction g as [|a g IH]; [intros c []|].
  destruct g as [|b g].
  - simpl. rewrite app_nil_r. now apply incl_tl, incl_refl.
  - rewrite join_cons by discriminate. intros c Hc.
    apply in_app_or in Hc. destruct Hc as [Hc|Hc].
    + right. simpl. apply in_or_app. now left.
    + apply in_app_or in Hc. destruct Hc as [[<-|[]]|Hc]; [now left|].
      apply IH in Hc. destruct Hc as [<-|Hc]; [now left|].
      right. change (In c (a ++ concat (b :: g))). apply in_or_app. now right.
Qed.

Lemma truthy_join (sep : JsString) (g : list JsString) :
  truthy (join sep g) = true -> g <> [].
Proof. destruct g; [discriminate|discriminate]. Qed.

Lemma truthy_false (s : JsString) : truthy s = false -> s = [].
Proof. destruct s; [reflexivity|discriminate]. Qed.

Lemma truthy_true (s : JsString) : truthy s = true -> s <> [].
Proof. destruct s; [discriminate|discriminate]. Qed.

(** ** The lines of a paragraph as groups of its words *)

Section WrapGroups.

Variables (font : PDFFont) (maxWidth : Q).

Lemma measuresOver_mono (s1 s2 : JsString) :
  incl s1 s2 -> measuresOver font s2 -> measuresOver font s1.
Proof.
  intros Hi Hm t Ht. apply Hm. intros c Hc. apply Ht in Hc.
  destruct Hc as [<-|Hc]; [now left|right; now apply Hi].
Qed.

Lemma concat_snoc_incl (done : list JsString) (w : JsString) :
  incl (concat done) (concat (done ++ [w])).
Proof. rewrite concat_app. apply incl_appl, incl_refl. Qed.

Lemma WrapInv_init : WrapInv font [] ([], []) [] [].
Proof.
  repeat split; simpl; auto; try constructor.
  exists []. reflexivity.
Qed.

(** The words of [currentLine] once it is replaced by a word. *)
Let single (cw : JsString) : list JsString :=
  if truthy cw then [cw] else [].

Lemma join_single (cw : JsString) : join [SP] (single cw) = cw.
Proof.
  unfold single. destruct cw; reflexivity.
Qed.

Lemma single_falsy (cw : JsString) : truthy cw = false -> single cw = [].
Proof. unfold single. now intros ->. Qed.

Lemma single_truthy (cw : JsString) : truthy cw = true -> single cw = [cw].
Proof. unfold single. now intros ->. Qed.

Lemma single_Subseq (l done : list JsString) (cw : JsString) :
  Subseq l done -> Subseq (l ++ single cw) (done ++ [cw]).
Proof.
  intros H. unfold single. destruct (truthy cw).
  - now apply Subseq_snoc_keep.
  - rewrite app_nil_r. now apply Subseq_snoc_skip.
Qed.

Lemma single_suffix (done : list JsString) (cw : JsString) :
  exists pre, done ++ [cw] = pre ++ single cw.
Proof.
  unfold single. destruct (truthy cw).
  - now exists done.
  - exists (done ++ [cw]). now rewrite app_nil_r.
Qed.

Lemma wrapWord_inv (done : list JsString) (st : list JsString * JsString)
    (gs : list (list JsString)) (g : list JsString) (word : JsString) :
  WrapInv font done st gs g ->
  exists gs' g',
    WrapInv font (done ++ [stripUnsupported word])
      (wrapWord font maxWidth st word) gs' g'.
Proof.
  destruct st as [lines cur].
  intros (Hl & Hc & Hg & Hs & Hcontig & Hcomp). simpl in Hl, Hc, Hg.
  set (cw := stripUnsupported word).
  assert (Hmono : measuresOver font (concat (done ++ [cw])) ->
                  measuresOver font (concat done))
    by (apply measuresOver_mono, concat_snoc_incl).
  assert (Hcur : incl cur (SP :: concat done)).
  { rewrite Hc. intros c Hin. apply join_incl in Hin.
    destruct Hin as [<-|Hin]; [now left|right].
    apply (Subseq_incl_concat Hs). rewrite concat_app.
    apply in_or_app. now right. }
  assert (Hall : forall P : JsString -> Prop,
             Forall P (done ++ [cw]) -> Forall P done /\ P cw).
  { intros P HP. apply Forall_app in HP. destruct HP as [H1 H2].
    inversion H2; subst. now split. }
  unfold wrapWord. fold cw.
  destruct (truthy cur) eqn:Et.
  - (* currentLine is not empty *)
    assert (Hg0 : g <> []) by (apply (@truthy_join [SP]); now rewrite <- Hc).
    assert (Htest : incl (cur ++ [SP] ++ cw) (SP :: concat (done ++ [cw]))).
    { intros c Hin. apply in_app_or in Hin. destruct Hin as [Hin|Hin].
      - apply Hcur in Hin. destruct Hin as [<-|Hin]; [now left|right].
        now apply concat_snoc_incl.
      - apply in_app_or in Hin. destruct Hin as [[<-|[]]|Hin]; [now left|].
        right. rewrite concat_app. apply in_or_app. right. simpl.
        now rewrite app_nil_r. }
    destruct (widthOfTextAtSize font (cur ++ [SP] ++ cw) PDF_CONFIG.TEXT_SIZE)
      as [textWidth|] eqn:Ew.
    + destruct (Qgtb textWidth maxWidth); simpl.
      * (* the line is pushed, the word starts the next one *)
        exists (gs ++ [g]), (single cw). unfold WrapInv; simpl.
        repeat split.
        -- rewrite map_app, Hl, Hc. reflexivity.
        -- now rewrite join_single.
        -- apply single_falsy.
        -- rewrite concat_app. simpl. rewrite app_nil_r.
           now apply single_Subseq.
        -- apply Forall_app. split.
           ++ destruct (Hcontig (Hmono H)) as [HF _].
              eapply Forall_impl; [|exact HF]. intros a. apply Infix_snoc.
           ++ constructor; [|constructor].
              destruct (Hcontig (Hmono H)) as [_ [pre ->]].
              apply Infix_snoc, Infix_suffix.
        -- apply single_suffix.
        -- destruct (Hall _ H0) as [Hd Hw].
           destruct (Hcomp (Hmono H) Hd) as [<- _].
           rewrite concat_app. simpl. rewrite app_nil_r.
           now rewrite single_truthy.
        -- destruct (Hall _ H0) as [Hd Hw].
           destruct (Hcomp (Hmono H) Hd) as [_ HF].
           apply Forall_app. split; [assumption|]. now constructor.
      * (* the word joins the line *)
        exists gs, (g ++ [cw]). unfold WrapInv; simpl.
        repeat split.
        -- assumption.
        -- rewrite join_snoc by assumption. now rewrite Hc.
        -- destruct cur; discriminate.
        -- rewrite app_assoc. now apply Subseq_snoc_keep.
        -- destruct (Hcontig (Hmono H)) as [HF _].
           eapply Forall_impl; [|exact HF]. intros a. apply Infix_snoc.
        -- destruct (Hcontig (Hmono H)) as [_ [pre ->]].
           exists pre. now rewrite app_assoc.
        -- destruct (Hall _ H0) as [Hd Hw].
           destruct (Hcomp (Hmono H) Hd) as [<- _].
           now rewrite app_assoc.
        -- destruct (Hall _ H0) as [Hd Hw].
           now destruct (Hcomp (Hmono H) Hd) as [_ HF].
    + (* the width cannot be measured: the word is skipped *)
      exists gs, g. unfold WrapInv; simpl.
      split; [assumption|]. split; [assumption|].
      split; [rewrite Et; discriminate|].
      split; [now apply Subseq_snoc_skip|].
      split; intros Hm; exfalso; exact (Hm _ Htest Ew).
  - (* currentLine is empty *)
    pose proof (Hg eq_refl) as ->.
    assert (Htest : incl cw (SP :: concat (done ++ [cw]))).
    { intros c Hin. right. rewrite concat_app. apply in_or_app. right.
      simpl. now rewrite app_nil_r. }
    rewrite app_nil_r in Hs.
    destruct (widthOfTextAtSize font cw PDF_CONFIG.TEXT_SIZE)
      as [textWidth|] eqn:Ew.
    + rewrite andb_false_r.
      exists gs, (single cw). unfold WrapInv; simpl.
      repeat split.
      * assumption.
      * now rewrite join_single.
      * apply single_falsy.
      * now apply single_Subseq.
      * destruct (Hcontig (Hmono H)) as [HF _].
        eapply Forall_impl; [|exact HF]. intros a. apply Infix_snoc.
      * apply single_suffix.
      * destruct (Hall _ H0) as [Hd Hw].
        destruct (Hcomp (Hmono H) Hd) as [<- _].
        rewrite app_nil_r. now rewrite single_truthy.
      * destruct (Hall _ H0) as [Hd Hw].
        now destruct (Hcomp (Hmono H) Hd) as [_ HF].
    + exists gs, []. unfold WrapInv; simpl.
      split; [assumption|]. split; [assumption|].
      split; [reflexivity|].
      split; [rewrite app_nil_r; now apply Subseq_snoc_skip|].
      split; intros Hm; exfalso; exact (Hm _ Htest Ew).
Qed.

End WrapGroups.

Lemma consHead_In (c : CodeUnit) (l : list JsString) (w : JsString) (s : JsString) :
  (forall w', In w' l -> incl w' s) ->
  In w (consHead c l) -> incl w (c :: s).
Proof.
  intros Hl Hw. destruct l as [|h t]; simpl in Hw.
  - destruct Hw as [<-|[]]. intros x [<-|[]]. now left.
  - destruct Hw as [<-|Hw].
    + intros x [<-|Hx]; [now left|right]. apply (Hl h); [now left|assumption].
    + apply incl_tl. apply Hl. now right.
Qed.

Lemma split_incl (sep : CodeUnit) (s w : JsString) :
  In w (split sep s) -> incl w s.
Proof.
  revert w. induction s as [|c rest IH]; intros w Hw; simpl in Hw.
  - destruct Hw as [<-|[]]. apply incl_refl.
  - destruct (c =? sep)%N.
    + destruct Hw as [<-|Hw]; [intros x []|]. apply incl_tl. now apply IH.
    + eapply consHead_In; eassumption.
Qed.

Lemma splitNewlines_not_nil (s : JsString) : splitNewlines s <> [].
Proof.
  destruct s as [|c rest]; simpl; [discriminate|].
  destruct (c =? LF)%N; [discriminate|].
  destruct rest as [|d rest']; [discriminate|].
  destruct ((c =? CR) && (d =? LF))%N; [discriminate|].
  destruct (splitNewlines (d :: rest')); discriminate.
Qed.

Lemma stripUnsupported_incl (s : JsString) : incl (stripUnsupported s) s.
Proof. intros c. apply stripUnsupported_In. Qed.

Lemma stripped_words_incl (p : JsString) :
  incl (concat (map stripUnsupported (split SP p))) p.
Proof.
  intros c Hc. apply in_concat in Hc. destruct Hc as [w [Hw Hc]].
  apply in_map_iff in Hw. destruct Hw as [w0 [<- Hw0]].
  apply (@split_incl _ _ _ Hw0). now apply stripUnsupported_In.
Qed.

Section WrapParagraph.

Variables (font : PDFFont) (maxWidth : Q).

Lemma wrapWords_inv (words : list JsString) :
  forall done st gs g,
    WrapInv font done st gs g ->
    exists gs' g',
      WrapInv font (done ++ map stripUnsupported words)
        (fold_left (wrapWord font maxWidth) words st) gs' g'.
Proof.
  induction words as [|w ws IH]; intros done st gs g Hinv; simpl.
  - rewrite app_nil_r. now exists gs, g.
  - destruct (wrapWord_inv maxWidth w Hinv) as [gs1 [g1 H1]].
    destruct (IH _ _ _ _ H1) as [gs2 [g2 H2]].
    exists gs2, g2. now rewrite <- app_assoc in H2.
Qed.

(** The lines of a paragraph are the joins of consecutive groups of the
    words the loop keeps. *)
Lemma wrapParagraph_groups (p : JsString) :
  exists groups,
    wrapParagraph font maxWidth p = map (join [SP]) groups
    /\ Subseq (concat groups) (map stripUnsupported (split SP p))
    /\ (measuresOver font p ->
        Forall (fun g => Infix g (map stripUnsupported (split SP p))) groups)
    /\ (isBlank p = false -> measuresOver font p ->
        Forall (fun w => truthy w = true) (map stripUnsupported (split SP p)) ->
        concat groups = map stripUnsupported (split SP p)
        /\ Forall (fun g => g <> []) groups).
Proof.
  unfold wrapParagraph. destruct (isBlank p) eqn:Eb.
  - exists [[]]. repeat split; try discriminate.
    + apply Subseq_nil_l.
    + constructor; [|constructor]. now exists [], (map stripUnsupported (split SP p)).
  - destruct (wrapWords_inv (split SP p) (WrapInv_init font))
      as [gs [g (Hl & Hc & Hg & Hs & Hcontig & Hcomp)]].
    simpl in Hs, Hcontig, Hcomp.
    assert (Hm : measuresOver font p ->
                 measuresOver font (concat (map stripUnsupported (split SP p))))
      by (apply measuresOver_mono, stripped_words_incl).
    destruct (fold_left _ _ _) as [lines cur]; simpl in *.
    destruct (truthy cur) eqn:Et.
    + exists (gs ++ [g]). split; [|split; [|split]].
      * rewrite map_app, Hl, Hc. reflexivity.
      * rewrite concat_app. simpl. now rewrite app_nil_r.
      * intros H. destruct (Hcontig (Hm H)) as [HF [pre Hpre]].
        apply Forall_app. split; [assumption|].
        constructor; [|constructor]. rewrite Hpre. apply Infix_suffix.
      * intros _ H Hw. destruct (Hcomp (Hm H) Hw) as [He HF]. split.
        -- rewrite concat_app. simpl. now rewrite app_nil_r.
        -- apply Forall_app. split; [assumption|].
           constructor; [|constructor].
           apply (@truthy_join [SP]). now rewrite <- Hc.
    + exists gs. rewrite (Hg eq_refl), app_nil_r in *.
      split; [assumption|]. split; [assumption|]. split.
      * intros H. now destruct (Hcontig (Hm H)).
      * intros _ H Hw. exact (Hcomp (Hm H) Hw).
Qed.

End WrapParagraph.

(** C2, as amended. The lines [wrapText] returns are, paragraph by
    paragraph, the single-space joins of consecutive groups of whole
    (stripped) words: the groups put end to end are the words of the
    paragraph in their order, with the skipped ones left out, so that no
    word is broken across two lines. When the font measures every string
    written with the characters of the paragraph, nothing is skipped
    inside a line: each group is a block of adjacent words of the
    paragraph. *)
Theorem wrapText_lines_are_groups_of_whole_words
    (text : JsString) (context : PDFGenerationContext) :
  exists groupss : list (list (list JsString)),
    wrapText text context = flat_map (map (join [SP])) groupss
    /\ Forall2
         (fun p groups =>
            Subseq (concat groups) (map stripUnsupported (split SP p))
            /\ (measuresOver (regular context) p ->
                Forall (fun g => Infix g (map stripUnsupported (split SP p)))
                       groups))
         (splitNewlines text) groupss.
Proof.
  unfold wrapText. induction (splitNewlines text) as [|p ps IH]; simpl.
  - exists []. split; [reflexivity|constructor].
  - destruct IH as [groupss [Hw HF]].
    destruct (wrapParagraph_groups (regular context)
                (pageWidth context - 2 * margin context) p)
      as [groups (Hp & Hs & Hi & _)].
    exists (groups :: groupss). simpl. split.
    + now rewrite Hp, Hw.
    + constructor; [now split|assumption].
Qed.

(** C2 as stated fails: the word with the tab cannot be measured and is
    skipped, so the line is made of words that are not adjacent in the
    text. *)
Lemma wrapText_line_not_contiguous :
  ~ (forall line, In line (wrapText Sample.tabbedText Sample.context) ->
       exists p g, In p (splitNewlines Sample.tabbedText)
                   /\ Infix g (split SP p) /\ line = join [SP] g).
Proof.
  intros H.
  destruct (H (js "Languages: and Lean")) as [p [g [Hp [Hi Hj]]]].
  - vm_compute. left. reflexivity.
  - vm_compute in Hp. destruct Hp as [<-|[]].
    apply Infix_infixes in Hi. vm_compute in Hi.
    repeat (destruct Hi as [<-|Hi]; [vm_compute in Hj; discriminate|]).
    exact Hi.
Qed.

(** ** Joining the lines again *)

Lemma join_app (sep : JsString) (g l : list JsString) :
  g <> [] -> l <> [] -> join sep (g ++ l) = join sep g ++ sep ++ join sep l.
Proof.
  induction g as [|a g IH]; intros Hg Hl; [congruence|].
  destruct g as [|b g].
  - simpl. destruct l; [congruence|reflexivity].
  - change (a ++ sep ++ join sep ((b :: g) ++ l)
            = (a ++ sep ++ join sep (b :: g)) ++ sep ++ join sep l).
    rewrite IH by (discriminate || assumption). now rewrite <- !app_assoc.
Qed.

Lemma join_concat_groups (sep : JsString) (groups : list (list JsString)) :
  Forall (fun g => g <> []) groups ->
  join sep (map (join sep) groups) = join sep (concat groups).
Proof.
  induction groups as [|g gs IH]; intros HF; [reflexivity|].
  inversion HF as [|? ? Hg HF']; subst.
  destruct gs as [|g' gs].
  - simpl. now rewrite app_nil_r.
  - change (map (join sep) (g :: g' :: gs))
      with (join sep g :: map (join sep) (g' :: gs)).
    rewrite join_cons by discriminate. rewrite IH by assumption.
    change (concat (g :: g' :: gs)) with (g ++ concat (g' :: gs)).
    rewrite join_app; [reflexivity|assumption|].
    inversion HF' as [|? ? Hg' _]; subst. simpl.
    destruct g'; [congruence|discriminate].
Qed.

Lemma stripUnsupported_cons (c : CodeUnit) (s : JsString) :
  stripUnsupported (c :: s) = stripUnsupported [c] ++ stripUnsupported s.
Proof. unfold stripUnsupported. simpl. now destruct (isStripped c). Qed.

Lemma join_prepend (sep a h : JsString) (t : list JsString) :
  join sep ((a ++ h) :: t) = a ++ join sep (h :: t).
Proof. destruct t; simpl; [reflexivity|now rewrite <- app_assoc]. Qed.

Lemma join_strip_consHead (sep : JsString) (c : CodeUnit) (l : list JsString) :
  l <> [] ->
  join sep (map stripUnsupported (consHead c l))
  = stripUnsupported [c] ++ join sep (map stripUnsupported l).
Proof.
  destruct l as [|h t]; [congruence|]. intros _. simpl consHead.
  change (map stripUnsupported ((c :: h) :: t))
    with (stripUnsupported (c :: h) :: map stripUnsupported t).
  rewrite stripUnsupported_cons. apply join_prepend.
Qed.

Lemma map_not_nil {A B : Type} (f : A -> B) (l : list A) :
  l <> [] -> map f l <> [].
Proof. destruct l; [congruence|discriminate]. Qed.

Lemma join_split_strip (p : JsString) :
  join [SP] (map stripUnsupported (split SP p)) = stripUnsupported p.
Proof.
  induction p as [|c rest IH]; [reflexivity|]. simpl split.
  destruct (c =? SP)%N eqn:E.
  - apply N.eqb_eq in E. subst c.
    change (map stripUnsupported ([] :: split SP rest))
      with ([] :: map stripUnsupported (split SP rest)).
    rewrite join_cons by (apply map_not_nil, split_not_nil).
    rewrite IH. reflexivity.
  - rewrite join_strip_consHead by apply split_not_nil.
    rewrite IH. symmetry. apply stripUnsupported_cons.
Qed.

Lemma wrapParagraph_rejoin (font : PDFFont) (maxWidth : Q) (p : JsString) :
  plainParagraph p = true ->
  measuresOver font p ->
  join [SP] (wrapParagraph font maxWidth p) = stripUnsupported p.
Proof.
  intros Hp Hm. destruct p as [|c p']; [reflexivity|].
  simpl in Hp. apply andb_true_iff in Hp. destruct Hp as [Hb Hw].
  apply negb_true_iff in Hb.
  destruct (wrapParagraph_groups font maxWidth (c :: p'))
    as [groups (Hg & _ & _ & Hcomp)].
  destruct (Hcomp Hb Hm) as [Hc HF].
  - apply Forall_forall. intros w Hin. apply in_map_iff in Hin.
    destruct Hin as [w0 [<- Hw0]].
    rewrite forallb_forall in Hw. now apply Hw.
  - rewrite Hg, join_concat_groups by assumption.
    rewrite Hc. apply join_split_strip.
Qed.

Lemma join_splitNewlines_unix (text : JsString) :
  join [LF] (map stripUnsupported (splitNewlines text))
  = stripUnsupported (unixNewlines text).
Proof.
  induction text as [text IH] using (induction_ltof1 _ (@length CodeUnit)).
  unfold ltof in IH. destruct text as [|c rest]; [reflexivity|].
  simpl splitNewlines.
  destruct (c =? LF)%N eqn:E.
  - apply N.eqb_eq in E. subst c.
    change (map stripUnsupported ([] :: splitNewlines rest))
      with ([] :: map stripUnsupported (splitNewlines rest)).
    rewrite join_cons by (apply map_not_nil, splitNewlines_not_nil).
    rewrite IH by (simpl; lia). now destruct rest.
  - destruct rest as [|d rest']; [reflexivity|].
    simpl unixNewlines.
    destruct ((c =? CR) && (d =? LF))%N eqn:Ecr.
    + apply andb_true_iff in Ecr. destruct Ecr as [_ Ed].
      apply N.eqb_eq in Ed. subst d.
      change (map stripUnsupported ([] :: splitNewlines rest'))
        with ([] :: map stripUnsupported (splitNewlines rest')).
      rewrite join_cons by (apply map_not_nil, splitNewlines_not_nil).
      rewrite IH by (simpl; lia). now destruct rest'.
    + rewrite join_strip_consHead by apply splitNewlines_not_nil.
      rewrite IH by (simpl; lia). symmetry.
      apply (stripUnsupported_cons c (unixNewlines (d :: rest'))).
Qed.

(** A text that has no carriage return before a line feed is left as it
    is. *)
Lemma unixNewlines_without_CRLF (text : JsString) :
  hasCRLF text = false -> unixNewlines text = text.
Proof.
  induction text as [|c rest IH]; intros H; [reflexivity|].
  destruct rest as [|d rest']; [reflexivity|].
  simpl in H. apply orb_false_iff in H. destruct H as [H1 H2].
  simpl unixNewlines. rewrite H1. f_equal. now apply IH.
Qed.

(** C3, as amended. The lines [wrapText] returns are the lines of the
    paragraphs of the text, in order. For a text in which every paragraph,
    the line breaks being line feeds with or without a carriage return
    before them, is empty or is made of words separated by single spaces
    (no space in front, at the end or doubled, no word made of stripped
    characters only, not white space only) and written with characters the
    regular font can measure, joining the lines of each paragraph with
    single spaces and the paragraphs with line feeds gives back the text
    without the stripped control and non-ASCII byte ranges, every line
    break written as a line feed. *)
Theorem wrapText_rejoin_plain_text
    (text : JsString) (context : PDFGenerationContext) :
  (forall p, In p (splitNewlines text) ->
     plainParagraph p = true /\ measuresOver (regular context) p) ->
  wrapText text context
  = concat (map (wrapParagraph (regular context)
                   (pageWidth context - 2 * margin context))
                (splitNewlines text))
  /\ rejoin (regular context) (pageWidth context - 2 * margin context) text
     = stripUnsupported (unixNewlines text).
Proof.
  intros Hp. split.
  - unfold wrapText. apply flat_map_concat_map.
  - unfold rejoin. rewrite <- (join_splitNewlines_unix text).
    f_equal. apply map_ext_in. intros p Hin.
    destruct (Hp p Hin). now apply wrapParagraph_rejoin.
Qed.

Lemma Sample_advance_printable (c : CodeUnit) :
  ((32 <=? c) && (c <=? 126))%N = true -> Sample.advance c <> None.
Proof.
  intros H. unfold Sample.advance. rewrite H.
  apply nth_error_Some. apply andb_true_iff in H. destruct H as [H1 H2].
  apply N.leb_le in H1, H2.
  change (length Sample.helveticaAdvances) with 95%nat. lia.
Qed.

Lemma Sample_totalAdvance_printable (s : JsString) :
  (forall c, In c s -> ((32 <=? c) && (c <=? 126))%N = true) ->
  Sample.totalAdvance s <> None.
Proof.
  induction s as [|c s IH]; intros H; simpl; [discriminate|].
  pose proof (@Sample_advance_printable c (H c (or_introl eq_refl))) as Hc.
  destruct (Sample.advance c); [|congruence].
  destruct (Sample.totalAdvance s) eqn:E; [discriminate|].
  exfalso. apply IH; [|reflexivity]. intros c' Hc'. apply H. now right.
Qed.

Lemma Sample_measuresOver (name : StandardFonts) (text : JsString) :
  forallb (fun c => ((32 <=? c) && (c <=? 126))%N) text = true ->
  measuresOver (Sample.font name) text.
Proof.
  intros H t Ht. simpl.
  pose proof (@Sample_totalAdvance_printable t) as Ht'.
  destruct (Sample.totalAdvance t); [discriminate|].
  exfalso. apply Ht'; [|reflexivity].
  intros c Hc. apply Ht in Hc. destruct Hc as [<-|Hc]; [reflexivity|].
  rewrite forallb_forall in H. now apply H.
Qed.

Lemma wrapText_rejoin_plain_text_witness :
  wrapText Sample.browserText Sample.context
  = concat (map (wrapParagraph (regular Sample.context)
                   (pageWidth Sample.context - 2 * margin Sample.context))
                (splitNewlines Sample.browserText))
  /\ rejoin (regular Sample.context)
       (pageWidth Sample.context - 2 * margin Sample.context)
       Sample.browserText
     = stripUnsupported (unixNewlines Sample.browserText).
Proof.
  apply (@wrapText_rejoin_plain_text Sample.browserText Sample.context).
  intros p Hp. vm_compute in Hp.
  destruct Hp as [<-|[<-|[]]]; (split; [reflexivity|]);
    apply Sample_measuresOver; reflexivity.
Defined.

(** C3 as stated fails: the word with the tab is dropped whole, with
    the characters of it that the encoding supports. *)
Lemma wrapText_rejoin_loses_skipped_word :
  rejoin (regular Sample.context)
    (pageWidth Sample.context - 2 * margin Sample.context) Sample.tabbedText
  <> stripUnsupported Sample.tabbedText.
Proof. vm_compute. discriminate. Qed.

(** ** Where [addSection] draws *)

Lemma sameLayout_refl (c : PDFGenerationContext) : sameLayout c c.
Proof. repeat split. Qed.

Lemma sameLayout_trans (c1 c2 c3 : PDFGenerationContext) :
  sameLayout c1 c2 -> sameLayout c2 c3 -> sameLayout c1 c3.
Proof.
  unfold sameLayout. intros (A1 & A2 & A3 & A4 & A5) (B1 & B2 & B3 & B4 & B5).
  repeat split; congruence.
Qed.

Lemma roomForHeading_sameLayout (c c' : PDFGenerationContext) :
  sameLayout c c' -> roomForHeading c -> roomForHeading c'.
Proof.
  unfold sameLayout, roomForHeading. intros (_ & _ & _ & Hh & Hm).
  now rewrite Hh, Hm.
Qed.

Lemma allOps_app (d1 d2 : PDFDocument) :
  allOps (d1 ++ d2) = allOps d1 ++ allOps d2.
Proof. apply flat_map_app. Qed.

Lemma allOps_drawOn (i : nat) (op0 op : DrawTextOp) (d : PDFDocument) :
  In op (allOps (drawOn i op0 d)) -> In op (allOps d) \/ op = op0.
Proof.
  revert i. induction d as [|p ps IH]; intros i H; simpl in H; [contradiction|].
  destruct i as [|i]; simpl in H; unfold allOps; simpl.
  - rewrite <- app_assoc in H. apply in_app_or in H. destruct H as [H|H].
    + left. apply in_or_app. now left.
    + simpl in H. destruct H as [H|H]; [now right|].
      left. apply in_or_app. now right.
  - apply in_app_or in H. destruct H as [H|H].
    + left. apply in_or_app. now left.
    + destruct (IH _ H) as [H'|H']; [|now right].
      left. apply in_or_app. now right.
Qed.

Lemma drawsOnly_bind {A B : Type} (P : Q -> DrawTextOp -> Prop)
    (m : GenM A) (k : A -> GenM B) :
  drawsOnly P m -> (forall a, drawsOnly P (k a)) -> drawsOnly P (bind m k).
Proof.
  intros Hm Hk c Hc. destruct (Hm c Hc) as [Hl Hops].
  unfold bind. destruct (m c) as [[e|a] c1]; simpl in *.
  - now split.
  - destruct (Hk a c1 (roomForHeading_sameLayout Hl Hc)) as [Hl' Hops'].
    split; [now apply sameLayout_trans with c1|].
    intros op Hop. destruct (Hops' op Hop) as [H|H].
    + now apply Hops.
    + right. destruct Hl as (_ & _ & _ & _ & Hmar). now rewrite <- Hmar.
Qed.

Lemma drawsOnly_weaken {A : Type} (P P' : Q -> DrawTextOp -> Prop) (m : GenM A) :
  (forall mar op, P mar op -> P' mar op) -> drawsOnly P m -> drawsOnly P' m.
Proof.
  intros HPP Hm c Hc. destruct (Hm c Hc) as [Hl Hops]. split; [assumption|].
  intros op Hop. destruct (Hops op Hop); [now left|right; now apply HPP].
Qed.

Lemma drawsOnly_get (P : Q -> DrawTextOp -> Prop) : drawsOnly P get.
Proof. intros c _. split; [apply sameLayout_refl|]. intros op H. now left. Qed.

Lemma drawsOnly_setCurrentY (P : Q -> DrawTextOp -> Prop)
    (f : PDFGenerationContext -> Q) :
  drawsOnly P (modify (fun c => setCurrentY c (f c))).
Proof. intros c _. split; [repeat split|]. intros op H. now left. Qed.

Lemma drawsOnly_forEach {A : Type} (P : Q -> DrawTextOp -> Prop)
    (xs : list A) (body : A -> GenM unit) :
  (forall x, drawsOnly P (body x)) -> drawsOnly P (forEach xs body).
Proof.
  intros Hb. induction xs as [|x xs IH]; simpl.
  - intros c _. split; [apply sameLayout_refl|]. intros op H. now left.
  - apply drawsOnly_bind; [apply Hb|]. intros _. exact IH.
Qed.

Lemma addLine_draws (line : JsString) : drawsOnly lineAbove (addLine line).
Proof.
  intros c Hc. unfold roomForHeading in Hc.
  unfold addLine, bind, get, ret, modify, tryCatch, drawText, startNewPage.
  simpl.
  destruct (Qltb (currentY c) (margin c + 20)) eqn:Elow; simpl;
    destruct (isBlank line); simpl;
    try (destruct (encodingError (regular c) line); simpl);
    (split; [repeat split|]); intros op Hop;
    try (now left);
    try (rewrite allOps_app in Hop; simpl in Hop; rewrite app_nil_r in Hop;
         now left).
  - apply allOps_drawOn in Hop. destruct Hop as [Hop| ->].
    + rewrite allOps_app in Hop; simpl in Hop; rewrite app_nil_r in Hop.
      now left.
    + right. split; [reflexivity|]. simpl. lra.
  - apply allOps_drawOn in Hop. destruct Hop as [Hop| ->]; [now left|].
    right. split; [reflexivity|]. simpl. now apply Qltb_false_le.
Qed.

Lemma addHeading_draws (heading : JsString) :
  drawsOnly headingAbove (addHeading heading).
Proof.
  intros c Hc. unfold roomForHeading in Hc.
  unfold addHeading, bind, get, ret, modify, drawText, startNewPage.
  simpl.
  destruct (Qltb (currentY c) (margin c + 100)) eqn:Elow; simpl;
    destruct (encodingError (bold c) (stripUnsupported heading)); simpl;
    (split; [repeat split|]); intros op Hop;
    try (now left);
    try (rewrite allOps_app in Hop; simpl in Hop; rewrite app_nil_r in Hop;
         now left).
  - apply allOps_drawOn in Hop. destruct Hop as [Hop| ->].
    + rewrite allOps_app in Hop; simpl in Hop; rewrite app_nil_r in Hop.
      now left.
    + right. split; [reflexivity|]. simpl. lra.
  - apply allOps_drawOn in Hop. destruct Hop as [Hop| ->]; [now left|].
    right. split; [reflexivity|]. simpl. now apply Qltb_false_le.
Qed.

Lemma addSection_draws (heading content : JsString) :
  drawsOnly (fun mar op => headingAbove mar op \/ lineAbove mar op)
    (addSection heading content).
Proof.
  unfold addSection.
  apply drawsOnly_bind.
  { eapply drawsOnly_weaken; [|apply addHeading_draws]. intros; now left. }
  intros _. apply drawsOnly_bind; [apply drawsOnly_get|]. intros c'.
  apply drawsOnly_bind; [|intros _; apply drawsOnly_setCurrentY].
  apply drawsOnly_forEach. intros line.
  eapply drawsOnly_weaken; [|apply addLine_draws]. intros; now right.
Qed.

(** The page size and margin of [PDF_CONFIG], the ones [generatePDF]
    puts in the context, leave room for a heading. *)
Lemma roomForHeading_PDF_CONFIG (c : PDFGenerationContext) :
  pageHeight c = PDF_CONFIG.PAGE_HEIGHT ->
  margin c = PDF_CONFIG.MARGIN ->
  roomForHeading c.
Proof.
  unfold roomForHeading. intros -> ->. vm_compute. discriminate.
Qed.

(** C10. In [addSection], on a page that leaves room for a heading
    below the top margin ([margin + 100 <= pageHeight - margin], as with
    the page size and margin of [PDF_CONFIG]), every text the section adds
    to the document is drawn at a y-coordinate of at least [margin + 20],
    and the heading at least at [margin + 100]: nothing is drawn inside the
    bottom margin. *)
Theorem addSection_draws_above_bottom_margin
    (heading content : JsString) (c : PDFGenerationContext) (op : DrawTextOp) :
  roomForHeading c ->
  In op (allOps (doc (snd (addSection heading content c)))) ->
  In op (allOps (doc c))
  \/ (opSize op = PDF_CONFIG.HEADING_SIZE /\ margin c + 100 <= opY op)
  \/ (opSize op = PDF_CONFIG.TEXT_SIZE /\ margin c + 20 <= opY op).
Proof.
  intros Hc Hop. destruct (addSection_draws heading content Hc) as [_ H].
  exact (H op Hop).
Qed.

Lemma addSection_draws_above_bottom_margin_witness :
  let op := {| opText := js "Rocq"; opX := 50; opY := 76589 # 100;
               opSize := 12; opFont := Helvetica |} in
  In op (allOps (doc Sample.context))
  \/ (opSize op = PDF_CONFIG.HEADING_SIZE /\ margin Sample.context + 100 <= opY op)
  \/ (opSize op = PDF_CONFIG.TEXT_SIZE /\ margin Sample.context + 20 <= opY op).
Proof.
  apply (@addSection_draws_above_bottom_margin
           (js "Skills") (js "Rocq") Sample.context).
  - unfold roomForHeading. vm_compute. discriminate.
  - vm_compute. right. left. reflexivity.
Defined.

(** ** When [addSection] starts a page *)

Lemma Qltb_lt_true (a b : Q) : a < b -> Qltb a b = true.
Proof.
  intros H. unfold Qltb. apply negb_true_iff.
  destruct (Qle_bool b a) eqn:E; [|reflexivity].
  apply Qle_bool_iff in E. exfalso. exact (Qlt_not_le _ _ H E).
Qed.

Lemma Qltb_le_false (a b : Q) : b <= a -> Qltb a b = false.
Proof.
  intros H. unfold Qltb. apply negb_false_iff. now apply Qle_bool_iff.
Qed.

Lemma drawOn_last (d : PDFDocument) (p : PDFPage) (op : DrawTextOp) :
  drawOn (length d) op (d ++ [p])
  = d ++ [{| width := width p; height := height p; imported := imported p;
             drawn := drawn p ++ [op] |}].
Proof. induction d as [|q d IH]; simpl; [reflexivity|now rewrite IH]. Qed.

Lemma drawOn_length (i : nat) (op : DrawTextOp) (d : PDFDocument) :
  length (drawOn i op d) = length d.
Proof.
  revert i. induction d as [|q d IH]; intros [|i]; simpl; auto.
Qed.

(** C4. [addSection] runs [addHeading] and then [addLine] on each
    wrapped line. Whenever the cursor is below [margin + 100] at the
    heading, or below [margin + 20] at a line, exactly one new page is
    added to the document and becomes the current page; what is drawn on
    it is drawn at [pageHeight - margin], and the cursor moves on from
    there. When the cursor is not below the threshold no page is added, so
    that every page the section starts has the cursor reset. *)
Theorem addSection_starts_pages_when_low
    (heading content line : JsString) (c : PDFGenerationContext) :
  addSection heading content c
  = (addHeading heading ;;;
     (c' <- get ;;
      forEach (wrapText (stripUnsupported content) c') addLine ;;;
      modify (fun c => setCurrentY c (currentY c - 20)))) c
  /\ (currentY c < margin c + 100 ->
      doc (snd (addHeading heading c)) = doc c ++ [headingPage heading c]
      /\ page (snd (addHeading heading c)) = length (doc c)
      /\ (fst (addHeading heading c) = inr tt ->
          currentY (snd (addHeading heading c))
          = pageHeight c - margin c - (PDF_CONFIG.HEADING_SIZE + 10)))
  /\ (margin c + 100 <= currentY c ->
      length (doc (snd (addHeading heading c))) = length (doc c)
      /\ page (snd (addHeading heading c)) = page c)
  /\ (currentY c < margin c + 20 ->
      doc (snd (addLine line c)) = doc c ++ [linePage line c]
      /\ page (snd (addLine line c)) = length (doc c)
      /\ currentY (snd (addLine line c))
         = pageHeight c - margin c - PDF_CONFIG.LINE_HEIGHT)
  /\ (margin c + 20 <= currentY c ->
      length (doc (snd (addLine line c))) = length (doc c)
      /\ page (snd (addLine line c)) = page c
      /\ currentY (snd (addLine line c))
         = currentY c - PDF_CONFIG.LINE_HEIGHT).
Proof.
  split; [reflexivity|].
  unfold addHeading, addLine, headingPage, linePage,
    bind, get, ret, modify, tryCatch, drawText, startNewPage.
  simpl. repeat split.
  - apply Qltb_lt_true in H. rewrite H. simpl.
    destruct (encodingError (bold c) (stripUnsupported heading)); simpl;
      [reflexivity|]. apply drawOn_last.
  - apply Qltb_lt_true in H. rewrite H. simpl.
    now destruct (encodingError (bold c) (stripUnsupported heading)).
  - apply Qltb_lt_true in H. rewrite H. simpl.
    destruct (encodingError (bold c) (stripUnsupported heading)); simpl;
      [discriminate|reflexivity].
  - apply Qltb_le_false in H. rewrite H. simpl.
    destruct (encodingError (bold c) (stripUnsupported heading)); simpl;
      [reflexivity|]. apply drawOn_length.
  - apply Qltb_le_false in H. rewrite H. simpl.
    now destruct (encodingError (bold c) (stripUnsupported heading)).
  - apply Qltb_lt_true in H. rewrite H. simpl.
    destruct (isBlank line); simpl; [reflexivity|].
    destruct (encodingError (regular c) line); simpl; [reflexivity|].
    apply drawOn_last.
  - apply Qltb_lt_true in H. rewrite H. simpl.
    destruct (isBlank line); simpl; [reflexivity|].
    now destruct (encodingError (regular c) line).
  - apply Qltb_lt_true in H. rewrite H. simpl.
    destruct (isBlank line); simpl; [reflexivity|].
    now destruct (encodingError (regular c) line).
  - apply Qltb_le_false in H. rewrite H. simpl.
    destruct (isBlank line); simpl; [reflexivity|].
    destruct (encodingError (regular c) line); simpl; [reflexivity|].
    apply drawOn_length.
  - apply Qltb_le_false in H. rewrite H. simpl.
    destruct (isBlank line); simpl; [reflexivity|].
    now destruct (encodingError (regular c) line).
  - apply Qltb_le_false in H. rewrite H. simpl.
    destruct (isBlank line); simpl; [reflexivity|].
    now destruct (encodingError (regular c) line).
Qed.

(** ** What the generator throws *)

Lemma throwsOnlyLib_ret {S A : Type} (a : A) : throwsOnlyLib (@ret S A a).
Proof. intros s. exact I. Qed.

Lemma throwsOnlyLib_get {S : Type} : throwsOnlyLib (@get S).
Proof. intros s. exact I. Qed.

Lemma throwsOnlyLib_modify {S : Type} (f : S -> S) : throwsOnlyLib (modify f).
Proof. intros s. exact I. Qed.

Lemma throwsOnlyLib_await {S A : Type} (o : Foreign + A) :
  throwsOnlyLib (@await S A o).
Proof. intros s. unfold await. now destruct o. Qed.

Lemma throwsOnlyLib_awaitVoid {S : Type} (o : option Foreign) :
  throwsOnlyLib (@awaitVoid S o).
Proof. intros s. unfold awaitVoid. now destruct o. Qed.

Lemma throwsOnlyLib_bind {S A B : Type} (m : M S A) (k : A -> M S B) :
  throwsOnlyLib m -> (forall a, throwsOnlyLib (k a)) -> throwsOnlyLib (bind m k).
Proof.
  intros Hm Hk s. unfold bind. specialize (Hm s).
  destruct (m s) as [[e|a] s']; simpl in *; [assumption|apply Hk].
Qed.

Lemma throwsOnlyLib_tryCatch {S A : Type} (m : M S A) (h : Thrown -> M S A) :
  (forall e, throwsOnlyLib (h e)) -> throwsOnlyLib (tryCatch m h).
Proof.
  intros Hh s. unfold tryCatch.
  destruct (m s) as [[e|a] s']; simpl; [apply Hh|exact I].
Qed.

Lemma throwsOnlyLib_forEach {S A : Type} (xs : list A) (body : A -> M S unit) :
  (forall x, throwsOnlyLib (body x)) -> throwsOnlyLib (forEach xs body).
Proof.
  intros Hb. induction xs as [|x xs IH]; simpl.
  - apply throwsOnlyLib_ret.
  - apply throwsOnlyLib_bind; [apply Hb|intros _; exact IH].
Qed.

Lemma throwsOnlyLib_drawText (text : JsString) (x y size : Q) (font : PDFFont) :
  throwsOnlyLib (drawText text x y size font).
Proof. intros c. unfold drawText. now destruct (encodingError font text). Qed.

Lemma throwsOnlyLib_if {S A : Type} (b : bool) (m1 m2 : M S A) :
  throwsOnlyLib m1 -> throwsOnlyLib m2 -> throwsOnlyLib (if b then m1 else m2).
Proof. now destruct b. Qed.

Create HintDb throws.
#[local] Hint Resolve throwsOnlyLib_ret throwsOnlyLib_get throwsOnlyLib_modify
  throwsOnlyLib_await throwsOnlyLib_awaitVoid throwsOnlyLib_drawText : throws.

Ltac throws_step :=
  first
    [ apply throwsOnlyLib_bind; [|intros ?]
    | apply throwsOnlyLib_tryCatch; intros ?
    | apply throwsOnlyLib_forEach; intros ?
    | apply throwsOnlyLib_if
    | solve [auto with throws] ].

Lemma throwsOnlyLib_addTitle (title : JsString) : throwsOnlyLib (addTitle title).
Proof. unfold addTitle, startNewPage. repeat throws_step. Qed.

Lemma throwsOnlyLib_addLine (line : JsString) : throwsOnlyLib (addLine line).
Proof. unfold addLine, startNewPage. repeat throws_step. Qed.

Lemma throwsOnlyLib_addHeading (heading : JsString) :
  throwsOnlyLib (addHeading heading).
Proof. unfold addHeading, startNewPage. repeat throws_step. Qed.

Lemma throwsOnlyLib_addSection (heading content : JsString) :
  throwsOnlyLib (addSection heading content).
Proof.
  unfold addSection.
  apply throwsOnlyLib_bind; [apply throwsOnlyLib_addHeading|intros _].
  apply throwsOnlyLib_bind; [apply throwsOnlyLib_get|intros c].
  apply throwsOnlyLib_bind; [|intros _; apply throwsOnlyLib_modify].
  apply throwsOnlyLib_forEach. apply throwsOnlyLib_addLine.
Qed.

Lemma throwsOnlyLib_embedUploadedPDF (w : World) (filePath : JsString) :
  throwsOnlyLib (embedUploadedPDF w filePath).
Proof.
  unfold embedUploadedPDF. apply throwsOnlyLib_tryCatch. intros e.
  apply throwsOnlyLib_addSection.
Qed.

Lemma renderDocument_notApplicationError (w : World) (submission : UserSubmission) :
  notApplicationError (renderDocument w submission).
Proof.
  unfold renderDocument, andThen, awaitedVoid, awaited.
  destruct (pdf_create w); [exact I|].
  destruct (pdf_embedFont w HelveticaBold) as [e|helveticaBold]; [exact I|].
  destruct (pdf_embedFont w Helvetica) as [e|helvetica]; [exact I|].
  match goal with
  | |- notApplicationError (match ?m ?c with _ => _ end) =>
      assert (H : throwsOnlyLib m); [|specialize (H c); destruct (m c) as [[e|u] c']]
  end.
  - apply throwsOnlyLib_bind; [apply throwsOnlyLib_addTitle|intros _].
    apply throwsOnlyLib_bind; [apply throwsOnlyLib_addSection|intros _].
    apply throwsOnlyLib_bind; [apply throwsOnlyLib_addSection|intros _].
    apply throwsOnlyLib_bind; [apply throwsOnlyLib_addSection|intros _].
    destruct (uploadedFilePath submission) as [filePath|];
      [|apply throwsOnlyLib_ret].
    apply throwsOnlyLib_if;
      [apply throwsOnlyLib_embedUploadedPDF|apply throwsOnlyLib_ret].
  - exact H.
  - exact I.
Qed.

Lemma tryGeneratePDF_only500 (w : World) (submission : UserSubmission) :
  only500 (tryGeneratePDF w submission).
Proof.
  unfold tryGeneratePDF, andThen, awaitedVoid, awaited.
  pose proof (renderDocument_notApplicationError w submission) as Hr.
  destruct (renderDocument w submission) as [[m code|f]|pdfDoc];
    [contradiction|exact I|].
  destruct (pdf_save w pdfDoc) as [e|pdfBytes]; [exact I|].
  destruct (length pdfBytes =? 0)%nat; [reflexivity|].
  destruct (fs_mkdir w _); [exact I|].
  destruct (fs_writeFile w _ _); [exact I|].
  destruct (fs_accessWritten w _); [reflexivity|].
  destruct (fs_readWritten w _) as [e|stats]; [reflexivity|].
  destruct (length stats =? 0)%nat; [reflexivity|exact I].
Qed.

Lemma drawInfo_notApplicationError (info : list JsString) (helvetica : PDFFont) :
  forall pg yPosition,
    notApplicationError (drawInfo info helvetica pg yPosition).
Proof.
  induction info as [|line rest IH]; intros pg y; simpl; [exact I|].
  unfold andThen, drawTextOn.
  destruct (encodingError helvetica line); [exact I|apply IH].
Qed.

Lemma tryGenerateSimplePDF_only500 (w : World) (submission : UserSubmission) :
  only500 (tryGenerateSimplePDF w submission).
Proof.
  unfold tryGenerateSimplePDF, andThen, awaitedVoid, awaited.
  destruct (pdf_create w); [exact I|].
  destruct (pdf_defaultPageSize w) as [wd ht].
  destruct (pdf_embedFont w HelveticaBold) as [e|helveticaBold]; [exact I|].
  destruct (pdf_embedFont w Helvetica) as [e|helvetica]; [exact I|].
  unfold drawTextOn at 1.
  destruct (encodingError helveticaBold _); [exact I|].
  match goal with
  | |- only500 (match drawInfo ?i ?f ?p ?y with _ => _ end) =>
      pose proof (drawInfo_notApplicationError i f p y) as Hd;
      destruct (drawInfo i f p y) as [[m code|fe]|[pg yPosition]]
  end; [contradiction|exact I|].
  unfold drawTextOn.
  destruct (encodingError helveticaBold _); [exact I|].
  destruct (encodingError helvetica _); [exact I|].
  destruct (pdf_save w _) as [e|pdfBytes]; [exact I|].
  destruct (length pdfBytes =? 0)%nat; [reflexivity|].
  destruct (fs_mkdir w _); [exact I|].
  destruct (fs_writeFile w _ _); [exact I|].
  exact I.
Qed.

(** C9. Whatever [generatePDF] or [generateSimplePDF] throws is an
    [ApplicationError] with status code 500: errors of pdf-lib and of the
    file system raised inside the generation are caught and wrapped. *)
Theorem generators_throw_ApplicationError_500
    (w : World) (submission : UserSubmission) (e : Thrown) :
  generatePDF w submission = inl e \/ generateSimplePDF w submission = inl e ->
  exists message, e = ApplicationError message 500.
Proof.
  intros [H|H].
  - unfold generatePDF in H.
    pose proof (tryGeneratePDF_only500 w submission) as H5.
    destruct (tryGeneratePDF w submission) as [[m code|[m|]]|pdfPath];
      simpl in H5; inversion H; subst; eexists; reflexivity.
  - unfold generateSimplePDF in H.
    pose proof (tryGenerateSimplePDF_only500 w submission) as H5.
    destruct (tryGenerateSimplePDF w submission) as [[m code|[m|]]|pdfPath];
      simpl in H5; inversion H; subst; eexists; reflexivity.
Qed.

Lemma generators_throw_ApplicationError_500_witness :
  exists message,
    ApplicationError (js "PDF generation failed: out of memory") 500
    = ApplicationError message 500.
Proof.
  apply (@generators_throw_ApplicationError_500
           SampleWorld.saveFails SampleWorld.submission).
  left. vm_compute. reflexivity.
Defined.

(** ** Embedding the uploaded document *)

Lemma addLine_returns (line : JsString) (c : PDFGenerationContext) :
  fst (addLine line c) = inr tt.
Proof.
  unfold addLine, bind, get, ret, modify, tryCatch, drawText, startNewPage.
  simpl. destruct (Qltb (currentY c) (margin c + 20)); simpl;
    destruct (isBlank line); simpl; try reflexivity;
    destruct (encodingError (regular c) line); reflexivity.
Qed.

Lemma forEach_addLine_returns (lines : list JsString) :
  forall c, fst (forEach lines addLine c) = inr tt.
Proof.
  induction lines as [|l ls IH]; intros c; simpl; [reflexivity|].
  unfold bind. pose proof (addLine_returns l c) as H.
  destruct (addLine l c) as [[e|[]] c1]; simpl in H; [discriminate|apply IH].
Qed.

Lemma addHeading_returns (heading : JsString) (c : PDFGenerationContext) :
  encodingError (bold c) (stripUnsupported heading) = None ->
  fst (addHeading heading c) = inr tt.
Proof.
  intros H.
  unfold addHeading, bind, get, ret, modify, drawText, startNewPage. simpl.
  destruct (Qltb (currentY c) (margin c + 100)); simpl; now rewrite H.
Qed.

Lemma addSection_returns (heading content : JsString) (c : PDFGenerationContext) :
  encodingError (bold c) (stripUnsupported heading) = None ->
  fst (addSection heading content c) = inr tt.
Proof.
  intros H. unfold addSection, bind at 1.
  pose proof (addHeading_returns heading c H) as Hh.
  destruct (addHeading heading c) as [[e|[]] c1]; simpl in Hh; [discriminate|].
  unfold bind, get, modify.
  pose proof (forEach_addLine_returns
                (wrapText (stripUnsupported content) c1) c1) as Hl.
  destruct (forEach _ addLine c1) as [[e|[]] c2]; simpl in Hl;
    [discriminate|reflexivity].
Qed.

Lemma addSection_run (heading content : JsString) (c : PDFGenerationContext) :
  encodingError (bold c) (stripUnsupported heading) = None ->
  addSection heading content c
  = (inr tt, snd (addSection heading content c)).
Proof.
  intros H. pose proof (addSection_returns heading content c H) as Hr.
  destruct (addSection heading content c) as [r c']; simpl in *. now subst.
Qed.

Lemma setDoc_doc (c : PDFGenerationContext) : setDoc c (doc c) = c.
Proof. now destruct c. Qed.

Lemma addCopiedPages_run (copiedPages : list PDFPage) :
  forall c,
    addCopiedPages copiedPages c = (inr tt, setDoc c (doc c ++ copiedPages)).
Proof.
  unfold addCopiedPages.
  induction copiedPages as [|p ps IH]; intros c; simpl.
  - unfold ret. now rewrite app_nil_r, setDoc_doc.
  - unfold bind, modify. rewrite IH. simpl. unfold setDoc; simpl.
    now rewrite <- app_assoc.
Qed.

Lemma pagesAt_seq (pre l : PDFDocument) :
  pagesAt (pre ++ l) (seq (length pre) (length l)) = l.
Proof.
  revert pre. induction l as [|p l IH]; intros pre; [reflexivity|].
  simpl. rewrite nth_error_app2 by lia. rewrite Nat.sub_diag. simpl.
  f_equal. specialize (IH (pre ++ [p])).
  rewrite <- app_assoc, length_app, Nat.add_1_r in IH. exact IH.
Qed.

Lemma pagesAt_all (d : PDFDocument) : pagesAt d (seq 0 (length d)) = d.
Proof. exact (pagesAt_seq [] d). Qed.

(** ** What a section writes *)

Lemma framesOf_drawOn (i : nat) (op : DrawTextOp) (d : PDFDocument) :
  framesOf (drawOn i op d) = framesOf d.
Proof.
  revert i. induction d as [|p d IH]; intros [|i]; simpl; try reflexivity.
  now rewrite IH.
Qed.

Lemma textsOf_app (d1 d2 : PDFDocument) :
  textsOf (d1 ++ d2) = textsOf d1 ++ textsOf d2.
Proof. unfold textsOf. now rewrite allOps_app, map_app. Qed.

Lemma onLastPage_split (c : PDFGenerationContext) :
  onLastPage c ->
  exists pre p, doc c = pre ++ [p] /\ length pre = page c.
Proof.
  unfold onLastPage. intros H.
  destruct (exists_last (l := doc c)) as (pre & p & E).
  - intros E. rewrite E in H. discriminate.
  - exists pre, p. split; [assumption|].
    rewrite E, length_app in H. simpl in H. lia.
Qed.

Lemma textsOf_drawOn_last (c : PDFGenerationContext) (op : DrawTextOp) :
  onLastPage c ->
  textsOf (drawOn (page c) op (doc c)) = textsOf (doc c) ++ [opText op].
Proof.
  intros H. destruct (onLastPage_split H) as (pre & p & E & L).
  rewrite E, <- L, drawOn_last, !textsOf_app. unfold textsOf, allOps. simpl.
  rewrite !app_nil_r, map_app, <- app_assoc. reflexivity.
Qed.

Lemma writes_refl (c : PDFGenerationContext) : onLastPage c -> writes [] c c.
Proof.
  intros H. split; [apply sameLayout_refl|]. split; [assumption|].
  split; [exists 0%nat; simpl; now rewrite app_nil_r|now rewrite app_nil_r].
Qed.

Lemma writes_trans (t1 t2 : list JsString) (c c1 c2 : PDFGenerationContext) :
  writes t1 c c1 -> writes t2 c1 c2 -> writes (t1 ++ t2) c c2.
Proof.
  intros (L1 & _ & [k1 F1] & T1) (L2 & P2 & [k2 F2] & T2).
  split; [now apply sameLayout_trans with c1|]. split; [assumption|].
  split.
  - exists (k1 + k2)%nat. rewrite F2, F1.
    destruct L1 as (_ & _ & -> & -> & _).
    now rewrite repeat_app, app_assoc.
  - now rewrite T2, T1, app_assoc.
Qed.

Lemma writes_setCurrentY (c : PDFGenerationContext) (v : Q) :
  onLastPage c -> writes [] c (setCurrentY c v).
Proof.
  intros H. split; [now repeat split|]. split; [exact H|].
  split; [exists 0%nat; simpl; now rewrite app_nil_r|].
  simpl. now rewrite app_nil_r.
Qed.

Lemma writes_startNewPage (c : PDFGenerationContext) :
  writes [] c (snd (startNewPage c)).
Proof.
  split; [now repeat split|]. split.
  - unfold onLastPage. simpl. rewrite length_app. simpl. lia.
  - split.
    + exists 1%nat. simpl. unfold framesOf. now rewrite map_app.
    + simpl. rewrite textsOf_app. reflexivity.
Qed.

Lemma writes_drawOn (c : PDFGenerationContext) (op : DrawTextOp) :
  onLastPage c ->
  writes [opText op] c (setDoc c (drawOn (page c) op (doc c))).
Proof.
  intros H. split; [now repeat split|]. split.
  - unfold onLastPage. simpl. now rewrite drawOn_length.
  - split.
    + exists 0%nat. simpl. now rewrite framesOf_drawOn, app_nil_r.
    + simpl. now apply textsOf_drawOn_last.
Qed.

Lemma writes_afterPageCheck (room : Q) (c : PDFGenerationContext) :
  onLastPage c -> writes [] c (afterPageCheck room c).
Proof.
  intros H. unfold afterPageCheck.
  destruct (Qltb (currentY c) (margin c + room));
    [apply writes_startNewPage|now apply writes_refl].
Qed.

Lemma addHeading_writes (heading : JsString) (c : PDFGenerationContext) :
  onLastPage c ->
  encodingError (bold c) (stripUnsupported heading) = None ->
  writes [stripUnsupported heading] c (snd (addHeading heading c)).
Proof.
  intros H Henc.
  pose (c0 := afterPageCheck 100 c).
  pose (op := {| opText := stripUnsupported heading; opX := margin c0;
                 opY := currentY c0; opSize := PDF_CONFIG.HEADING_SIZE;
                 opFont := fontName (bold c0) |}).
  assert (E : snd (addHeading heading c)
              = setCurrentY (setDoc c0 (drawOn (page c0) op (doc c0)))
                  (currentY c0 - (PDF_CONFIG.HEADING_SIZE + 10))).
  { unfold addHeading, bind, get, ret, modify, drawText, op, c0,
      afterPageCheck.
    simpl. destruct (Qltb (currentY c) (margin c + 100)); simpl;
      now rewrite Henc. }
  rewrite E.
  pose proof (writes_afterPageCheck 100 H) as H0. fold c0 in H0.
  pose proof (writes_drawOn op (proj1 (proj2 H0))) as H1.
  pose proof (writes_setCurrentY
                (currentY c0 - (PDF_CONFIG.HEADING_SIZE + 10))
                (proj1 (proj2 H1))) as H2.
  exact (writes_trans (writes_trans H0 H1) H2).
Qed.

Lemma sameLayout_regular (c c' : PDFGenerationContext) :
  sameLayout c c' -> regular c' = regular c.
Proof. now intros (_ & H & _). Qed.

Lemma addLine_writes (line : JsString) (c : PDFGenerationContext) :
  onLastPage c ->
  writes (if drawnLine (regular c) line then [line] else []) c
    (snd (addLine line c)).
Proof.
  intros H.
  pose (c0 := afterPageCheck 20 c).
  pose (op := {| opText := line; opX := margin c0;
                 opY := currentY c0; opSize := PDF_CONFIG.TEXT_SIZE;
                 opFont := fontName (regular c0) |}).
  pose (c1 := if drawnLine (regular c) line
              then setDoc c0 (drawOn (page c0) op (doc c0)) else c0).
  assert (E : snd (addLine line c)
              = setCurrentY c1 (currentY c1 - PDF_CONFIG.LINE_HEIGHT)).
  { unfold addLine, bind, get, ret, modify, tryCatch, drawText, c1, op, c0,
      afterPageCheck, drawnLine, drawable.
    simpl. destruct (Qltb (currentY c) (margin c + 20)); simpl;
      destruct (isBlank line); simpl; try reflexivity;
      destruct (encodingError (regular c) line); reflexivity. }
  rewrite E.
  pose proof (writes_afterPageCheck 20 H) as H0. fold c0 in H0.
  assert (H1 : writes (if drawnLine (regular c) line then [line] else [])
                 c0 c1).
  { unfold c1. destruct (drawnLine (regular c) line).
    - exact (writes_drawOn op (proj1 (proj2 H0))).
    - exact (writes_refl (proj1 (proj2 H0))). }
  pose proof (writes_setCurrentY (currentY c1 - PDF_CONFIG.LINE_HEIGHT)
                (proj1 (proj2 H1))) as H2.
  pose proof (writes_trans (writes_trans H0 H1) H2) as H3.
  simpl in H3. now rewrite app_nil_r in H3.
Qed.

Lemma forEach_addLine_writes (lines : list JsString) :
  forall c,
    onLastPage c ->
    writes (filter (drawnLine (regular c)) lines) c
      (snd (forEach lines addLine c)).
Proof.
  induction lines as [|l ls IH]; intros c H; simpl.
  - now apply writes_refl.
  - unfold bind. pose proof (addLine_returns l c) as Hr.
    pose proof (addLine_writes l H) as Hw.
    destruct (addLine l c) as [[e|[]] c1]; simpl in Hr, Hw; [discriminate|].
    pose proof (IH c1 (proj1 (proj2 Hw))) as Hrest.
    rewrite (sameLayout_regular (proj1 Hw)) in Hrest.
    pose proof (writes_trans Hw Hrest) as Ht.
    destruct (drawnLine (regular c) l); exact Ht.
Qed.

Lemma wrapText_sameLayout (text : JsString) (c c' : PDFGenerationContext) :
  sameLayout c c' -> wrapText text c' = wrapText text c.
Proof.
  intros (_ & Hr & Hw & _ & Hm). unfold wrapText. now rewrite Hr, Hw, Hm.
Qed.

Lemma addSection_writes (heading content : JsString)
    (c : PDFGenerationContext) :
  onLastPage c ->
  encodingError (bold c) (stripUnsupported heading) = None ->
  writes (sectionTexts heading content c) c
    (snd (addSection heading content c)).
Proof.
  intros H Henc. unfold addSection, bind at 1.
  pose proof (addHeading_returns heading c Henc) as Hr.
  pose proof (addHeading_writes heading H Henc) as Hw.
  destruct (addHeading heading c) as [[e|[]] c1]; simpl in Hr, Hw;
    [discriminate|].
  unfold bind, get, modify.
  pose proof (forEach_addLine_returns
                (wrapText (stripUnsupported content) c1) c1) as Hl.
  pose proof (forEach_addLine_writes
                (wrapText (stripUnsupported content) c1)
                (proj1 (proj2 Hw))) as Hls.
  destruct (forEach _ addLine c1) as [[e|[]] c2]; simpl in Hl, Hls;
    [discriminate|].
  simpl.
  rewrite (sameLayout_regular (proj1 Hw)),
    (wrapText_sameLayout _ (proj1 Hw)) in Hls.
  pose proof (writes_setCurrentY (currentY c2 - 20) (proj1 (proj2 Hls)))
    as Hend.
  pose proof (writes_trans (writes_trans Hw Hls) Hend) as Ht.
  simpl in Ht. rewrite app_nil_r in Ht. exact Ht.
Qed.


Lemma addTitle_onLastPage (title : JsString) (c : PDFGenerationContext) :
  onLastPage c -> onLastPage (snd (addTitle title c)).
Proof.
  intros H. unfold addTitle, bind, get, modify, drawText. simpl.
  destruct (encodingError (bold c) (stripUnsupported title)); simpl;
    [exact H|].
  unfold onLastPage. simpl. now rewrite drawOn_length.
Qed.

Lemma addSection_onLastPage (heading content : JsString)
    (c : PDFGenerationContext) :
  onLastPage c -> onLastPage (snd (addSection heading content c)).
Proof.
  intros H.
  destruct (encodingError (bold c) (stripUnsupported heading)) eqn:E.
  - unfold addSection, addHeading, bind, get, ret, modify, drawText,
      startNewPage.
    simpl. destruct (Qltb (currentY c) (margin c + 100)); simpl;
      rewrite E; simpl; [|exact H].
    unfold onLastPage. simpl. rewrite length_app. simpl. lia.
  - exact (proj1 (proj2 (addSection_writes heading content H E))).
Qed.

(** [generatePDF] calls [embedUploadedPDF] in such a context: after the
    title and the three sections, whether they returned or threw, the
    current page is the last page of the document. *)
Lemma embedUploadedPDF_called_on_last_page
    (w : World) (submission : UserSubmission)
    (helveticaBold helvetica : PDFFont) :
  onLastPage
    (snd ((addTitle (js "Application Summary") ;;;
           addSection (js "Applicant Information")
             (generateApplicantInfo w submission) ;;;
           addSection (js "Current Job Description")
             (jobDescription submission) ;;;
           addSection (js "Uploaded Document")
             (generateDocumentInfo submission))
            (initialContext helveticaBold helvetica))).
Proof.
  assert (H0 : onLastPage (initialContext helveticaBold helvetica))
    by reflexivity.
  unfold bind.
  pose proof (addTitle_onLastPage (js "Application Summary") H0) as H1.
  destruct (addTitle _ _) as [[e|[]] c1]; [exact H1|]. simpl in H1.
  pose proof (addSection_onLastPage (js "Applicant Information")
                (generateApplicantInfo w submission) H1) as H2.
  destruct (addSection _ _ c1) as [[e|[]] c2]; [exact H2|]. simpl in H2.
  pose proof (addSection_onLastPage (js "Current Job Description")
                (jobDescription submission) H2) as H3.
  destruct (addSection _ _ c2) as [[e|[]] c3]; [exact H3|]. simpl in H3.
  exact (addSection_onLastPage (js "Uploaded Document")
           (generateDocumentInfo submission) H3).
Qed.

(** ** The status of a submission *)

(** Case analysis on an outcome the goal branches on, innermost first. *)
Ltac break_match :=
  match goal with
  | |- context [match ?x with _ => _ end] =>
      lazymatch x with
      | context [match _ with _ => _ end] => fail
      | _ => destruct x eqn:?
      end
  end.

(** C7. The writes of [POST] to the table give the record a history of
    statuses that follows the machine pending -> processing -> completed |
    failed. Either nothing is written; or the record is created with the
    status [processing], which is not final, and then at most one update
    follows on that record: to [failed] when [generatePDF] threw, to
    [completed], with the path of the PDF, when it returned. *)
Theorem POST_status_follows_machine (w : RouteWorld) :
  followsMachine (map writtenStatus (snd (POST w [])))
  /\ (snd (POST w []) = []
      \/ exists row,
          status row = statusValue PROCESSING
          /\ (snd (POST w []) = [DbCreate row]
              \/ (snd (POST w [])
                  = [DbCreate row;
                     DbUpdate (id row) (statusValue FAILED) None]
                  /\ exists e, generatePDF (gen w) row = inl e)
              \/ (exists pdfPath,
                   snd (POST w [])
                   = [DbCreate row;
                      DbUpdate (id row) (statusValue COMPLETED) (Some pdfPath)]
                   /\ generatePDF (gen w) row = inr pdfPath))).
Proof.
  unfold POST, tryPOST, bind, await, awaitVoid, throw, modify, ret.
  repeat (break_match; simpl).
  all: (split;
        [unfold followsMachine; simpl; repeat split;
         first [exact I | now right | constructor]|]).
  all: try (left; reflexivity).
  all: right;
    match goal with
    | |- context [DbCreate ?r :: _] => exists r
    end;
    (split; [reflexivity|]).
  all: first
         [ left; reflexivity
         | right; left; split; [reflexivity|eexists; eassumption]
         | right; right; eexists; split; [reflexivity|eassumption] ].
Qed.

(** ** The download route *)

Lemma strEq_eq (a b : JsString) : strEq a b = true <-> a = b.
Proof.
  revert b. induction a as [|x a IH]; intros [|y b]; simpl;
    try (split; [discriminate|discriminate]).
  - split; reflexivity.
  - rewrite andb_true_iff, N.eqb_eq, IH. split.
    + intros [-> ->]. reflexivity.
    + intros H. inversion H. now split.
Qed.

Lemma tryGET_spec (w : RouteWorld) (id : JsString) :
  match tryGET w id with
  | inr response =>
      exists bytes,
        validId id /\ pdfRecorded w id bytes /\ servesPdf response bytes
  | inl e =>
      routeError e /\ forall bytes, ~ (validId id /\ pdfRecorded w id bytes)
  end.
Proof.
  unfold tryGET, andThen, awaited.
  destruct (negb (truthy id) || (length id <? 10)%nat) eqn:Eid.
  { split; [simpl; auto|]. intros bytes [[Ht Hl] _].
    apply orb_true_iff in Eid. destruct Eid as [E|E].
    - rewrite Ht in E. discriminate.
    - apply Nat.ltb_lt in E. lia. }
  apply orb_false_iff in Eid. destruct Eid as [Et El].
  apply negb_false_iff in Et. apply Nat.ltb_ge in El.
  destruct (db_findUnique w id) as [f|[submission|]] eqn:Efind.
  { split; [exact I|]. intros bytes [_ (s' & p' & H & _)]. congruence. }
  2: { split; [simpl; auto|]. intros bytes [_ (s' & p' & H & _)]. congruence. }
  destruct (strEq (status submission) (statusValue PROCESSING)) eqn:Eproc.
  { split; [simpl; auto|]. intros bytes [_ (s' & p' & H & Hs & _)].
    apply strEq_eq in Eproc. congruence. }
  destruct (strEq (status submission) (statusValue FAILED)) eqn:Efail.
  { split; [simpl; auto|]. intros bytes [_ (s' & p' & H & _ & Hs & _)].
    apply strEq_eq in Efail. congruence. }
  destruct (generatedPdfPath submission) as [pdfPath|] eqn:Epath; simpl.
  2: { split; [simpl; auto|].
       intros bytes [_ (s' & p' & H & _ & _ & Hp & _)]. congruence. }
  destruct (truthy pdfPath) eqn:Etp; simpl.
  2: { split; [simpl; auto|].
       intros bytes [_ (s' & p' & H & _ & _ & Hp & Htp & _)]. congruence. }
  destruct (fs_access (gen w) pdfPath) as [fileError|] eqn:Eacc.
  { split; [simpl; auto|].
    intros bytes [_ (s' & p' & H & _ & _ & Hp & _ & Ha & _)]. congruence. }
  destruct (fs_readFile (gen w) pdfPath) as [f|pdfBuffer] eqn:Eread.
  { split; [exact I|].
    intros bytes [_ (s' & p' & H & _ & _ & Hp & _ & _ & Hr & _)]. congruence. }
  destruct (length pdfBuffer =? 0)%nat eqn:Elen.
  { split; [simpl; auto|].
    intros bytes [_ (s' & p' & H & _ & _ & Hp & _ & _ & Hr & Hne)].
    apply Nat.eqb_eq in Elen.
    assert (bytes = pdfBuffer) by congruence. subst bytes.
    destruct pdfBuffer; [congruence|discriminate]. }
  exists pdfBuffer. split; [now split|]. split.
  - exists submission, pdfPath. repeat split; try assumption.
    + intros H. apply strEq_eq in H. congruence.
    + intros H. apply strEq_eq in H. congruence.
    + intros ->. discriminate.
  - repeat split. simpl. now left.
Qed.

Lemma pdfRecorded_unique (w : RouteWorld) (id : JsString) (b1 b2 : list N) :
  pdfRecorded w id b1 -> pdfRecorded w id b2 -> b1 = b2.
Proof.
  intros (s1 & p1 & F1 & _ & _ & P1 & _ & _ & R1 & _)
         (s2 & p2 & F2 & _ & _ & P2 & _ & _ & R2 & _).
  congruence.
Qed.

(** C8, as amended. Provided [handleApiError] hands back the status code of
    an [ApplicationError] and gives any other error a code outside
    200..299: [GET] serves the generated PDF bytes (status 200,
    Content-Type application/pdf) exactly when the id passes the format
    check (not empty, at least ten characters), the submission exists, its
    status is neither [processing] nor [failed], a generated PDF path is
    recorded and the file exists, not empty, on disk; in every other case
    the response is a JSON error, with no PDF body, whose status code is 202
    or outside 200..299. *)
Theorem GET_serves_pdf_exactly_when_available
    (w : RouteWorld) (id : JsString) :
  (forall message code,
      snd (handleApiError w (ApplicationError message code)) = code) ->
  (forall f, ~ (200 <= snd (handleApiError w (Lib f)) < 300)%Z) ->
  (forall bytes,
      validId id /\ pdfRecorded w id bytes <-> servesPdf (GET w id) bytes)
  /\ ((forall bytes, ~ (validId id /\ pdfRecorded w id bytes)) ->
      isErrorResponse (GET w id)).
Proof.
  intros Happ Hlib.
  pose proof (tryGET_spec w id) as Hspec. unfold GET.
  destruct (tryGET w id) as [e|response].
  - destruct Hspec as [He Hno].
    assert (Herr : isErrorResponse
                     (let (message, statusCode) := handleApiError w e in
                      {| resStatus := statusCode; resHeaders := [];
                         resBody := ErrorJson message |})).
    { destruct e as [m code|f].
      - specialize (Happ m code).
        destruct (handleApiError w (ApplicationError m code)) as [msg st].
        simpl in Happ. subst st. split; [eexists; reflexivity|]. simpl.
        simpl in He. destruct He as [-> | [-> | [-> | ->]]];
          first [now left | right; lia].
      - specialize (Hlib f).
        destruct (handleApiError w (Lib f)) as [msg st]. simpl in Hlib.
        split; [eexists; reflexivity|]. simpl. now right. }
    split.
    + intros bytes. split.
      * intros H. exfalso. exact (Hno bytes H).
      * intros [Hb _]. exfalso.
        destruct Herr as [[msg Hm] _]. congruence.
    + intros _. exact Herr.
  - destruct Hspec as (bytes & Hv & Hrec & Hserve). split.
    + intros bytes'. split.
      * intros [_ Hrec']. now rewrite (pdfRecorded_unique Hrec' Hrec).
      * intros [Hb _]. destruct Hserve as [Hb' _].
        assert (bytes' = bytes) by congruence. subst. now split.
    + intros Hno. exfalso. exact (Hno bytes (conj Hv Hrec)).
Qed.

Lemma GET_serves_pdf_exactly_when_available_witness :
  (forall bytes,
      validId (js "cmgh2k9x40000abcd")
      /\ pdfRecorded SampleRoutes.world (js "cmgh2k9x40000abcd") bytes
      <-> servesPdf (GET SampleRoutes.world (js "cmgh2k9x40000abcd")) bytes)
  /\ ((forall bytes,
          ~ (validId (js "cmgh2k9x40000abcd")
             /\ pdfRecorded SampleRoutes.world (js "cmgh2k9x40000abcd") bytes)) ->
      isErrorResponse (GET SampleRoutes.world (js "cmgh2k9x40000abcd"))).
Proof.
  apply (@GET_serves_pdf_exactly_when_available
           SampleRoutes.world (js "cmgh2k9x40000abcd")).
  - intros message code. reflexivity.
  - intros f. simpl. lia.
Defined.

(** C8 as stated fails: the submission with the id [abc] exists, is
    completed, and its PDF is on disk, not empty; the route answers 400
    without looking it up, because the id is shorter than ten
    characters. *)
Lemma GET_rejects_short_id_of_available_pdf :
  pdfRecorded SampleRoutes.world (js "abc") [37; 80; 68; 70]%N
  /\ GET SampleRoutes.world (js "abc")
     = {| resStatus := 400; resHeaders := [];
          resBody := ErrorJson (js "Invalid submission ID") |}
  /\ ~ servesPdf (GET SampleRoutes.world (js "abc")) [37; 80; 68; 70]%N.
Proof.
  split; [|split].
  - exists SampleRoutes.shortIdSubmission, SampleRoutes.pdfPath.
    repeat split; try reflexivity; discriminate.
  - reflexivity.
  - intros [H _]. vm_compute in H. discriminate.
Qed.


(** With the uploaded file in place, the divider section reads as
    follows, and the two uploaded pages follow the generated one. *)
Lemma embedUploadedPDF_divides_and_embeds :
  textsOf (doc (snd (embedUploadedPDF SampleWorld.world
                       SampleWorld.uploadPath Sample.context)))
  = [ js "Attached Resume/Document";
      js "The following 2 page(s) contain the uploaded document:" ]
  /\ framesOf (doc (snd (embedUploadedPDF SampleWorld.world
                           SampleWorld.uploadPath Sample.context)))
     = framesOf (doc Sample.context) ++ framesOf SampleWorld.uploaded.
Proof. split; vm_compute; reflexivity. Qed.

(** Once the uploaded file has been removed, the section that stands for it
    reads as follows. *)
Lemma embedUploadedPDF_explains_removed_file :
  textsOf (doc (snd (embedUploadedPDF SampleWorld.fileRemoved
                       SampleWorld.uploadPath Sample.context)))
  = [ js "Attached Document";
      js "Document was uploaded but could not be embedded in this PDF. Error: ENOENT: no such";
      js "file or directory" ].
Proof. vm_compute. reflexivity. Qed.

Lemma addSection_starts_pages_when_low_witness :
  doc (snd (addLine (js "Rocq") Sample.lowContext))
  = doc Sample.lowContext ++ [linePage (js "Rocq") Sample.lowContext]
  /\ page (snd (addLine (js "Rocq") Sample.lowContext))
     = length (doc Sample.lowContext)
  /\ currentY (snd (addLine (js "Rocq") Sample.lowContext))
     = pageHeight Sample.lowContext - margin Sample.lowContext
       - PDF_CONFIG.LINE_HEIGHT.
Proof.
  apply (proj1 (proj2 (proj2 (proj2
           (@addSection_starts_pages_when_low
              (js "Skills") (js "Rocq") (js "Rocq") Sample.lowContext))))).
  reflexivity.
Defined.

(** ** Two calls of the renderer *)

Lemma bind_ext {S A B : Type} (m : M S A) (k1 k2 : A -> M S B) (s : S) :
  (forall a s', k1 a s' = k2 a s') -> bind m k1 s = bind m k2 s.
Proof.
  intros H. unfold bind. destruct (m s) as [[e|a] s']; [reflexivity|apply H].
Qed.

Lemma embedUploadedPDF_agree (w1 w2 : World) (submission : UserSubmission)
    (filePath : JsString) (c : PDFGenerationContext) :
  sameInputs w1 w2 submission ->
  uploadedFilePath submission = Some filePath ->
  embedUploadedPDF w1 filePath c = embedUploadedPDF w2 filePath c.
Proof.
  intros (_ & _ & _ & H) Hp.
  destruct (H filePath Hp) as (Hacc & Hbase & Hfile).
  unfold embedUploadedPDF, tryCatch, bind, await, awaitVoid.
  rewrite <- Hacc, <- Hbase.
  destruct (fs_access w1 filePath); [reflexivity|].
  destruct (Hfile eq_refl) as [Hread Hload]. rewrite <- Hread.
  destruct (fs_readFile w1 filePath) as [e|bytes] eqn:Er; [reflexivity|].
  destruct (Hload bytes eq_refl) as [Hl Hcopy]. rewrite <- Hl.
  destruct (pdf_load w1 bytes) as [e|uploadedPdf] eqn:El; [reflexivity|].
  rewrite <- (Hcopy uploadedPdf eq_refl). reflexivity.
Qed.

Lemma renderDocument_agree (w1 w2 : World) (submission : UserSubmission) :
  sameInputs w1 w2 submission ->
  pdf_create w1 = pdf_create w2 ->
  renderDocument w1 submission = renderDocument w2 submission.
Proof.
  intros Hs Hc. unfold renderDocument, generateApplicantInfo.
  pose proof Hs as (Hb & Hh & Hd & Hf).
  rewrite <- Hc, <- Hb, <- Hh, <- Hd. unfold andThen.
  destruct (awaitedVoid (pdf_create w1)); [reflexivity|].
  destruct (awaited (pdf_embedFont w1 HelveticaBold)) as [e|helveticaBold];
    [reflexivity|].
  destruct (awaited (pdf_embedFont w1 Helvetica)) as [e|helvetica];
    [reflexivity|].
  match goal with
  | |- match ?m1 ?c with _ => _ end = match ?m2 ?c with _ => _ end =>
      replace (m2 c) with (m1 c); [reflexivity|]
  end.
  apply bind_ext. intros _ s1.
  apply bind_ext. intros _ s2.
  apply bind_ext. intros _ s3.
  apply bind_ext. intros _ s4.
  destruct (uploadedFilePath submission) as [filePath|] eqn:Ep;
    [|reflexivity].
  destruct (truthy filePath); [|reflexivity].
  now apply embedUploadedPDF_agree with submission.
Qed.

Lemma generatePDF_saved (w : World) (submission : UserSubmission)
    (pdfPath : JsString) :
  generatePDF w submission = inr pdfPath ->
  exists d bytes,
    renderDocument w submission = inr d
    /\ pdf_save w d = inr bytes
    /\ fs_writeFile w pdfPath bytes = None
    /\ pdf_create w = None.
Proof.
  unfold generatePDF. intros H.
  destruct (tryGeneratePDF w submission) as [[m code|[m|]]|p] eqn:Et;
    try discriminate.
  injection H as ->.
  unfold tryGeneratePDF, andThen, awaited, awaitedVoid in Et.
  destruct (renderDocument w submission) as [e|d] eqn:Er; [discriminate|].
  destruct (pdf_save w d) as [e|bytes] eqn:Es; [discriminate|].
  destruct (length bytes =? 0)%nat; [discriminate|].
  destruct (fs_mkdir w _); [discriminate|].
  destruct (fs_writeFile w _ bytes) eqn:Ew; [discriminate|].
  destruct (fs_accessWritten w _); [discriminate|].
  destruct (fs_readWritten w _) as [e|stats]; [discriminate|].
  destruct (length stats =? 0)%nat; [discriminate|].
  injection Et as <-.
  exists d, bytes. repeat split; try assumption.
  unfold renderDocument, andThen, awaitedVoid in Er.
  destruct (pdf_create w); [discriminate|reflexivity].
Qed.

(** C6, as amended. Two calls of [generatePDF] on the same submission, in
    two worlds in which the renderer reads the same inputs (fonts, formatted
    date, uploaded file) and which may differ in everything else, among
    which the bytes [save] returns: when both calls return, each has
    written the saved bytes of its document, and the two documents have the
    same number of pages and the same text content. *)
Theorem generatePDF_twice_same_pages_and_text
    (w1 w2 : World) (submission : UserSubmission) (path1 path2 : JsString) :
  sameInputs w1 w2 submission ->
  generatePDF w1 submission = inr path1 ->
  generatePDF w2 submission = inr path2 ->
  exists d1 d2 bytes1 bytes2,
    (renderDocument w1 submission = inr d1
     /\ pdf_save w1 d1 = inr bytes1
     /\ fs_writeFile w1 path1 bytes1 = None)
    /\ (renderDocument w2 submission = inr d2
        /\ pdf_save w2 d2 = inr bytes2
        /\ fs_writeFile w2 path2 bytes2 = None)
    /\ length d1 = length d2
    /\ textContent d1 = textContent d2.
Proof.
  intros Hs H1 H2.
  destruct (generatePDF_saved _ _ H1) as (d1 & b1 & Hr1 & Hs1 & Hw1 & Hc1).
  destruct (generatePDF_saved _ _ H2) as (d2 & b2 & Hr2 & Hs2 & Hw2 & Hc2).
  exists d1, d2, b1, b2.
  assert (d1 = d2).
  { pose proof (@renderDocument_agree w1 w2 submission Hs) as Ha.
    rewrite Hr1, Hr2 in Ha. rewrite Hc1, Hc2 in Ha.
    specialize (Ha eq_refl). congruence. }
  subst d2. repeat split; assumption.
Qed.

Lemma generatePDF_twice_same_pages_and_text_witness :
  exists d1 d2 bytes1 bytes2,
    (renderDocument SampleWorld.world SampleWorld.submission = inr d1
     /\ pdf_save SampleWorld.world d1 = inr bytes1
     /\ fs_writeFile SampleWorld.world
          (js "/srv/app/uploads/generated/application-cmgh2k9x40000abcd.pdf")
          bytes1 = None)
    /\ (renderDocument SampleWorld.laterWorld SampleWorld.submission = inr d2
        /\ pdf_save SampleWorld.laterWorld d2 = inr bytes2
        /\ fs_writeFile SampleWorld.laterWorld
             (js "/srv/app/uploads/generated/application-cmgh2k9x40000abcd.pdf")
             bytes2 = None)
    /\ length d1 = length d2
    /\ textContent d1 = textContent d2.
Proof.
  apply (@generatePDF_twice_same_pages_and_text
           SampleWorld.world SampleWorld.laterWorld SampleWorld.submission).
  - repeat split; reflexivity.
  - vm_compute. reflexivity.
  - vm_compute. reflexivity.
Defined.

(** C6 as stated fails when the world changes between the two calls: once
    the uploaded file has been removed, the second call on the same
    submission still returns, with a document of one page where the first
    has three, and with other texts. *)
Lemma generatePDF_twice_differs_once_file_removed :
  exists path1 path2 d1 d2,
    generatePDF SampleWorld.world SampleWorld.submission = inr path1
    /\ generatePDF SampleWorld.fileRemoved SampleWorld.submission = inr path2
    /\ renderDocument SampleWorld.world SampleWorld.submission = inr d1
    /\ renderDocument SampleWorld.fileRemoved SampleWorld.submission = inr d2
    /\ length d1 = 3%nat /\ length d2 = 1%nat
    /\ textContent d1 <> textContent d2.
Proof.
  destruct (generatePDF SampleWorld.world SampleWorld.submission)
    as [e|path1] eqn:E1; [vm_compute in E1; discriminate|].
  destruct (generatePDF SampleWorld.fileRemoved SampleWorld.submission)
    as [e|path2] eqn:E2; [vm_compute in E2; discriminate|].
  destruct (renderDocument SampleWorld.world SampleWorld.submission)
    as [e|d1] eqn:R1; [vm_compute in R1; discriminate|].
  destruct (renderDocument SampleWorld.fileRemoved SampleWorld.submission)
    as [e|d2] eqn:R2; [vm_compute in R2; discriminate|].
  exists path1, path2, d1, d2.
  vm_compute in R1, R2. injection R1 as <-. injection R2 as <-.
  repeat (split; [reflexivity|]).
  intros H. apply (f_equal (@length _)) in H. vm_compute in H. discriminate.
Qed.

(* ------------------------------------------------------------------ *)
(** * Further properties of the generator and the routes *)

(** ** The document only grows *)

Lemma pageExtends_refl (p : PDFPage) : pageExtends p p.
Proof. repeat split. exists []. now rewrite app_nil_r. Qed.

Lemma pageExtends_trans (p1 p2 p3 : PDFPage) :
  pageExtends p1 p2 -> pageExtends p2 p3 -> pageExtends p1 p3.
Proof.
  intros (A1 & A2 & A3 & m1 & A4) (B1 & B2 & B3 & m2 & B4).
  repeat split; try congruence.
  exists (m1 ++ m2). now rewrite B4, A4, app_assoc.
Qed.

Lemma docExtends_refl (d : PDFDocument) : docExtends d d.
Proof.
  induction d as [|p d IH]; simpl; [exact I|].
  split; [apply pageExtends_refl|exact IH].
Qed.

Lemma docExtends_trans (d1 : PDFDocument) :
  forall d2 d3, docExtends d1 d2 -> docExtends d2 d3 -> docExtends d1 d3.
Proof.
  induction d1 as [|p1 d1 IH]; intros [|p2 d2] [|p3 d3] H12 H23; simpl in *;
    try exact I; try contradiction.
  destruct H12 as [P12 D12]. destruct H23 as [P23 D23].
  split; [now apply pageExtends_trans with p2|now apply IH with d2].
Qed.

Lemma docExtends_app (d more : PDFDocument) : docExtends d (d ++ more).
Proof.
  induction d as [|p d IH]; simpl; [exact I|].
  split; [apply pageExtends_refl|exact IH].
Qed.

Lemma docExtends_drawOn (i : nat) (op : DrawTextOp) (d : PDFDocument) :
  docExtends d (drawOn i op d).
Proof.
  revert i. induction d as [|p d IH]; intros i; simpl; [exact I|].
  destruct i as [|i]; simpl.
  - split; [|apply docExtends_refl]. repeat split. now exists [op].
  - split; [apply pageExtends_refl|apply IH].
Qed.

Lemma docExtends_length (d : PDFDocument) :
  forall d', docExtends d d' -> (length d <= length d')%nat.
Proof.
  induction d as [|p d IH]; intros [|p' d'] H; simpl in *;
    try lia; try contradiction.
  destruct H as [_ H]. apply IH in H. lia.
Qed.

Lemma docExtends_nth (d : PDFDocument) :
  forall d' i p,
    docExtends d d' -> nth_error d i = Some p ->
    exists p', nth_error d' i = Some p' /\ pageExtends p p'.
Proof.
  induction d as [|q d IH]; intros [|q' d'] i p H Hn; simpl in *;
    try contradiction; try (destruct i; discriminate).
  destruct H as [Hq Hd]. destruct i as [|i]; simpl in *.
  - injection Hn as <-. now exists q'.
  - now apply IH.
Qed.

Lemma appendsOnly_ret {A : Type} (a : A) : appendsOnly (ret a).
Proof. intros c. split; [apply docExtends_refl|auto]. Qed.

Lemma appendsOnly_get : appendsOnly (@get PDFGenerationContext).
Proof. intros c. split; [apply docExtends_refl|auto]. Qed.

Lemma appendsOnly_setCurrentY (f : PDFGenerationContext -> Q) :
  appendsOnly (modify (fun c => setCurrentY c (f c))).
Proof. intros c. split; [apply docExtends_refl|auto]. Qed.

Lemma appendsOnly_await {A : Type} (o : Foreign + A) :
  appendsOnly (@await PDFGenerationContext A o).
Proof.
  intros c. unfold await. destruct o; (split; [apply docExtends_refl|auto]).
Qed.

Lemma appendsOnly_awaitVoid (o : option Foreign) :
  appendsOnly (@awaitVoid PDFGenerationContext o).
Proof.
  intros c. unfold awaitVoid. destruct o; (split; [apply docExtends_refl|auto]).
Qed.

Lemma appendsOnly_bind {A B : Type} (m : GenM A) (k : A -> GenM B) :
  appendsOnly m -> (forall a, appendsOnly (k a)) -> appendsOnly (bind m k).
Proof.
  intros Hm Hk c. destruct (Hm c) as [Hd Hp]. unfold bind.
  destruct (m c) as [[e|a] c1]; simpl in *; [now split|].
  destruct (Hk a c1) as [Hd' Hp']. split.
  - now apply docExtends_trans with (doc c1).
  - auto.
Qed.

Lemma appendsOnly_tryCatch {A : Type} (m : GenM A) (h : Thrown -> GenM A) :
  appendsOnly m -> (forall e, appendsOnly (h e)) -> appendsOnly (tryCatch m h).
Proof.
  intros Hm Hh c. destruct (Hm c) as [Hd Hp]. unfold tryCatch.
  destruct (m c) as [[e|a] c1]; simpl in *; [|now split].
  destruct (Hh e c1) as [Hd' Hp']. split.
  - now apply docExtends_trans with (doc c1).
  - auto.
Qed.

Lemma appendsOnly_forEach {A : Type} (xs : list A) (body : A -> GenM unit) :
  (forall x, appendsOnly (body x)) -> appendsOnly (forEach xs body).
Proof.
  intros Hb. induction xs as [|x xs IH]; simpl.
  - apply appendsOnly_ret.
  - apply appendsOnly_bind; [apply Hb|intros _; exact IH].
Qed.

Lemma appendsOnly_if {A : Type} (b : bool) (m1 m2 : GenM A) :
  appendsOnly m1 -> appendsOnly m2 -> appendsOnly (if b then m1 else m2).
Proof. now destruct b. Qed.

Lemma appendsOnly_drawText (text : JsString) (x y size : Q) (font : PDFFont) :
  appendsOnly (drawText text x y size font).
Proof.
  intros c. unfold drawText. destruct (encodingError font text); simpl.
  - split; [apply docExtends_refl|auto].
  - split; [apply docExtends_drawOn|].
    unfold pageInDoc. simpl. now rewrite drawOn_length.
Qed.

Lemma appendsOnly_startNewPage : appendsOnly startNewPage.
Proof.
  intros c. unfold startNewPage, modify. simpl. split.
  - apply docExtends_app.
  - intros _. unfold pageInDoc. simpl. rewrite length_app. simpl. lia.
Qed.

Lemma appendsOnly_addPage (copiedPage : PDFPage) :
  appendsOnly (modify (fun c => setDoc c (doc c ++ [copiedPage]))).
Proof.
  intros c. unfold modify. simpl. split.
  - apply docExtends_app.
  - unfold pageInDoc. simpl. rewrite length_app. simpl. lia.
Qed.

Create HintDb appends.
#[local] Hint Resolve appendsOnly_ret appendsOnly_get appendsOnly_setCurrentY
  appendsOnly_await appendsOnly_awaitVoid appendsOnly_drawText
  appendsOnly_startNewPage appendsOnly_addPage : appends.

Ltac appends_step :=
  first
    [ apply appendsOnly_bind; [|intros ?]
    | apply appendsOnly_tryCatch; [|intros ?]
    | apply appendsOnly_forEach; intros ?
    | apply appendsOnly_if
    | solve [auto with appends] ].

Lemma appendsOnly_addTitle (title : JsString) : appendsOnly (addTitle title).
Proof. unfold addTitle. repeat appends_step. Qed.

Lemma appendsOnly_addLine (line : JsString) : appendsOnly (addLine line).
Proof. unfold addLine. repeat appends_step. Qed.

Lemma appendsOnly_addHeading (heading : JsString) :
  appendsOnly (addHeading heading).
Proof. unfold addHeading. repeat appends_step. Qed.

Lemma appendsOnly_addSection (heading content : JsString) :
  appendsOnly (addSection heading content).
Proof.
  unfold addSection.
  apply appendsOnly_bind; [apply appendsOnly_addHeading|intros _].
  apply appendsOnly_bind; [apply appendsOnly_get|intros c].
  apply appendsOnly_bind; [|intros _; apply appendsOnly_setCurrentY].
  apply appendsOnly_forEach. apply appendsOnly_addLine.
Qed.

Lemma appendsOnly_embedUploadedPDF (w : World) (filePath : JsString) :
  appendsOnly (embedUploadedPDF w filePath).
Proof.
  unfold embedUploadedPDF, addCopiedPages.
  apply appendsOnly_tryCatch; [|intros e; apply appendsOnly_addSection].
  apply appendsOnly_bind; [apply appendsOnly_awaitVoid|intros _].
  apply appendsOnly_bind; [apply appendsOnly_await|intros bytes].
  apply appendsOnly_if; [apply appendsOnly_addSection|].
  destruct (pdf_load w bytes) as [e|uploadedPdf];
    [apply appendsOnly_addSection|].
  apply appendsOnly_if; [apply appendsOnly_addSection|].
  apply appendsOnly_tryCatch; [|intros e; apply appendsOnly_addSection].
  apply appendsOnly_bind; [apply appendsOnly_awaitVoid|intros _].
  apply appendsOnly_bind; [apply appendsOnly_addSection|intros _].
  apply appendsOnly_forEach. intros pg. apply appendsOnly_addPage.
Qed.

(** X1. [addTitle], [addSection] and [embedUploadedPDF] only add to the
    document, whether they return or throw: every page that was there
    stays in its place with its size and the texts it had, new texts come
    after the old ones, new pages come after the old pages; and
    [context.page] remains a page of the document. *)
Theorem generator_only_appends
    (w : World) (title heading content filePath : JsString)
    (c : PDFGenerationContext) :
  (docExtends (doc c) (doc (snd (addTitle title c)))
   /\ (pageInDoc c -> pageInDoc (snd (addTitle title c))))
  /\ (docExtends (doc c) (doc (snd (addSection heading content c)))
      /\ (pageInDoc c -> pageInDoc (snd (addSection heading content c))))
  /\ (docExtends (doc c) (doc (snd (embedUploadedPDF w filePath c)))
      /\ (pageInDoc c -> pageInDoc (snd (embedUploadedPDF w filePath c)))).
Proof.
  split; [apply appendsOnly_addTitle|].
  split; [apply appendsOnly_addSection|apply appendsOnly_embedUploadedPDF].
Qed.

(** ** The lines of [wrapText] *)

Lemma consHead_cases (c : CodeUnit) (l : list JsString) (w : JsString) :
  In w (consHead c l) ->
  (w = [c] /\ l = [])
  \/ exists h t, l = h :: t /\ (w = c :: h \/ In w t).
Proof.
  destruct l as [|h t]; simpl.
  - intros [<-|[]]. now left.
  - intros [<-|H]; right; exists h, t; auto.
Qed.

Lemma splitNewlines_pieces (s : JsString) :
  forall p, In p (splitNewlines s) -> incl p s /\ ~ In LF p.
Proof.
  induction s as [s IH] using (induction_ltof1 _ (@length CodeUnit)).
  unfold ltof in IH. intros p Hp.
  destruct s as [|c rest]; simpl in Hp.
  - destruct Hp as [<-|[]]. split; [apply incl_refl|intros []].
  - destruct (c =? LF)%N eqn:E.
    + destruct Hp as [<-|Hp]; [split; [intros x []|intros []]|].
      destruct (IH rest (Nat.lt_succ_diag_r _) p Hp) as [Hi Hn].
      split; [now apply incl_tl|assumption].
    + apply N.eqb_neq in E. destruct rest as [|d rest'].
      * destruct Hp as [<-|[]]. split; [apply incl_refl|].
        intros [H|[]]. congruence.
      * destruct ((c =? CR) && (d =? LF))%N.
        -- destruct Hp as [<-|Hp]; [split; [intros x []|intros []]|].
           destruct (IH rest') with (p := p) as [Hi Hn];
             [simpl; lia|assumption|].
           split; [now do 2 apply incl_tl|assumption].
        -- apply consHead_cases in Hp.
           destruct Hp as [[-> _]|(h & t & Hl & Hw)].
           ++ split; [intros x [<-|[]]; now left|].
              intros [H|[]]. congruence.
           ++ assert (Hrec : forall q, In q (h :: t) ->
                                 incl q (d :: rest') /\ ~ In LF q).
              { intros q Hq. rewrite <- Hl in Hq.
                apply IH; [simpl; lia|assumption]. }
              destruct Hw as [->|Hw].
              ** destruct (Hrec h (or_introl eq_refl)) as [Hi Hn]. split.
                 --- intros x [<-|Hx]; [now left|right; now apply Hi].
                 --- intros [H|H]; [congruence|contradiction].
              ** destruct (Hrec p (or_intror Hw)) as [Hi Hn].
                 split; [now apply incl_tl|assumption].
Qed.

Lemma Subseq_In {A : Type} (l1 l2 : list A) (x : A) :
  Subseq l1 l2 -> In x l1 -> In x l2.
Proof.
  induction 1; simpl; intros Hx; [contradiction| |right; auto].
  destruct Hx as [->|Hx]; [now left|right; auto].
Qed.

Lemma wrapParagraph_chars (font : PDFFont) (maxWidth : Q)
    (p line : JsString) (u : CodeUnit) :
  In line (wrapParagraph font maxWidth p) -> In u line ->
  u = SP \/ (In u p /\ isStripped u = false).
Proof.
  intros Hl Hu.
  destruct (wrapParagraph_groups font maxWidth p) as [groups (Hg & Hs & _)].
  rewrite Hg in Hl. apply in_map_iff in Hl. destruct Hl as [g [<- Hgin]].
  apply join_incl in Hu. destruct Hu as [<-|Hu]; [now left|right].
  apply in_concat in Hu. destruct Hu as [w [Hw Hu]].
  assert (Hin : In w (map stripUnsupported (split SP p))).
  { apply (@Subseq_In _ _ _ w Hs). apply in_concat. now exists g. }
  apply in_map_iff in Hin. destruct Hin as [w0 [<- Hw0]].
  unfold stripUnsupported in Hu. apply filter_In in Hu.
  destruct Hu as [Hu Hns]. apply negb_true_iff in Hns.
  split; [|assumption]. now apply (@split_incl _ _ _ Hw0).
Qed.

(** X2. Every code unit of every line [wrapText] returns is a space or a
    code unit of the text, is outside the stripped ranges, and is not a line
    feed: a line holds nothing the text did not hold and never runs over
    two lines. *)
Theorem wrapText_line_characters
    (text : JsString) (context : PDFGenerationContext)
    (line : JsString) (u : CodeUnit) :
  In line (wrapText text context) -> In u line ->
  u <> LF /\ isStripped u = false /\ (u = SP \/ In u text).
Proof.
  unfold wrapText. intros Hl Hu. apply in_flat_map in Hl.
  destruct Hl as [p [Hp Hl]].
  destruct (splitNewlines_pieces _ _ Hp) as [Hi Hn].
  destruct (wrapParagraph_chars _ _ _ _ _ Hl Hu) as [->|[Hup Hs]].
  - repeat split; [discriminate|now left].
  - repeat split; [congruence|assumption|right; now apply Hi].
Qed.

Lemma wrapText_line_characters_witness :
  109%N <> LF /\ isStripped 109%N = false
  /\ (109%N = SP \/ In 109%N Sample.longWord).
Proof.
  apply (@wrapText_line_characters
           Sample.longWord Sample.context Sample.longWord 109%N).
  - vm_compute. left. reflexivity.
  - vm_compute. left. reflexivity.
Defined.

Section WrapShape.

Variables (font : PDFFont) (maxWidth : Q).

Let emptyOrWord (l : JsString) : Prop := l = [] \/ startsWithWord l.

Lemma word_emptyOrWord (w : JsString) : ~ In SP w -> emptyOrWord w.
Proof.
  intros H. destruct w as [|u rest]; [now left|right].
  exists u, rest. split; [reflexivity|]. intros ->. apply H. now left.
Qed.

Lemma wrapWord_shape (lines : list JsString) (cur word : JsString) :
  Forall startsWithWord lines -> emptyOrWord cur -> ~ In SP word ->
  Forall startsWithWord (fst (wrapWord font maxWidth (lines, cur) word))
  /\ emptyOrWord (snd (wrapWord font maxWidth (lines, cur) word)).
Proof.
  intros Hl Hc Hw.
  assert (Hcw : emptyOrWord (stripUnsupported word)).
  { apply word_emptyOrWord. intros H. apply Hw.
    eapply stripUnsupported_In; eassumption. }
  unfold wrapWord.
  destruct (widthOfTextAtSize font _ _) as [textWidth|]; simpl; [|now split].
  destruct cur as [|u rest]; simpl.
  - rewrite andb_false_r. now split.
  - destruct Hc as [Hc|(u' & rest' & Hc & Hu)]; [discriminate|].
    injection Hc as <- <-.
    assert (Hs : startsWithWord (u :: rest)) by now exists u, rest.
    destruct (Qgtb textWidth maxWidth); simpl.
    + split; [|assumption].
      apply Forall_app. split; [assumption|now constructor].
    + split; [assumption|]. right.
      now exists u, (rest ++ SP :: stripUnsupported word).
Qed.

Lemma wrapWords_shape (words : list JsString) :
  forall st,
    Forall (fun w => ~ In SP w) words ->
    Forall startsWithWord (fst st) -> emptyOrWord (snd st) ->
    Forall startsWithWord (fst (fold_left (wrapWord font maxWidth) words st))
    /\ emptyOrWord (snd (fold_left (wrapWord font maxWidth) words st)).
Proof.
  induction words as [|w ws IH]; intros [lines cur] Hws Hl Hc; simpl in *.
  - now split.
  - inversion Hws; subst.
    destruct (wrapWord_shape w Hl Hc) as [Hl' Hc']; [assumption|].
    apply IH; assumption.
Qed.

Lemma wrapParagraph_shape (p : JsString) :
  isBlank p = false ->
  Forall startsWithWord (wrapParagraph font maxWidth p).
Proof.
  intros Hb. unfold wrapParagraph. rewrite Hb.
  destruct (@wrapWords_shape (split SP p) ([], [])) as [Hl Hc].
  - apply split_no_sep.
  - constructor.
  - now left.
  - destruct (fold_left _ _ _) as [lines cur]; simpl in *.
    destruct cur as [|u rest]; simpl; [assumption|].
    apply Forall_app. split; [assumption|]. constructor; [|constructor].
    destruct Hc as [Hc|Hc]; [discriminate|assumption].
Qed.

Lemma wrapWord_heldLines (st : list JsString * JsString) (word : JsString) :
  (heldLines (wrapWord font maxWidth st word) <= S (heldLines st))%nat.
Proof.
  destruct st as [lines cur]. unfold wrapWord, heldLines.
  destruct (widthOfTextAtSize font _ _) as [textWidth|]; simpl; [|lia].
  destruct (Qgtb textWidth maxWidth); destruct (truthy cur) eqn:Et; simpl;
    try rewrite length_app; simpl;
    repeat match goal with
           | |- context [if truthy ?x then _ else _] => destruct (truthy x)
           end; lia.
Qed.

Lemma wrapWords_heldLines (words : list JsString) :
  forall st,
    (heldLines (fold_left (wrapWord font maxWidth) words st)
     <= heldLines st + length words)%nat.
Proof.
  induction words as [|w ws IH]; intros st; simpl; [lia|].
  specialize (IH (wrapWord font maxWidth st w)).
  pose proof (wrapWord_heldLines st w). lia.
Qed.

Lemma wrapParagraph_length (p : JsString) :
  (length (wrapParagraph font maxWidth p) <= length (split SP p))%nat.
Proof.
  unfold wrapParagraph. destruct (isBlank p).
  - pose proof (split_not_nil SP p). destruct (split SP p); simpl;
      [congruence|lia].
  - pose proof (wrapWords_heldLines (split SP p) ([], [])) as H.
    unfold heldLines in H. simpl in H.
    destruct (fold_left _ _ _) as [lines cur]; simpl in *.
    destruct (truthy cur); [rewrite length_app; simpl|]; lia.
Qed.

End WrapShape.

(** X3. A line [wrapText] returns is empty only for a blank paragraph
    of the text; every other line starts with a character that is not a
    space: a paragraph that has a word never yields an empty or an
    indented line. *)
Theorem wrapText_lines_start_with_a_word
    (text : JsString) (context : PDFGenerationContext) (line : JsString) :
  In line (wrapText text context) ->
  (line = [] /\ exists p, In p (splitNewlines text) /\ isBlank p = true)
  \/ startsWithWord line.
Proof.
  unfold wrapText. intros Hl. apply in_flat_map in Hl.
  destruct Hl as [p [Hp Hl]]. destruct (isBlank p) eqn:Eb.
  - left. unfold wrapParagraph in Hl. rewrite Eb in Hl.
    destruct Hl as [<-|[]]. split; [reflexivity|now exists p].
  - right.
    pose proof (wrapParagraph_shape (regular context)
                  (pageWidth context - 2 * margin context) p Eb) as HF.
    rewrite Forall_forall in HF. now apply HF.
Qed.

Lemma wrapText_lines_start_with_a_word_witness :
  (js "Rocq  " = []
   /\ exists p, In p (splitNewlines (js "  Rocq   and Lean"))
                /\ isBlank p = true)
  \/ startsWithWord (js "Rocq  ").
Proof.
  apply (@wrapText_lines_start_with_a_word
           (js "  Rocq   and Lean")
           {| doc := []; page := 0; bold := Sample.font HelveticaBold;
              regular := Sample.font Helvetica; currentY := 700;
              pageWidth := 150; pageHeight := 800; margin := 50 |}).
  vm_compute. left. reflexivity.
Defined.

(** X4. [wrapText] returns at most as many lines as the text has words,
    counting the pieces between spaces of every paragraph. *)
Theorem wrapText_line_count
    (text : JsString) (context : PDFGenerationContext) :
  (length (wrapText text context)
   <= length (flat_map (split SP) (splitNewlines text)))%nat.
Proof.
  unfold wrapText. induction (splitNewlines text) as [|p ps IH]; simpl;
    [lia|].
  rewrite !length_app.
  pose proof (wrapParagraph_length (regular context)
                (pageWidth context - 2 * margin context) p). lia.
Qed.

Section WrapFit.

Variables (font : PDFFont) (maxWidth : Q).

Let emptyOrFits (l : JsString) : Prop := l = [] \/ fitsWidth font maxWidth l.

Lemma wrapWord_fits (lines : list JsString) (cur word : JsString) :
  Forall emptyOrFits lines -> emptyOrFits cur ->
  emptyOrFits (stripUnsupported word) ->
  Forall emptyOrFits (fst (wrapWord font maxWidth (lines, cur) word))
  /\ emptyOrFits (snd (wrapWord font maxWidth (lines, cur) word)).
Proof.
  intros Hl Hc Hw. unfold wrapWord.
  destruct (widthOfTextAtSize font _ _) as [textWidth|] eqn:Ew; simpl;
    [|now split].
  destruct (Qgtb textWidth maxWidth) eqn:Eg; simpl.
  - destruct (truthy cur) eqn:Et; simpl.
    + split; [|assumption].
      apply Forall_app. split; [assumption|now constructor].
    + now split.
  - split; [assumption|]. right. exists textWidth.
    split; [assumption|now apply Qgtb_false_le].
Qed.

Lemma wrapWords_fits (words : list JsString) :
  forall st,
    Forall (fun w => emptyOrFits (stripUnsupported w)) words ->
    Forall emptyOrFits (fst st) -> emptyOrFits (snd st) ->
    Forall emptyOrFits (fst (fold_left (wrapWord font maxWidth) words st))
    /\ emptyOrFits (snd (fold_left (wrapWord font maxWidth) words st)).
Proof.
  induction words as [|w ws IH]; intros [lines cur] Hws Hl Hc; simpl in *.
  - now split.
  - inversion Hws; subst.
    destruct (wrapWord_fits w Hl Hc) as [Hl' Hc']; [assumption|].
    apply IH; assumption.
Qed.

Lemma wrapParagraph_fits (p : JsString) :
  Forall (fun w => emptyOrFits (stripUnsupported w)) (split SP p) ->
  Forall emptyOrFits (wrapParagraph font maxWidth p).
Proof.
  intros Hw. unfold wrapParagraph. destruct (isBlank p).
  - constructor; [now left|constructor].
  - destruct (wrapWords_fits ([], []) Hw) as [Hl Hc];
      [constructor|now left|].
    destruct (fold_left _ _ _) as [lines cur]; simpl in *.
    destruct (truthy cur); [|assumption].
    apply Forall_app. split; [assumption|now constructor].
Qed.

End WrapFit.

(** X5. When every word of the text, once stripped, is empty or fits the
    text area on its own, every line [wrapText] returns is empty or fits
    the text area: a line is too wide only because one word is. *)
Theorem wrapText_fits_when_words_fit
    (text : JsString) (context : PDFGenerationContext) :
  (forall p w,
      In p (splitNewlines text) -> In w (split SP p) ->
      stripUnsupported w = []
      \/ fitsWidth (regular context)
           (pageWidth context - 2 * margin context) (stripUnsupported w)) ->
  forall line,
    In line (wrapText text context) ->
    line = []
    \/ fitsWidth (regular context)
         (pageWidth context - 2 * margin context) line.
Proof.
  intros Hw line Hl. unfold wrapText in Hl. apply in_flat_map in Hl.
  destruct Hl as [p [Hp Hl]].
  assert (HF : Forall
                 (fun l => l = []
                           \/ fitsWidth (regular context)
                                (pageWidth context - 2 * margin context) l)
                 (wrapParagraph (regular context)
                    (pageWidth context - 2 * margin context) p)).
  { apply wrapParagraph_fits. apply Forall_forall. intros w Hin.
    now apply (Hw p w). }
  rewrite Forall_forall in HF. now apply HF.
Qed.

Lemma wrapText_fits_when_words_fit_witness :
  js "and" = []
  \/ fitsWidth (regular narrowContext)
       (pageWidth narrowContext - 2 * margin narrowContext) (js "and").
Proof.
  apply (@wrapText_fits_when_words_fit (js "Rocq and Lean") narrowContext).
  - intros p w Hp Hw. vm_compute in Hp. destruct Hp as [<-|[]].
    vm_compute in Hw. right.
    destruct Hw as [<-|[<-|[<-|[]]]];
      (eexists; split; [vm_compute; reflexivity|vm_compute; discriminate]).
  - vm_compute. right. left. reflexivity.
Defined.

(** ** Where [wrapText] breaks a line *)

Lemma Qgtb_true_gt (a b : Q) : Qgtb a b = true -> b < a.
Proof.
  unfold Qgtb. rewrite negb_true_iff. intros H.
  apply Qnot_le_lt. intros Hle. apply Qle_bool_iff in Hle. congruence.
Qed.

Lemma eachNext_snoc {A : Type} (R : A -> A -> Prop) (l : list A) (a b : A) :
  eachNext R (l ++ [a]) -> R a b -> eachNext R ((l ++ [a]) ++ [b]).
Proof.
  induction l as [|x l IH]; intros H Hab; simpl in *; [now split|].
  destruct (l ++ [a]) as [|y t] eqn:E.
  - destruct l; discriminate.
  - simpl. destruct H as [Hxy Ht]. split; [assumption|]. now apply IH.
Qed.

Lemma eachNext_replace_last {A : Type} (R : A -> A -> Prop)
    (l : list A) (a a' : A) :
  (forall x, R x a -> R x a') ->
  eachNext R (l ++ [a]) -> eachNext R (l ++ [a']).
Proof.
  intros HR. induction l as [|x l IH]; intros H; simpl in *; [exact I|].
  destruct l as [|y t]; simpl in *.
  - destruct H as [Hx _]. split; [now apply HR|exact I].
  - destruct H as [Hxy Ht]. split; [assumption|now apply IH].
Qed.

Section WrapGreedy.

Variables (font : PDFFont) (maxWidth : Q).

Let held (st : list JsString * JsString) : list JsString :=
  fst st ++ (if truthy (snd st) then [snd st] else []).

Let greedy (st : list JsString * JsString) : Prop :=
  eachNext (didNotFit font maxWidth) (held st)
  /\ (truthy (snd st) = true -> exists w, firstWordOf (snd st) w)
  /\ (truthy (snd st) = false -> fst st = []).

Lemma firstWordOf_more (line w more : JsString) :
  firstWordOf line w -> firstWordOf (line ++ SP :: more) w.
Proof.
  intros (Hs & Hn & [->|[rest ->]]); repeat split; try assumption; right.
  - now exists more.
  - exists (rest ++ SP :: more). now rewrite <- app_assoc.
Qed.

Lemma wrapWord_greedy (st : list JsString * JsString) (word : JsString) :
  greedy st -> ~ In SP word -> truthy (stripUnsupported word) = true ->
  greedy (wrapWord font maxWidth st word).
Proof.
  destruct st as [lines cur]. unfold greedy, held. simpl.
  intros (Hn & Hf & He) Hsp Ht.
  assert (Hcw : firstWordOf (stripUnsupported word) (stripUnsupported word)).
  { repeat split.
    - intros H. apply Hsp. eapply stripUnsupported_In; eassumption.
    - now apply truthy_true.
    - now left. }
  unfold wrapWord.
  destruct (widthOfTextAtSize font _ _) as [textWidth|] eqn:Ew; simpl;
    [|now repeat split].
  destruct (truthy cur) eqn:Ec; simpl.
  - destruct (Qgtb textWidth maxWidth) eqn:Eg; simpl.
    + rewrite Ht. repeat split.
      * apply eachNext_snoc; [assumption|].
        exists (stripUnsupported word), textWidth.
        repeat split; try apply Hcw. { exact Ew. } now apply Qgtb_true_gt.
      * intros _. now exists (stripUnsupported word).
      * discriminate.
    + assert (Hcur : cur <> []) by now apply truthy_true.
      destruct cur as [|u rest]; [congruence|]. simpl. repeat split.
      * apply eachNext_replace_last with (a := u :: rest); [|assumption].
        intros x (w & tw & Hfw & Hwd & Hlt). exists w, tw.
        split; [|now split].
        now apply (@firstWordOf_more (u :: rest) w (stripUnsupported word)).
      * intros _. destruct (Hf eq_refl) as [w Hfw]. exists w.
        now apply (@firstWordOf_more (u :: rest) w (stripUnsupported word)).
      * discriminate.
  - rewrite andb_false_r. rewrite (He eq_refl). simpl. rewrite Ht.
    split; [exact I|]. split; [|discriminate].
    intros _. now exists (stripUnsupported word).
Qed.

Lemma wrapWords_greedy (words : list JsString) :
  forall st,
    greedy st ->
    Forall (fun w => truthy (stripUnsupported w) = true) words ->
    Forall (fun w => ~ In SP w) words ->
    greedy (fold_left (wrapWord font maxWidth) words st).
Proof.
  induction words as [|w ws IH]; intros st Hg Ht Hs; simpl; [assumption|].
  inversion Ht; subst. inversion Hs; subst.
  apply IH; [now apply wrapWord_greedy|assumption|assumption].
Qed.

Lemma wrapParagraph_greedy (p : JsString) :
  Forall (fun w => truthy (stripUnsupported w) = true) (split SP p) ->
  eachNext (didNotFit font maxWidth) (wrapParagraph font maxWidth p).
Proof.
  intros Ht. unfold wrapParagraph. destruct (isBlank p); [exact I|].
  assert (H0 : greedy ([], [])).
  { unfold greedy, held. simpl. repeat split; [discriminate]. }
  pose proof (@wrapWords_greedy (split SP p) _ H0 Ht (split_no_sep SP p)) as Hg.
  unfold greedy, held in Hg.
  destruct (fold_left _ _ _) as [lines cur]; simpl in *.
  destruct Hg as (Hn & _ & He).
  destruct (truthy cur); [assumption|]. now rewrite (He eq_refl).
Qed.

End WrapGreedy.

(** X6. [wrapText] fills lines greedily. In a paragraph whose words,
    once stripped, are all non-empty (single spaces, nothing in front or
    at the end), each line but the first starts with a word that was
    measured too wide at the end of the line before it: a line is broken
    only where the next word does not fit. *)
Theorem wrapText_breaks_only_where_next_word_does_not_fit
    (context : PDFGenerationContext) (paragraph : JsString) :
  Forall (fun w => truthy (stripUnsupported w) = true) (split SP paragraph) ->
  ~ In LF paragraph ->
  eachNext
    (didNotFit (regular context) (pageWidth context - 2 * margin context))
    (wrapText paragraph context).
Proof.
  intros Ht Hlf. unfold wrapText.
  rewrite splitNewlines_without_LF by assumption. simpl.
  rewrite app_nil_r. now apply wrapParagraph_greedy.
Qed.

Lemma wrapText_breaks_only_where_next_word_does_not_fit_witness :
  eachNext
    (didNotFit (regular narrowContext)
       (pageWidth narrowContext - 2 * margin narrowContext))
    (wrapText (js "Rocq and Lean") narrowContext).
Proof.
  apply (@wrapText_breaks_only_where_next_word_does_not_fit
           narrowContext (js "Rocq and Lean")).
  - vm_compute. repeat constructor.
  - vm_compute. intros H. repeat (destruct H as [H|H]; [discriminate|]).
    exact H.
Defined.

(** ** What a section draws *)

Lemma wrapText_units (text : JsString) (context : PDFGenerationContext)
    (line : JsString) (u : CodeUnit) :
  In line (wrapText text context) -> In u line ->
  u <> LF /\ (u = SP \/ isStripped u = false).
Proof.
  unfold wrapText. intros Hl Hu. apply in_flat_map in Hl.
  destruct Hl as [p [Hp Hl]].
  destruct (splitNewlines_pieces _ _ Hp) as [Hi Hn].
  destruct (wrapParagraph_chars _ _ _ _ _ Hl Hu) as [->|[Hup Hs]].
  - split; [discriminate|now left].
  - split; [congruence|now right].
Qed.

Lemma drawsLike_bind {A B : Type}
    (P : PDFGenerationContext -> DrawTextOp -> Prop)
    (m : GenM A) (k : A -> GenM B) :
  layoutOnly P ->
  drawsLike P m -> (forall a, drawsLike P (k a)) -> drawsLike P (bind m k).
Proof.
  intros HP Hm Hk c Hc. destruct (Hm c Hc) as (Hb & Hl & Hops).
  unfold bind. destruct (m c) as [[e|a] c1]; simpl in *.
  - split; [assumption|split; assumption].
  - destruct (Hk a c1 Hb) as (Hb' & Hl' & Hops').
    split; [assumption|]. split; [now apply sameLayout_trans with c1|].
    intros op Hop. destruct (Hops' op Hop) as [H|H].
    + now apply Hops.
    + right. now apply HP with c1.
Qed.

Lemma drawsLike_weaken {A : Type}
    (P P' : PDFGenerationContext -> DrawTextOp -> Prop) (m : GenM A) :
  (forall c op, P c op -> P' c op) -> drawsLike P m -> drawsLike P' m.
Proof.
  intros HPP Hm c Hc. destruct (Hm c Hc) as (Hb & Hl & Hops).
  split; [assumption|]. split; [assumption|].
  intros op Hop. destruct (Hops op Hop); [now left|right; now apply HPP].
Qed.

Lemma drawsLike_get (P : PDFGenerationContext -> DrawTextOp -> Prop) :
  drawsLike P get.
Proof.
  intros c Hc. split; [assumption|]. split; [apply sameLayout_refl|].
  intros op H. now left.
Qed.

Lemma drawsLike_forEach {A : Type}
    (P : PDFGenerationContext -> DrawTextOp -> Prop)
    (xs : list A) (body : A -> GenM unit) :
  layoutOnly P ->
  (forall x, In x xs -> drawsLike P (body x)) -> drawsLike P (forEach xs body).
Proof.
  intros HP. induction xs as [|x xs IH]; intros Hb; simpl.
  - intros c Hc. split; [assumption|]. split; [apply sameLayout_refl|].
    intros op H. now left.
  - apply drawsLike_bind; [assumption|apply Hb; now left|].
    intros _. apply IH. intros y Hy. apply Hb. now right.
Qed.

Lemma layoutOnly_headingOp (heading : JsString) :
  layoutOnly (headingOp heading).
Proof.
  intros c c' op (Hb & Hr & Hw & Hh & Hm) (H1 & H2 & H3 & H4 & H5).
  unfold headingOp. rewrite <- Hb, <- Hh, <- Hm. now repeat split.
Qed.

Lemma layoutOnly_lineOp : layoutOnly lineOp.
Proof.
  intros c c' op (Hb & Hr & Hw & Hh & Hm) (H1 & H2 & H3 & H4 & H5 & H6).
  unfold lineOp. rewrite <- Hr, <- Hh, <- Hm.
  repeat (split; [assumption|]). assumption.
Qed.

Lemma layoutOnly_or (P1 P2 : PDFGenerationContext -> DrawTextOp -> Prop) :
  layoutOnly P1 -> layoutOnly P2 ->
  layoutOnly (fun c op => P1 c op \/ P2 c op).
Proof.
  intros H1 H2 c c' op Hl [H|H]; [left; eapply H1|right; eapply H2];
    eassumption.
Qed.

Lemma addHeading_drawsLike (heading : JsString) :
  drawsLike (headingOp heading) (addHeading heading).
Proof.
  intros c Hc. unfold belowTop in *.
  unfold addHeading, bind, get, ret, modify, drawText, startNewPage.
  simpl.
  destruct (Qltb (currentY c) (margin c + 100)) eqn:Elow; simpl;
    destruct (encodingError (bold c) (stripUnsupported heading)); simpl;
    unfold PDF_CONFIG.HEADING_SIZE;
    (split; [try lra; try apply Qle_refl|]);
    (split; [repeat split|]); intros op Hop;
    try (now left);
    try (rewrite allOps_app in Hop; simpl in Hop; rewrite app_nil_r in Hop;
         now left).
  - apply allOps_drawOn in Hop. destruct Hop as [Hop| ->].
    + rewrite allOps_app in Hop; simpl in Hop; rewrite app_nil_r in Hop.
      now left.
    + right. repeat split. simpl. apply Qle_refl.
  - apply allOps_drawOn in Hop. destruct Hop as [Hop| ->]; [now left|].
    right. repeat split. simpl. assumption.
Qed.

Lemma addLine_drawsLike (line : JsString) :
  (forall u, In u line -> u <> LF /\ isStripped u = false) ->
  drawsLike lineOp (addLine line).
Proof.
  intros Hline c Hc. unfold belowTop in *.
  unfold addLine, bind, get, ret, modify, tryCatch, drawText, startNewPage.
  simpl.
  destruct (Qltb (currentY c) (margin c + 20)) eqn:Elow; simpl;
    destruct (isBlank line) eqn:Eb; simpl;
    try (destruct (encodingError (regular c) line); simpl);
    unfold PDF_CONFIG.LINE_HEIGHT;
    (split; [lra|]);
    (split; [repeat split|]); intros op Hop;
    try (now left);
    try (rewrite allOps_app in Hop; simpl in Hop; rewrite app_nil_r in Hop;
         now left).
  - apply allOps_drawOn in Hop. destruct Hop as [Hop| ->].
    + rewrite allOps_app in Hop; simpl in Hop; rewrite app_nil_r in Hop.
      now left.
    + right. repeat split; simpl; try assumption; try apply Qle_refl;
        now apply Hline.
  - apply allOps_drawOn in Hop. destruct Hop as [Hop| ->]; [now left|].
    right. repeat split; simpl; try assumption; now apply Hline.
Qed.

Lemma addSection_drawsLike (heading content : JsString) :
  drawsLike (fun c op => headingOp heading c op \/ lineOp c op)
    (addSection heading content).
Proof.
  assert (HP : layoutOnly (fun c op => headingOp heading c op \/ lineOp c op))
    by (apply layoutOnly_or;
        [apply layoutOnly_headingOp|apply layoutOnly_lineOp]).
  unfold addSection.
  apply drawsLike_bind; [assumption| |].
  { eapply drawsLike_weaken; [|apply addHeading_drawsLike]. intros; now left. }
  intros _. apply drawsLike_bind; [assumption|apply drawsLike_get|].
  intros c'. apply drawsLike_bind; [assumption| |].
  - apply drawsLike_forEach; [assumption|]. intros line Hline.
    eapply drawsLike_weaken; [|apply addLine_drawsLike].
    + intros; now right.
    + intros u Hu.
      destruct (wrapText_units _ _ _ _ Hline Hu) as [Hlf [->|Hs]];
        [split; [assumption|reflexivity]|now split].
  - intros _ c Hc. unfold modify, belowTop in *. simpl.
    split; [lra|]. split; [repeat split|]. intros op Hop. now left.
Qed.

(** X7. Started with the cursor at or below the top margin, [addSection]
    draws only this: the sanitised heading, in the bold font at the heading
    size, and lines in the regular font at the text size that are not
    blank and hold no line feed and no code unit of the stripped ranges;
    all of them at [x = margin] and at or below [pageHeight - margin]. It
    ends with the cursor at or below the top margin. *)
Theorem addSection_draws_heading_and_clean_lines
    (heading content : JsString) (c : PDFGenerationContext) (op : DrawTextOp) :
  belowTop c ->
  belowTop (snd (addSection heading content c))
  /\ (In op (allOps (doc (snd (addSection heading content c)))) ->
      In op (allOps (doc c)) \/ headingOp heading c op \/ lineOp c op).
Proof.
  intros Hc.
  destruct (addSection_drawsLike heading content Hc) as (Hb & _ & Hops).
  split; [assumption|apply Hops].
Qed.

Lemma addSection_draws_heading_and_clean_lines_witness :
  let op := {| opText := js "Rocq"; opX := 50; opY := 76589 # 100;
               opSize := 12; opFont := Helvetica |} in
  belowTop (snd (addSection (js "Skills") (js "Rocq") Sample.context))
  /\ (In op (allOps (doc (snd (addSection (js "Skills") (js "Rocq")
                                 Sample.context)))) ->
      In op (allOps (doc Sample.context))
      \/ headingOp (js "Skills") Sample.context op
      \/ lineOp Sample.context op).
Proof.
  apply (@addSection_draws_heading_and_clean_lines
           (js "Skills") (js "Rocq") Sample.context).
  unfold belowTop. vm_compute. discriminate.
Defined.

(** ** When [addSection] throws *)

(** X8. [addSection] throws exactly when the bold font cannot encode
    the sanitised heading, and then it throws the error of the font; no
    content makes it throw, whatever the regular font can encode. *)
Theorem addSection_throws_only_for_its_heading
    (heading content : JsString) (c : PDFGenerationContext) :
  fst (addSection heading content c)
  = match encodingError (bold c) (stripUnsupported heading) with
    | None => inr tt
    | Some msg => inl (Lib (JsError msg))
    end.
Proof.
  destruct (encodingError (bold c) (stripUnsupported heading)) as [msg|] eqn:E.
  - unfold addSection, bind at 1.
    assert (H : fst (addHeading heading c) = inl (Lib (JsError msg))).
    { unfold addHeading, bind, get, ret, modify, drawText, startNewPage.
      simpl. destruct (Qltb (currentY c) (margin c + 100)); simpl;
        now rewrite E. }
    destruct (addHeading heading c) as [[e|u] c1]; simpl in *;
      [assumption|discriminate].
  - now apply addSection_returns.
Qed.

(** ** The document [generatePDF] renders *)

Lemma keepsLayout_ret {A : Type} (a : A) : keepsLayout (ret a).
Proof. intros c. apply sameLayout_refl. Qed.

Lemma keepsLayout_get : keepsLayout (@get PDFGenerationContext).
Proof. intros c. apply sameLayout_refl. Qed.

Lemma keepsLayout_setCurrentY (f : PDFGenerationContext -> Q) :
  keepsLayout (modify (fun c => setCurrentY c (f c))).
Proof. intros c. repeat split. Qed.

Lemma keepsLayout_setDoc (f : PDFGenerationContext -> PDFDocument) :
  keepsLayout (modify (fun c => setDoc c (f c))).
Proof. intros c. repeat split. Qed.

Lemma keepsLayout_await {A : Type} (o : Foreign + A) :
  keepsLayout (@await PDFGenerationContext A o).
Proof. intros c. unfold await. destruct o; apply sameLayout_refl. Qed.

Lemma keepsLayout_awaitVoid (o : option Foreign) :
  keepsLayout (@awaitVoid PDFGenerationContext o).
Proof. intros c. unfold awaitVoid. destruct o; apply sameLayout_refl. Qed.

Lemma keepsLayout_bind {A B : Type} (m : GenM A) (k : A -> GenM B) :
  keepsLayout m -> (forall a, keepsLayout (k a)) -> keepsLayout (bind m k).
Proof.
  intros Hm Hk c. specialize (Hm c). unfold bind.
  destruct (m c) as [[e|a] c1]; simpl in *; [assumption|].
  apply sameLayout_trans with c1; [assumption|apply Hk].
Qed.

Lemma keepsLayout_tryCatch {A : Type} (m : GenM A) (h : Thrown -> GenM A) :
  keepsLayout m -> (forall e, keepsLayout (h e)) -> keepsLayout (tryCatch m h).
Proof.
  intros Hm Hh c. specialize (Hm c). unfold tryCatch.
  destruct (m c) as [[e|a] c1]; simpl in *; [|assumption].
  apply sameLayout_trans with c1; [assumption|apply Hh].
Qed.

Lemma keepsLayout_forEach {A : Type} (xs : list A) (body : A -> GenM unit) :
  (forall x, keepsLayout (body x)) -> keepsLayout (forEach xs body).
Proof.
  intros Hb. induction xs as [|x xs IH]; simpl.
  - apply keepsLayout_ret.
  - apply keepsLayout_bind; [apply Hb|intros _; exact IH].
Qed.

Lemma keepsLayout_if {A : Type} (b : bool) (m1 m2 : GenM A) :
  keepsLayout m1 -> keepsLayout m2 -> keepsLayout (if b then m1 else m2).
Proof. now destruct b. Qed.

Lemma keepsLayout_drawText (text : JsString) (x y size : Q) (font : PDFFont) :
  keepsLayout (drawText text x y size font).
Proof.
  intros c. unfold drawText. destruct (encodingError font text);
    repeat split.
Qed.

Lemma keepsLayout_startNewPage : keepsLayout startNewPage.
Proof. intros c. repeat split. Qed.

Create HintDb layout.
#[local] Hint Resolve keepsLayout_ret keepsLayout_get keepsLayout_setCurrentY
  keepsLayout_setDoc keepsLayout_await keepsLayout_awaitVoid
  keepsLayout_drawText keepsLayout_startNewPage : layout.

Ltac layout_step :=
  first
    [ apply keepsLayout_bind; [|intros ?]
    | apply keepsLayout_tryCatch; [|intros ?]
    | apply keepsLayout_forEach; intros ?
    | apply keepsLayout_if
    | solve [auto with layout] ].

Lemma keepsLayout_addTitle (title : JsString) : keepsLayout (addTitle title).
Proof. unfold addTitle. repeat layout_step. Qed.

Lemma keepsLayout_addSection (heading content : JsString) :
  keepsLayout (addSection heading content).
Proof.
  unfold addSection, addHeading, addLine. repeat layout_step.
Qed.

Lemma keepsLayout_embedUploadedPDF (w : World) (filePath : JsString) :
  keepsLayout (embedUploadedPDF w filePath).
Proof.
  unfold embedUploadedPDF, addCopiedPages.
  apply keepsLayout_tryCatch; [|intros e; apply keepsLayout_addSection].
  apply keepsLayout_bind; [apply keepsLayout_awaitVoid|intros _].
  apply keepsLayout_bind; [apply keepsLayout_await|intros bytes].
  apply keepsLayout_if; [apply keepsLayout_addSection|].
  destruct (pdf_load w bytes) as [e|uploadedPdf];
    [apply keepsLayout_addSection|].
  apply keepsLayout_if; [apply keepsLayout_addSection|].
  apply keepsLayout_tryCatch; [|intros e; apply keepsLayout_addSection].
  apply keepsLayout_bind; [apply keepsLayout_awaitVoid|intros _].
  apply keepsLayout_bind; [apply keepsLayout_addSection|intros _].
  apply keepsLayout_forEach. intros pg.
  apply (keepsLayout_setDoc (fun c => doc c ++ [pg])).
Qed.

(** The result of [m ;;; k] when [m] returns. *)
Lemma bind_returns {A B : Type} (m : GenM A) (k : A -> GenM B)
    (c : PDFGenerationContext) (a : A) :
  fst (m c) = inr a -> bind m k c = k a (snd (m c)).
Proof.
  unfold bind. destruct (m c) as [[e|a'] c1]; simpl; [discriminate|].
  now intros [= ->].
Qed.

Lemma addTitle_returns (title : JsString) (c : PDFGenerationContext) :
  encodingError (bold c) (stripUnsupported title) = None ->
  fst (addTitle title c) = inr tt.
Proof.
  intros H. unfold addTitle, bind, get, modify, drawText. simpl.
  now rewrite H.
Qed.

Lemma embedUploadedPDF_returns (w : World) (filePath : JsString)
    (c : PDFGenerationContext) :
  encodingError (bold c) (js "Attached Document") = None ->
  fst (embedUploadedPDF w filePath c) = inr tt.
Proof.
  intros Hdoc.
  assert (Hexplain : forall content c',
             bold c' = bold c ->
             fst (addSection (js "Attached Document") content c') = inr tt).
  { intros content c' Hb. apply addSection_returns. now rewrite Hb. }
  unfold embedUploadedPDF, tryCatch at 1.
  match goal with
  | |- fst (match ?m c with _ => _ end) = _ =>
      assert (Hl : sameLayout c (snd (m c)));
      [|destruct (m c) as [[e|[]] c1]; simpl in *]
  end.
  - unfold bind, awaitVoid, await.
    destruct (fs_access w filePath); [apply sameLayout_refl|].
    destruct (fs_readFile w filePath) as [e|bytes]; [apply sameLayout_refl|].
    destruct (length bytes =? 0)%nat; [apply keepsLayout_addSection|].
    destruct (pdf_load w bytes) as [e|uploadedPdf];
      [apply keepsLayout_addSection|].
    destruct (length uploadedPdf =? 0)%nat; [apply keepsLayout_addSection|].
    apply keepsLayout_tryCatch; [|intros e; apply keepsLayout_addSection].
    apply keepsLayout_bind; [apply keepsLayout_awaitVoid|intros _].
    apply keepsLayout_bind; [apply keepsLayout_addSection|intros _].
    unfold addCopiedPages. apply keepsLayout_forEach. intros pg.
    apply (keepsLayout_setDoc (fun c => doc c ++ [pg])).
  - apply Hexplain. apply Hl.
  - reflexivity.
Qed.

Lemma renderDocument_eq (w : World) (submission : UserSubmission)
    (helveticaBold helvetica : PDFFont) :
  pdf_create w = None ->
  pdf_embedFont w HelveticaBold = inr helveticaBold ->
  pdf_embedFont w Helvetica = inr helvetica ->
  renderDocument w submission
  = match (addTitle (js "Application Summary") ;;;
           renderSections w submission)
            (initialContext helveticaBold helvetica) with
    | (inl e, _) => inl e
    | (inr _, context') => inr (doc context')
    end.
Proof.
  intros Hc Hb Hh. unfold renderDocument. rewrite Hc, Hb, Hh. reflexivity.
Qed.

Lemma renderDocument_inv (w : World) (submission : UserSubmission)
    (d : PDFDocument) :
  renderDocument w submission = inr d ->
  exists helveticaBold helvetica c',
    pdf_embedFont w HelveticaBold = inr helveticaBold
    /\ pdf_embedFont w Helvetica = inr helvetica
    /\ (addTitle (js "Application Summary") ;;; renderSections w submission)
         (initialContext helveticaBold helvetica) = (inr tt, c')
    /\ d = doc c'.
Proof.
  intros H.
  destruct (pdf_create w) eqn:Ec;
    [unfold renderDocument in H; rewrite Ec in H; discriminate|].
  destruct (pdf_embedFont w HelveticaBold) as [e|hb] eqn:Eb;
    [unfold renderDocument in H; rewrite Ec, Eb in H; discriminate|].
  destruct (pdf_embedFont w Helvetica) as [e|h] eqn:Eh;
    [unfold renderDocument in H; rewrite Ec, Eb, Eh in H; discriminate|].
  rewrite (@renderDocument_eq w submission hb h Ec Eb Eh) in H.
  exists hb, h.
  destruct ((addTitle _ ;;; renderSections w submission) _)
    as [[e|[]] c']; [discriminate|].
  exists c'. injection H as <-. now repeat split.
Qed.

Lemma bind_inr_inv {A B : Type} (m : GenM A) (k : A -> GenM B)
    (c c' : PDFGenerationContext) (b : B) :
  bind m k c = (inr b, c') ->
  exists a c1, m c = (inr a, c1) /\ k a c1 = (inr b, c').
Proof.
  unfold bind. destruct (m c) as [[e|a] c1]; [discriminate|].
  intros H. now exists a, c1.
Qed.

Lemma then_returns (m k : GenM unit) (c : PDFGenerationContext) :
  fst (m c) = inr tt -> keepsLayout m ->
  (forall c1, sameLayout c c1 -> fst (k c1) = inr tt) ->
  fst ((m ;;; k) c) = inr tt.
Proof.
  intros Hm Hl Hk. rewrite (bind_returns m (fun _ => k) c Hm).
  apply Hk. apply Hl.
Qed.

Lemma encodesHeadings_In (helveticaBold : PDFFont) (text : string) :
  encodesHeadings helveticaBold ->
  In text
    [ "Application Summary"%string; "Applicant Information"%string;
      "Current Job Description"%string; "Uploaded Document"%string;
      "Attached Document"%string; "Attached Resume/Document"%string ] ->
  encodingError helveticaBold (js text) = None.
Proof.
  unfold encodesHeadings. rewrite Forall_forall. intros H Hin. now apply H.
Qed.

(** X9. No content makes the rendering fail. When [PDFDocument.create]
    and the two [embedFont] calls succeed and the bold font encodes the
    title and the headings the generator writes itself, [generatePDF]
    renders a document for every submission, whatever its fields hold and
    whatever happens to the uploaded file. *)
Theorem renderDocument_succeeds_for_any_submission
    (w : World) (submission : UserSubmission)
    (helveticaBold helvetica : PDFFont) :
  pdf_create w = None ->
  pdf_embedFont w HelveticaBold = inr helveticaBold ->
  pdf_embedFont w Helvetica = inr helvetica ->
  encodesHeadings helveticaBold ->
  exists d, renderDocument w submission = inr d.
Proof.
  intros Hc Hb Hh Henc.
  rewrite (@renderDocument_eq w submission helveticaBold helvetica Hc Hb Hh).
  assert (Hsec : forall text content c,
             In text
               [ "Application Summary"%string; "Applicant Information"%string;
                 "Current Job Description"%string; "Uploaded Document"%string;
                 "Attached Document"%string;
                 "Attached Resume/Document"%string ] ->
             bold c = helveticaBold ->
             stripUnsupported (js text) = js text ->
             fst (addSection (js text) content c) = inr tt).
  { intros text content c Hin Hbold Hs. apply addSection_returns.
    rewrite Hbold, Hs. now apply encodesHeadings_In. }
  assert (Hret : fst ((addTitle (js "Application Summary") ;;;
                       renderSections w submission)
                        (initialContext helveticaBold helvetica)) = inr tt).
  { apply then_returns.
    - apply addTitle_returns. simpl bold.
      apply (encodesHeadings_In Henc (text := "Application Summary")).
      simpl. tauto.
    - apply keepsLayout_addTitle.
    - intros c1 L1. unfold renderSections. apply then_returns.
      + apply Hsec; [simpl; tauto|apply L1|reflexivity].
      + apply keepsLayout_addSection.
      + intros c2 L2. apply then_returns.
        * apply Hsec; [simpl; tauto| |reflexivity].
          transitivity (bold c1); [apply L2|apply L1].
        * apply keepsLayout_addSection.
        * intros c3 L3. apply then_returns.
          -- apply Hsec; [simpl; tauto| |reflexivity].
             transitivity (bold c2); [apply L3|].
             transitivity (bold c1); [apply L2|apply L1].
          -- apply keepsLayout_addSection.
          -- intros c4 L4.
             destruct (uploadedFilePath submission) as [filePath|];
               [|reflexivity].
             destruct (truthy filePath); [|reflexivity].
             apply embedUploadedPDF_returns.
             assert (Hb4 : bold c4 = helveticaBold).
             { transitivity (bold c3); [apply L4|].
               transitivity (bold c2); [apply L3|].
               transitivity (bold c1); [apply L2|apply L1]. }
             rewrite Hb4.
             apply (encodesHeadings_In Henc (text := "Attached Document")).
             simpl. tauto. }
  destruct ((addTitle _ ;;; renderSections w submission) _) as [[e|[]] c'];
    simpl in Hret; [discriminate|]. now exists (doc c').
Qed.

Lemma Sample_encodesHeadings (name : StandardFonts) :
  encodesHeadings (Sample.font name).
Proof. unfold encodesHeadings. repeat constructor. Qed.

Lemma renderDocument_succeeds_for_any_submission_witness :
  exists d, renderDocument SampleWorld.world SampleWorld.submission = inr d.
Proof.
  apply (@renderDocument_succeeds_for_any_submission
           SampleWorld.world SampleWorld.submission
           (Sample.font HelveticaBold) (Sample.font Helvetica)).
  - reflexivity.
  - reflexivity.
  - reflexivity.
  - apply Sample_encodesHeadings.
Defined.

Lemma appendsOnly_renderSections (w : World) (submission : UserSubmission) :
  appendsOnly (renderSections w submission).
Proof.
  unfold renderSections.
  apply appendsOnly_bind; [apply appendsOnly_addSection|intros _].
  apply appendsOnly_bind; [apply appendsOnly_addSection|intros _].
  apply appendsOnly_bind; [apply appendsOnly_addSection|intros _].
  destruct (uploadedFilePath submission) as [filePath|];
    [|apply appendsOnly_ret].
  apply appendsOnly_if;
    [apply appendsOnly_embedUploadedPDF|apply appendsOnly_ret].
Qed.

(** X10. Every document [generatePDF] renders has a first page of the
    size of [PDF_CONFIG], made by the generator, on which the first text
    is the title, in the bold font at the title size, at the left margin
    and at the top margin. *)
Theorem renderDocument_starts_with_the_title
    (w : World) (submission : UserSubmission) (d : PDFDocument) :
  renderDocument w submission = inr d ->
  exists helveticaBold pg more,
    pdf_embedFont w HelveticaBold = inr helveticaBold
    /\ nth_error d 0 = Some pg
    /\ width pg = PDF_CONFIG.PAGE_WIDTH
    /\ height pg = PDF_CONFIG.PAGE_HEIGHT
    /\ imported pg = []
    /\ drawn pg = titleOp helveticaBold :: more.
Proof.
  intros H.
  destruct (renderDocument_inv _ _ H) as (hb & h & c' & Hb & Hh & Hrun & ->).
  apply bind_inr_inv in Hrun. destruct Hrun as ([] & c1 & Ht & Hs).
  exists hb.
  assert (Hc1 : doc c1
                = [{| width := PDF_CONFIG.PAGE_WIDTH;
                      height := PDF_CONFIG.PAGE_HEIGHT;
                      imported := []; drawn := [titleOp hb] |}]).
  { unfold addTitle, bind, get, modify, drawText in Ht. simpl in Ht.
    destruct (encodingError hb _); [discriminate|].
    injection Ht as <-. reflexivity. }
  destruct (appendsOnly_renderSections w submission c1) as [Hext _].
  rewrite Hs in Hext. simpl in Hext.
  destruct (@docExtends_nth (doc c1) (doc c') 0%nat
              {| width := PDF_CONFIG.PAGE_WIDTH;
                 height := PDF_CONFIG.PAGE_HEIGHT;
                 imported := []; drawn := [titleOp hb] |} Hext)
    as (pg & Hn & Hw & Hht & Hi & more & Hd).
  { rewrite Hc1. reflexivity. }
  exists pg, more. simpl in *. repeat split; assumption.
Qed.

Lemma renderDocument_starts_with_the_title_witness :
  exists helveticaBold pg more,
    pdf_embedFont SampleWorld.world HelveticaBold = inr helveticaBold
    /\ nth_error
         (match renderDocument SampleWorld.world SampleWorld.submission with
          | inr d => d
          | inl _ => []
          end) 0 = Some pg
    /\ width pg = PDF_CONFIG.PAGE_WIDTH
    /\ height pg = PDF_CONFIG.PAGE_HEIGHT
    /\ imported pg = []
    /\ drawn pg = titleOp helveticaBold :: more.
Proof.
  destruct (renderDocument SampleWorld.world SampleWorld.submission)
    as [e|d] eqn:E.
  - exfalso. vm_compute in E. discriminate.
  - apply (@renderDocument_starts_with_the_title
             SampleWorld.world SampleWorld.submission d E).
Defined.

Lemma embedUploadedPDF_embeds (w : World) (filePath : JsString)
    (c : PDFGenerationContext) (uploadedPdf : PDFDocument) :
  encodingError (bold c) (js "Attached Resume/Document") = None ->
  uploadedPages w filePath = Some uploadedPdf ->
  exists content,
    doc (snd (embedUploadedPDF w filePath c))
    = doc (snd (addSection (js "Attached Resume/Document") content c))
      ++ uploadedPdf.
Proof.
  intros Hdiv Hup.
  assert (Hdivider : forall content,
             addSection (js "Attached Resume/Document") content c
             = (inr tt,
                snd (addSection (js "Attached Resume/Document") content c)))
    by (intros; now apply addSection_run).
  unfold uploadedPages in Hup.
  unfold embedUploadedPDF, tryCatch, bind, awaitVoid, await.
  destruct (fs_access w filePath) as [e|]; [discriminate|].
  destruct (fs_readFile w filePath) as [e|bytes]; [discriminate|].
  destruct (length bytes =? 0)%nat; [discriminate|].
  destruct (pdf_load w bytes) as [e|pdf]; [discriminate|].
  destruct (length pdf =? 0)%nat; [discriminate|].
  destruct (pdf_copyPages w pdf (seq 0 (length pdf))) as [e|];
    [discriminate|].
  injection Hup as <-.
  rewrite Hdivider. rewrite addCopiedPages_run, pagesAt_all. simpl.
  eexists. reflexivity.
Qed.

Lemma step_inr (m : GenM unit) (c c1 : PDFGenerationContext) :
  keepsLayout m -> appendsOnly m -> m c = (inr tt, c1) ->
  sameLayout c c1 /\ docExtends (doc c) (doc c1).
Proof.
  intros Hl Ha Hm. specialize (Hl c). destruct (Ha c) as [Hd _].
  rewrite Hm in Hl, Hd. now split.
Qed.

(** X11. When the uploaded file can be embedded (it is accessible, not
    empty, loads with at least one page and its pages can be copied) and
    the bold font encodes the heading of the divider, the document
    [generatePDF] renders ends with the pages of the uploaded document,
    all of them, in order and with nothing drawn on them, after at least
    one page of the generator's own. *)
Theorem renderDocument_ends_with_the_uploaded_pages
    (w : World) (submission : UserSubmission) (d uploadedPdf : PDFDocument)
    (filePath : JsString) :
  renderDocument w submission = inr d ->
  uploadedFilePath submission = Some filePath ->
  truthy filePath = true ->
  uploadedPages w filePath = Some uploadedPdf ->
  (forall helveticaBold,
      pdf_embedFont w HelveticaBold = inr helveticaBold ->
      encodingError helveticaBold (js "Attached Resume/Document") = None) ->
  exists generated,
    d = generated ++ uploadedPdf /\ (1 <= length generated)%nat.
Proof.
  intros H Hp Ht Hup Henc.
  destruct (renderDocument_inv _ _ H) as (hb & h & c' & Hb & Hh & Hrun & ->).
  apply bind_inr_inv in Hrun. destruct Hrun as ([] & c1 & H1 & Hrun).
  unfold renderSections in Hrun. rewrite Hp, Ht in Hrun.
  apply bind_inr_inv in Hrun. destruct Hrun as ([] & c2 & H2 & Hrun).
  apply bind_inr_inv in Hrun. destruct Hrun as ([] & c3 & H3 & Hrun).
  apply bind_inr_inv in Hrun. destruct Hrun as ([] & c4 & H4 & Hrun).
  destruct (@step_inr _ _ _ (keepsLayout_addTitle _)
              (appendsOnly_addTitle _) H1)
    as [L1 D1].
  destruct (@step_inr _ _ _ (keepsLayout_addSection _ _)
              (appendsOnly_addSection _ _) H2) as [L2 D2].
  destruct (@step_inr _ _ _ (keepsLayout_addSection _ _)
              (appendsOnly_addSection _ _) H3) as [L3 D3].
  destruct (@step_inr _ _ _ (keepsLayout_addSection _ _)
              (appendsOnly_addSection _ _) H4) as [L4 D4].
  assert (Hb4 : bold c4 = hb).
  { transitivity (bold c3); [apply L4|].
    transitivity (bold c2); [apply L3|].
    transitivity (bold c1); [apply L2|apply L1]. }
  destruct (@embedUploadedPDF_embeds w filePath c4 uploadedPdf)
    as [content Hdoc]; [rewrite Hb4; now apply Henc|assumption|].
  rewrite Hrun in Hdoc. simpl in Hdoc.
  exists (doc (snd (addSection (js "Attached Resume/Document") content c4))).
  split; [assumption|].
  destruct (appendsOnly_addSection (js "Attached Resume/Document") content c4)
    as [D5 _].
  assert (D : docExtends (doc (initialContext hb h))
                (doc (snd (addSection (js "Attached Resume/Document")
                             content c4)))).
  { apply docExtends_trans with (doc c1); [assumption|].
    apply docExtends_trans with (doc c2); [assumption|].
    apply docExtends_trans with (doc c3); [assumption|].
    apply docExtends_trans with (doc c4); assumption. }
  apply docExtends_length in D. simpl in D. exact D.
Qed.

Lemma renderDocument_ends_with_the_uploaded_pages_witness :
  exists generated,
    match renderDocument SampleWorld.world SampleWorld.submission with
    | inr d => d
    | inl _ => []
    end = generated ++ SampleWorld.uploaded
    /\ (1 <= length generated)%nat.
Proof.
  destruct (renderDocument SampleWorld.world SampleWorld.submission)
    as [e|d] eqn:E.
  - exfalso. vm_compute in E. discriminate.
  - apply (@renderDocument_ends_with_the_uploaded_pages
             SampleWorld.world SampleWorld.submission d SampleWorld.uploaded
             SampleWorld.uploadPath E).
    + reflexivity.
    + reflexivity.
    + reflexivity.
    + intros hb Hhb. injection Hhb as <-. reflexivity.
Defined.

(** ** What [generatePDF] returns and throws *)

(** X12. [generatePDF] returns a path only after the rendered document
    was saved to bytes that are not empty, the directory was made, the
    bytes were written, and the file was found and read back not empty;
    the path is [application-<id>.pdf] in [uploads/generated] under the
    working directory. *)
Theorem generatePDF_returns_the_path_of_a_saved_pdf
    (w : World) (submission : UserSubmission) (pdfPath : JsString) :
  generatePDF w submission = inr pdfPath ->
  let generatedDir :=
    path_join w [process_cwd w; js "uploads"; js "generated"] in
  pdfPath
  = path_join w [generatedDir;
                 js "application-" ++ id submission ++ js ".pdf"]
  /\ exists d pdfBytes stats,
       renderDocument w submission = inr d
       /\ pdf_save w d = inr pdfBytes /\ pdfBytes <> []
       /\ fs_mkdir w generatedDir = None
       /\ fs_writeFile w pdfPath pdfBytes = None
       /\ fs_accessWritten w pdfPath = None
       /\ fs_readWritten w pdfPath = inr stats /\ stats <> [].
Proof.
  unfold generatePDF. intros H.
  destruct (tryGeneratePDF w submission) as [[m code|[m|]]|p] eqn:Et;
    try discriminate.
  injection H as ->.
  unfold tryGeneratePDF, andThen, awaited, awaitedVoid in Et.
  destruct (renderDocument w submission) as [e|d] eqn:Er; [discriminate|].
  destruct (pdf_save w d) as [e|bytes] eqn:Es; [discriminate|].
  destruct (length bytes =? 0)%nat eqn:Eb; [discriminate|].
  destruct (fs_mkdir w _) eqn:Em; [discriminate|].
  destruct (fs_writeFile w _ bytes) eqn:Ew; [discriminate|].
  destruct (fs_accessWritten w _) eqn:Ea; [discriminate|].
  destruct (fs_readWritten w _) as [e|stats] eqn:Erd; [discriminate|].
  destruct (length stats =? 0)%nat eqn:Est; [discriminate|].
  injection Et as <-. simpl. split; [reflexivity|].
  exists d, bytes, stats. repeat split; try assumption.
  - intros ->. discriminate.
  - intros ->. discriminate.
Qed.

Lemma generatePDF_returns_the_path_of_a_saved_pdf_witness :
  let pdfPath :=
    js "/srv/app/uploads/generated/application-cmgh2k9x40000abcd.pdf" in
  let generatedDir :=
    path_join SampleWorld.world
      [process_cwd SampleWorld.world; js "uploads"; js "generated"] in
  pdfPath
  = path_join SampleWorld.world
      [generatedDir;
       js "application-" ++ id SampleWorld.submission ++ js ".pdf"]
  /\ exists d pdfBytes stats,
       renderDocument SampleWorld.world SampleWorld.submission = inr d
       /\ pdf_save SampleWorld.world d = inr pdfBytes /\ pdfBytes <> []
       /\ fs_mkdir SampleWorld.world generatedDir = None
       /\ fs_writeFile SampleWorld.world pdfPath pdfBytes = None
       /\ fs_accessWritten SampleWorld.world pdfPath = None
       /\ fs_readWritten SampleWorld.world pdfPath = inr stats
       /\ stats <> [].
Proof.
  apply (@generatePDF_returns_the_path_of_a_saved_pdf
           SampleWorld.world SampleWorld.submission).
  vm_compute. reflexivity.
Defined.

(** X13. Whatever goes wrong while the saved file is verified,
    [generatePDF] reports it as [PDF file verification failed]: the error
    [Saved PDF file is empty] that the verification builds is caught by
    the [catch] around it and never reaches the caller. *)
Theorem generatePDF_never_reports_saved_file_empty
    (w : World) (submission : UserSubmission) (statusCode : Z) :
  generatePDF w submission
  <> inl (ApplicationError (js "Saved PDF file is empty") statusCode).
Proof.
  unfold generatePDF.
  pose proof (renderDocument_notApplicationError w submission) as Hr.
  unfold tryGeneratePDF, andThen, awaited, awaitedVoid.
  destruct (renderDocument w submission) as [[m code|[m|]]|pdfDoc];
    try contradiction; try discriminate.
  destruct (pdf_save w pdfDoc) as [[m|]|pdfBytes]; try discriminate.
  destruct (length pdfBytes =? 0)%nat; [discriminate|].
  destruct (fs_mkdir w _) as [[m|]|]; try discriminate.
  destruct (fs_writeFile w _ _) as [[m|]|]; try discriminate.
  destruct (fs_accessWritten w _); [discriminate|].
  destruct (fs_readWritten w _) as [e|stats]; [discriminate|].
  destruct (length stats =? 0)%nat; discriminate.
Qed.

(** ** The simple generator *)

(** X14. The PDF [generateSimplePDF] saves has one page, of the default
    size, with seven texts at fixed places whatever their length: the
    title at [height - 50], the four lines of applicant information from
    [height - 100] down in steps of 20, the caption forty points below the
    last of them and the job description, as it was submitted, thirty
    points below the caption; all at [x = 50]. *)
Theorem generateSimplePDF_draws_one_fixed_page
    (w : World) (submission : UserSubmission) (pdfPath : JsString) :
  generateSimplePDF w submission = inr pdfPath ->
  let h := snd (pdf_defaultPageSize w) in
  exists page pdfBytes,
    pdf_save w [page] = inr pdfBytes
    /\ fs_writeFile w pdfPath pdfBytes = None
    /\ width page = fst (pdf_defaultPageSize w)
    /\ height page = h
    /\ map opText (drawn page)
       = [ js "Application Summary";
           js "Name: " ++ firstName submission ++ [SP] ++ lastName submission;
           js "Email: " ++ email submission;
           js "Phone: " ++ orElse (phone submission) (js "Not provided");
           js "Application Date: "
             ++ toLocaleDateString w (createdAt submission);
           js "Job Description:";
           jobDescription submission ]
    /\ map opY (drawn page)
       = [ h - 50; h - 100; h - 100 - 20; h - 100 - 20 - 20;
           h - 100 - 20 - 20 - 20;
           h - 100 - 20 - 20 - 20 - 20 - 20;
           h - 100 - 20 - 20 - 20 - 20 - 20 - 30 ]
    /\ Forall (fun op => opX op = 50) (drawn page).
Proof.
  unfold generateSimplePDF. intros H.
  destruct (tryGenerateSimplePDF w submission) as [[m code|[m|]]|p] eqn:Et;
    try discriminate.
  injection H as ->.
  unfold tryGenerateSimplePDF, andThen, awaited, awaitedVoid in Et.
  destruct (pdf_create w); [discriminate|].
  destruct (pdf_defaultPageSize w) as [wd ht]. simpl.
  destruct (pdf_embedFont w HelveticaBold) as [e|hb]; [discriminate|].
  destruct (pdf_embedFont w Helvetica) as [e|h]; [discriminate|].
  repeat (unfold drawTextOn, andThen in Et; simpl in Et;
          match type of Et with
          | context [encodingError ?f ?t] =>
              destruct (encodingError f t); [discriminate|]
          end).
  unfold andThen in Et. simpl in Et.
  destruct (pdf_save w _) as [e|bytes] eqn:Es; [discriminate|].
  destruct (length bytes =? 0)%nat; [discriminate|].
  destruct (fs_mkdir w _); [discriminate|].
  destruct (fs_writeFile w _ bytes) eqn:Ew; [discriminate|].
  injection Et as <-.
  eexists. exists bytes. split; [exact Es|]. split; [exact Ew|].
  simpl. repeat split. repeat constructor.
Qed.

Lemma generateSimplePDF_draws_one_fixed_page_witness :
  let h := snd (pdf_defaultPageSize SampleWorld.world) in
  exists page pdfBytes,
    pdf_save SampleWorld.world [page] = inr pdfBytes
    /\ fs_writeFile SampleWorld.world
         (js "/srv/app/uploads/generated/application-cmgh2k9x40000abcd.pdf")
         pdfBytes = None
    /\ width page = fst (pdf_defaultPageSize SampleWorld.world)
    /\ height page = h
    /\ map opText (drawn page)
       = [ js "Application Summary";
           js "Name: " ++ firstName SampleWorld.submission ++ [SP]
             ++ lastName SampleWorld.submission;
           js "Email: " ++ email SampleWorld.submission;
           js "Phone: "
             ++ orElse (phone SampleWorld.submission) (js "Not provided");
           js "Application Date: "
             ++ toLocaleDateString SampleWorld.world
                  (createdAt SampleWorld.submission);
           js "Job Description:";
           jobDescription SampleWorld.submission ]
    /\ map opY (drawn page)
       = [ h - 50; h - 100; h - 100 - 20; h - 100 - 20 - 20;
           h - 100 - 20 - 20 - 20;
           h - 100 - 20 - 20 - 20 - 20 - 20;
           h - 100 - 20 - 20 - 20 - 20 - 20 - 30 ]
    /\ Forall (fun op => opX op = 50) (drawn page).
Proof.
  apply (@generateSimplePDF_draws_one_fixed_page
           SampleWorld.world SampleWorld.submission).
  vm_compute. reflexivity.
Defined.

(** X15. [generateSimplePDF] does not sanitise: when [page.drawText]
    rejects the job description as it was submitted, in the regular font
    (a character that WinAnsi lacks, such as a Chinese one), the call
    throws an [ApplicationError] with status code 500 and returns no
    path. *)
Theorem generateSimplePDF_fails_on_unencodable_description
    (w : World) (submission : UserSubmission)
    (helvetica : PDFFont) (msg : JsString) :
  pdf_embedFont w Helvetica = inr helvetica ->
  encodingError helvetica (jobDescription submission) = Some msg ->
  exists message,
    generateSimplePDF w submission = inl (ApplicationError message 500).
Proof.
  intros Hh Henc. unfold generateSimplePDF.
  pose proof (tryGenerateSimplePDF_only500 w submission) as H5.
  destruct (tryGenerateSimplePDF w submission) as [[m code|[m|]]|p] eqn:Et;
    simpl in H5; subst; try (eexists; reflexivity).
  exfalso.
  unfold tryGenerateSimplePDF, andThen, awaited, awaitedVoid in Et.
  destruct (pdf_create w); [discriminate|].
  destruct (pdf_defaultPageSize w) as [wd ht].
  destruct (pdf_embedFont w HelveticaBold) as [e|hb]; [discriminate|].
  rewrite Hh in Et.
  repeat (unfold drawTextOn, andThen in Et; simpl in Et;
          try rewrite Henc in Et; try discriminate;
          match type of Et with
          | context [match encodingError ?f ?t with _ => _ end] =>
              destruct (encodingError f t); [discriminate|]
          end).
Qed.

Lemma generateSimplePDF_fails_on_unencodable_description_witness :
  exists message,
    generateSimplePDF SampleWorld.world chineseSubmission
    = inl (ApplicationError message 500).
Proof.
  apply (@generateSimplePDF_fails_on_unencodable_description
           SampleWorld.world chineseSubmission (Sample.font Helvetica)
           (js "WinAnsi cannot encode the text")).
  - reflexivity.
  - reflexivity.
Defined.

(** ** What [POST] answers and writes *)

(** X16. [POST] answers success, with status 200, the id of the record
    and the URL [/api/pdf/<id>], only after [generatePDF] returned and the
    record was updated to [completed] with the path of the PDF. Every other
    answer is the error response built from [handleApiError], and no write
    of that request gives the status [completed]. *)
Theorem POST_answers_success_only_when_completed (w : RouteWorld) :
  match resBody (fst (POST w [])) with
  | SubmitJson true submissionId pdfUrl err =>
      resStatus (fst (POST w [])) = 200%Z /\ err = None
      /\ exists row pdfPath,
           snd (POST w [])
           = [DbCreate row;
              DbUpdate (id row) (statusValue COMPLETED) (Some pdfPath)]
           /\ generatePDF (gen w) row = inr pdfPath
           /\ submissionId = Some (id row)
           /\ pdfUrl = Some (js "/api/pdf/" ++ id row)
  | SubmitJson false submissionId pdfUrl err =>
      (exists e, fst (POST w []) = submitError (handleApiError w e))
      /\ forall wr, In wr (snd (POST w [])) ->
           writtenStatus wr <> statusValue COMPLETED
  | _ => False
  end.
Proof.
  unfold POST, tryPOST, bind, await, awaitVoid, throw, modify, ret.
  repeat (break_match; simpl).
  all: try (split;
            [eexists;
             match goal with
             | H : handleApiError _ ?e = _ |- _ =>
                 instantiate (1 := e); rewrite H; reflexivity
             end
            |intros wr Hin; simpl in Hin;
             repeat (destruct Hin as [<-|Hin]; [simpl; discriminate|]);
             contradiction]).
  split; [reflexivity|]. split; [reflexivity|].
  match goal with
  | |- context [DbCreate ?r :: _] => exists r
  end.
  eexists. repeat split. eassumption.
Qed.

(** X17. [POST] creates a record only for an upload that was validated
    and stored: the form was read and passed the schema, there was a file
    and [validateFile] accepted it, the [uploads] directory was made and
    the bytes of the file were written under the generated safe name. The
    record holds the validated fields, that path, the original file name,
    the status [processing] and no PDF path yet. *)
Theorem POST_creates_a_record_only_for_a_stored_file
    (w : RouteWorld) (row : UserSubmission) (rest : list DbWrite) :
  snd (POST w []) = DbCreate row :: rest ->
  exists formData validatedData file buffer,
    req_formData w = inr formData
    /\ schema_parse w
         {| ff_firstName := fd_firstName formData;
            ff_lastName := fd_lastName formData;
            ff_email := fd_email formData;
            ff_phone := fd_phone formData;
            ff_jobDescription := fd_jobDescription formData |}
       = inr validatedData
    /\ fd_file formData = Some file
    /\ isValid (validateFile w file) = true
    /\ file_arrayBuffer w file = inr buffer
    /\ let uploadsDir :=
         path_join (gen w) [process_cwd (gen w); js "uploads"] in
       let filePath :=
         path_join (gen w)
           [uploadsDir; generateSafeFileName w (file_name file)] in
       fs_mkdir (gen w) uploadsDir = None
       /\ fs_writeFile (gen w) filePath buffer = None
       /\ uploadedFilePath row = Some filePath
       /\ uploadedFileName row = Some (file_name file)
       /\ generatedPdfPath row = None
       /\ status row = statusValue PROCESSING
       /\ firstName row = af_firstName validatedData
       /\ lastName row = af_lastName validatedData
       /\ email row = af_email validatedData
       /\ phone row = af_phone validatedData
       /\ jobDescription row = af_jobDescription validatedData.
Proof.
  unfold POST, tryPOST, bind, await, awaitVoid, throw, modify, ret.
  repeat (break_match; simpl).
  all: intros H; try discriminate; injection H as <- <-.
  all: do 4 eexists.
  all: repeat match goal with
              | |- _ /\ _ => split
              | |- _ = _ => first [eassumption | reflexivity]
              end.
  all: simpl.
  all: repeat match goal with
              | |- _ /\ _ => split
              | |- _ = _ => first [eassumption | reflexivity]
              | H : negb ?b = false |- ?b = true =>
                  now apply negb_false_iff in H
              end.
Qed.

Lemma POST_creates_a_record_only_for_a_stored_file_witness :
  exists formData validatedData file buffer,
    req_formData SampleRoutes.world = inr formData
    /\ schema_parse SampleRoutes.world
         {| ff_firstName := fd_firstName formData;
            ff_lastName := fd_lastName formData;
            ff_email := fd_email formData;
            ff_phone := fd_phone formData;
            ff_jobDescription := fd_jobDescription formData |}
       = inr validatedData
    /\ fd_file formData = Some file
    /\ isValid (validateFile SampleRoutes.world file) = true
    /\ file_arrayBuffer SampleRoutes.world file = inr buffer
    /\ let uploadsDir :=
         path_join (gen SampleRoutes.world)
           [process_cwd (gen SampleRoutes.world); js "uploads"] in
       let filePath :=
         path_join (gen SampleRoutes.world)
           [uploadsDir;
            generateSafeFileName SampleRoutes.world (file_name file)] in
       fs_mkdir (gen SampleRoutes.world) uploadsDir = None
       /\ fs_writeFile (gen SampleRoutes.world) filePath buffer = None
       /\ uploadedFilePath sampleRow = Some filePath
       /\ uploadedFileName sampleRow = Some (file_name file)
       /\ generatedPdfPath sampleRow = None
       /\ status sampleRow = statusValue PROCESSING
       /\ firstName sampleRow = af_firstName validatedData
       /\ lastName sampleRow = af_lastName validatedData
       /\ email sampleRow = af_email validatedData
       /\ phone sampleRow = af_phone validatedData
       /\ jobDescription sampleRow = af_jobDescription validatedData.
Proof.
  apply (@POST_creates_a_record_only_for_a_stored_file
           SampleRoutes.world sampleRow (tl sampleWrites)).
  vm_compute. reflexivity.
Defined.

(** ** What [GET] answers *)

Lemma validId_check (id : JsString) :
  negb (truthy id) || (length id <? 10)%nat = false <-> validId id.
Proof.
  unfold validId. rewrite orb_false_iff, negb_false_iff, Nat.ltb_ge.
  reflexivity.
Qed.

(** X18. With a [handleApiError] that hands back the message and code of
    an [ApplicationError], [GET] answers, in this order of precedence:
    400 to an id that is empty or shorter than ten characters; 404 when no
    submission has the id; 202 while the status is [processing] and 500
    once it is [failed], whether or not a PDF is recorded; 404 when no PDF
    path is recorded. *)
Theorem GET_error_codes (w : RouteWorld) (id : JsString) :
  (forall message code,
      handleApiError w (ApplicationError message code) = (message, code)) ->
  (~ validId id ->
   GET w id = downloadError (js "Invalid submission ID") 400)
  /\ (validId id -> db_findUnique w id = inr None ->
      GET w id = downloadError (js "Submission not found") 404)
  /\ forall submission,
       validId id -> db_findUnique w id = inr (Some submission) ->
       (status submission = statusValue PROCESSING ->
        GET w id
        = downloadError
            (js "PDF is still being generated. Please try again in a moment.")
            202)
       /\ (status submission = statusValue FAILED ->
           GET w id
           = downloadError
               (js "PDF generation failed. Please contact support.") 500)
       /\ (status submission <> statusValue PROCESSING ->
           status submission <> statusValue FAILED ->
           optTruthy (generatedPdfPath submission) = false ->
           GET w id = downloadError (js "PDF not available") 404).
Proof.
  intros Happ. unfold GET, tryGET, andThen, awaited, downloadError.
  split; [|split].
  - intros Hid.
    destruct (negb (truthy id) || (length id <? 10)%nat) eqn:E.
    + now rewrite Happ.
    + exfalso. apply Hid. now apply validId_check.
  - intros Hid Hfind. apply validId_check in Hid. rewrite Hid, Hfind.
    now rewrite Happ.
  - intros submission Hid Hfind. apply validId_check in Hid.
    rewrite Hid, Hfind. split; [|split].
    + intros Hs. rewrite Hs. simpl. now rewrite Happ.
    + intros Hs. rewrite Hs. simpl. now rewrite Happ.
    + intros Hp Hf Hpath.
      destruct (strEq (status submission) (statusValue PROCESSING)) eqn:E1;
        [apply strEq_eq in E1; contradiction|].
      destruct (strEq (status submission) (statusValue FAILED)) eqn:E2;
        [apply strEq_eq in E2; contradiction|].
      rewrite Hpath. simpl. now rewrite Happ.
Qed.

Lemma GET_error_codes_witness :
  (~ validId (js "abc") ->
   GET SampleRoutes.world (js "abc")
   = downloadError (js "Invalid submission ID") 400)
  /\ (validId (js "abc") ->
      db_findUnique SampleRoutes.world (js "abc") = inr None ->
      GET SampleRoutes.world (js "abc")
      = downloadError (js "Submission not found") 404)
  /\ forall submission,
       validId (js "abc") ->
       db_findUnique SampleRoutes.world (js "abc") = inr (Some submission) ->
       (status submission = statusValue PROCESSING ->
        GET SampleRoutes.world (js "abc")
        = downloadError
            (js "PDF is still being generated. Please try again in a moment.")
            202)
       /\ (status submission = statusValue FAILED ->
           GET SampleRoutes.world (js "abc")
           = downloadError
               (js "PDF generation failed. Please contact support.") 500)
       /\ (status submission <> statusValue PROCESSING ->
           status submission <> statusValue FAILED ->
           optTruthy (generatedPdfPath submission) = false ->
           GET SampleRoutes.world (js "abc")
           = downloadError (js "PDF not available") 404).
Proof.
  apply (@GET_error_codes SampleRoutes.world (js "abc")).
  intros message code. reflexivity.
Defined.

Lemma safeName_units (s : JsString) : forallb fileNameUnit (safeName s) = true.
Proof.
  induction s as [|c s IH]; [reflexivity|]. simpl. rewrite IH, andb_true_r.
  unfold fileNameUnit.
  destruct (((48 <=? c) && (c <=? 57)) || ((65 <=? c) && (c <=? 90))
            || ((97 <=? c) && (c <=? 122)))%N eqn:E.
  - now rewrite E.
  - reflexivity.
Qed.

(** X19. When [GET] serves a PDF, the Content-Type is application/pdf,
    the Content-Length is the decimal length of the body, and the file name
    of the Content-Disposition, written between two quotes, holds only
    letters, digits, underscores, hyphens and dots, whatever the first and
    last names of the submission hold. *)
Theorem GET_download_headers
    (w : RouteWorld) (id : JsString) (bytes : list N) :
  resBody (GET w id) = Buffer bytes ->
  header (js "Content-Type") (resHeaders (GET w id))
  = Some (js "application/pdf")
  /\ header (js "Content-Length") (resHeaders (GET w id))
     = Some (showNat (length bytes))
  /\ exists name,
       header (js "Content-Disposition") (resHeaders (GET w id))
       = Some (js "attachment; filename=" ++ [QUOTE] ++ name ++ [QUOTE])
       /\ forallb fileNameUnit name = true.
Proof.
  unfold GET, tryGET, andThen, awaited.
  repeat (break_match; simpl); intros H; try discriminate.
  injection H as <-. split; [reflexivity|]. split; [reflexivity|].
  match goal with
  | u : UserSubmission |- _ =>
      exists (js "application-" ++ safeName (firstName u)
              ++ js "-" ++ safeName (lastName u) ++ js ".pdf")
  end.
  split; [reflexivity|].
  rewrite !forallb_app, !safeName_units. reflexivity.
Qed.

Lemma GET_download_headers_witness :
  header (js "Content-Type")
    (resHeaders (GET SampleRoutes.world (js "cmgh2k9x40000abcd")))
  = Some (js "application/pdf")
  /\ header (js "Content-Length")
       (resHeaders (GET SampleRoutes.world (js "cmgh2k9x40000abcd")))
     = Some (showNat (length [37; 80; 68; 70]%N))
  /\ exists name,
       header (js "Content-Disposition")
         (resHeaders (GET SampleRoutes.world (js "cmgh2k9x40000abcd")))
       = Some (js "attachment; filename=" ++ [QUOTE] ++ name ++ [QUOTE])
       /\ forallb fileNameUnit name = true.
Proof.
  apply (@GET_download_headers
           SampleRoutes.world (js "cmgh2k9x40000abcd") [37; 80; 68; 70]%N).
  reflexivity.
Defined.

(** ** The paragraphs of the two information sections *)

Lemma splitNewlines_piece (p rest : JsString) :
  oneLine p -> splitNewlines (p ++ LF :: rest) = p :: splitNewlines rest.
Proof.
  intros [Hl Hc]. induction p as [|c p IH]; simpl.
  - reflexivity.
  - destruct (c =? LF)%N eqn:El;
      [apply N.eqb_eq in El; exfalso; apply Hl; now left|].
    destruct (c =? CR)%N eqn:Ec;
      [apply N.eqb_eq in Ec; exfalso; apply Hc; now left|].
    assert (IH' : splitNewlines (p ++ LF :: rest) = p :: splitNewlines rest).
    { apply IH; intros H; [apply Hl|apply Hc]; now right. }
    destruct (p ++ LF :: rest) as [|d rest'] eqn:E;
      [now destruct p|].
    simpl andb. rewrite IH'. reflexivity.
Qed.

Lemma splitNewlines_join (pieces : list JsString) :
  pieces <> [] -> Forall oneLine pieces ->
  splitNewlines (join [LF] pieces) = pieces.
Proof.
  induction pieces as [|p ps IH]; intros Hne Hall; [congruence|].
  inversion Hall as [|? ? Hp Hps]; subst.
  destruct ps as [|q ps].
  - simpl. apply splitNewlines_without_LF. exact (proj1 Hp).
  - rewrite join_cons by discriminate.
    change (p ++ [LF] ++ join [LF] (q :: ps))
      with (p ++ LF :: join [LF] (q :: ps)).
    rewrite splitNewlines_piece by assumption.
    f_equal. apply IH; [discriminate|assumption].
Qed.

Lemma oneLine_app (a b : JsString) : oneLine a -> oneLine b -> oneLine (a ++ b).
Proof.
  unfold oneLine. rewrite !in_app_iff. tauto.
Qed.

Ltac one_line_literal :=
  vm_compute; split; intros H;
  repeat (destruct H as [H|H]; [discriminate|]); exact H.

(** X20. When no field of the submission, nor the date as the locale
    writes it, holds a line break, the applicant information is exactly
    five paragraphs for [wrapText] to lay out: the name, the e-mail
    address, the phone number or [Not provided], the application date and
    the status, each behind its label. *)
Theorem generateApplicantInfo_has_five_paragraphs
    (w : World) (submission : UserSubmission) :
  oneLine (firstName submission) -> oneLine (lastName submission) ->
  oneLine (email submission) ->
  (forall number, phone submission = Some number -> oneLine number) ->
  oneLine (toLocaleDateString_enUS w (createdAt submission)) ->
  oneLine (status submission) ->
  splitNewlines (generateApplicantInfo w submission)
  = [ js "Name: " ++ firstName submission ++ [SP] ++ lastName submission;
      js "Email: " ++ email submission;
      js "Phone: "
        ++ (if optTruthy (phone submission)
            then orElse (phone submission) [] else js "Not provided");
      js "Application Date: "
        ++ toLocaleDateString_enUS w (createdAt submission);
      js "Status: " ++ status submission ].
Proof.
  intros Hf Hl He Hp Hd Hs. unfold generateApplicantInfo.
  assert (Hphone : oneLine (orElse (phone submission) (js "Not provided"))).
  { unfold orElse. destruct (phone submission) as [number|];
      [destruct (truthy number); [now apply Hp|]|]; one_line_literal. }
  rewrite splitNewlines_join.
  - repeat f_equal. unfold orElse, optTruthy.
    destruct (phone submission) as [number|]; [|reflexivity].
    destruct (truthy number); reflexivity.
  - discriminate.
  - repeat (apply Forall_cons || apply Forall_nil);
      repeat (apply oneLine_app; try assumption); one_line_literal.
Qed.

Lemma generateApplicantInfo_has_five_paragraphs_witness :
  splitNewlines (generateApplicantInfo SampleWorld.world phonedSubmission)
  = [ js "Name: " ++ firstName phonedSubmission ++ [SP]
        ++ lastName phonedSubmission;
      js "Email: " ++ email phonedSubmission;
      js "Phone: "
        ++ (if optTruthy (phone phonedSubmission)
            then orElse (phone phonedSubmission) []
            else js "Not provided");
      js "Application Date: "
        ++ toLocaleDateString_enUS SampleWorld.world
             (createdAt phonedSubmission);
      js "Status: " ++ status phonedSubmission ].
Proof.
  apply (@generateApplicantInfo_has_five_paragraphs
           SampleWorld.world phonedSubmission).
  - one_line_literal.
  - one_line_literal.
  - one_line_literal.
  - intros number H. injection H as <-. one_line_literal.
  - one_line_literal.
  - one_line_literal.
Defined.

(** X21. The document information is the one paragraph
    [No document uploaded] when the submission names no uploaded file, and
    otherwise two paragraphs, the file name behind its label and the
    sentence that the file is attached, when the name holds no line
    break. *)
Theorem generateDocumentInfo_paragraphs (submission : UserSubmission) :
  (forall name, uploadedFileName submission = Some name -> oneLine name) ->
  splitNewlines (generateDocumentInfo submission)
  = if optTruthy (uploadedFileName submission)
    then [ js "Uploaded File: " ++ orElse (uploadedFileName submission) [];
           js "File processed and attached to this PDF." ]
    else [ js "No document uploaded" ].
Proof.
  intros Hname. unfold generateDocumentInfo, optTruthy, orElse.
  destruct (uploadedFileName submission) as [name|]; [|reflexivity].
  destruct (truthy name); [|reflexivity].
  change (js "Uploaded File: " ++ name ++ [LF]
          ++ js "File processed and attached to this PDF.")
    with (js "Uploaded File: "
          ++ name ++ LF :: js "File processed and attached to this PDF.").
  rewrite app_assoc. rewrite splitNewlines_piece.
  - reflexivity.
  - apply oneLine_app; [one_line_literal|now apply Hname].
Qed.

Lemma generateDocumentInfo_paragraphs_witness :
  splitNewlines (generateDocumentInfo SampleWorld.submission)
  = if optTruthy (uploadedFileName SampleWorld.submission)
    then [ js "Uploaded File: "
             ++ orElse (uploadedFileName SampleWorld.submission) [];
           js "File processed and attached to this PDF." ]
    else [ js "No document uploaded" ].
Proof.
  apply (@generateDocumentInfo_paragraphs SampleWorld.submission).
  intros name H. injection H as <-. one_line_literal.
Defined.
